(** * Deflate-Implementation: LZ77 + static Huffman file compressor

    A shallow embedding of [deflate.py] and the properties of its
    compression pipeline.

    Conventions of the embedding.
    - Python [int] is [Z]; [bytes]/[bytearray] is [list byte]; a one-byte
      [bytes] object used as a Huffman symbol is the [byte] it holds.
    - Python [str] is [string]; bit strings are strings over "0"/"1".
    - A [dict] is an association list in insertion order.
    - Code that can raise returns in the monad [M]; every [while] loop is
      driven by a fuel counter, running out of which is the distinct
      outcome [Raise OutOfFuel].
    - A file is its content: [compress_file] and [decompress_file] map the
      bytes read from [input_path] to the bytes written to [output_path]. *)

From Stdlib Require Import ZArith List Bool Lia String Ascii.
From Stdlib.Strings Require Import Byte.
From Stdlib Require Import Permutation.
Import ListNotations.

Local Open Scope Z_scope.

(* ================================================================== *)
(** ** Outcomes of Python code *)

Inductive exn : Type :=
| IndexError
| KeyError
| ValueError
| OverflowError
| StructError
| StopIteration
| OutOfFuel.

Inductive M (A : Type) : Type :=
| Ok (a : A)
| Raise (e : exn).

Arguments Ok {A} a.
Arguments Raise {A} e.

Definition bind {A B : Type} (m : M A) (k : A -> M B) : M B :=
  match m with
  | Ok a => k a
  | Raise e => Raise e
  end.

Notation "x <- m ;; k" := (bind m (fun x => k))
  (at level 61, m at next level, right associativity).
Notation "' p <- m ;; k" := (bind m (fun x => match x with p => k end))
  (at level 61, p pattern, m at next level, right associativity).

(** [for x in xs: acc = body(acc, x)] where the body may raise. *)
Fixpoint foldM {A B : Type} (body : B -> A -> M B) (xs : list A) (acc : B) : M B :=
  match xs with
  | [] => Ok acc
  | x :: xs' => acc' <- body acc x ;; foldM body xs' acc'
  end.

(* ================================================================== *)
(** ** Python sequences *)

Module Py.

Definition len {A : Type} (l : list A) : Z := Z.of_nat (List.length l).

(** [l[i]]: a negative index counts from the end; out of range raises. *)
Definition getitem {A : Type} (l : list A) (i : Z) : M A :=
  let j := if i <? 0 then i + len l else i in
  if (j <? 0) || (len l <=? j) then Raise IndexError
  else match nth_error l (Z.to_nat j) with
       | Some a => Ok a
       | None => Raise IndexError
       end.

(** [range(a, b)] *)
Definition range (a b : Z) : list Z :=
  map (fun k => a + Z.of_nat k) (seq 0 (Z.to_nat (b - a))).

(** [l[i:j]] for [0 <= i <= j], the only slices the program takes. *)
Definition slice {A : Type} (l : list A) (i j : Z) : list A :=
  firstn (Z.to_nat (j - i)) (skipn (Z.to_nat i) l).

End Py.

(* ================================================================== *)
(** ** Bytes and integers *)

Definition byte_to_Z (b : byte) : Z := Z.of_N (Byte.to_N b).

(** The byte of value [z mod 256]. *)
Definition byte_of_Z (z : Z) : byte :=
  match Byte.of_N (Z.to_N (z mod 256)) with
  | Some b => b
  | None => x00
  end.

(** [range(256)] as byte values, ascending. *)
Definition all_bytes : list byte := map byte_of_Z (Py.range 0 256).

(* ================================================================== *)
(** ** class Codeword *)

Record Codeword : Type := mkCodeword {
  prefix_start_offset : Z;
  prefix_len : Z;
  character : byte
}.

(* ================================================================== *)
(** ** class Lz77Compressor *)

Section Lz77Compressor.

Variable sliding_window_length : Z.
Variable buffer : list byte.

(** The inner [while] of [codeword_for_position], entered with
    [current_match_len = cur].  It leaves through [break] after at most
    258 increments. *)
Fixpoint match_while (fuel : nat) (position start cur : Z) : M Z :=
  match fuel with
  | O => Raise OutOfFuel
  | S fuel' =>
      if (position + cur <? Py.len buffer) && (start + cur <? position) then
        a <- Py.getitem buffer (start + cur) ;;
        b <- Py.getitem buffer (position + cur) ;;
        if Byte.eqb a b then
          let cur' := cur + 1 in
          if cur' >=? 258 then Ok cur'
          else match_while fuel' position start cur'
        else Ok cur
      else Ok cur
  end.

Definition current_match (position start : Z) : M Z :=
  match_while 258 position start 0.

(** The [for offset in range(1, max_offset + 1)] loop; the state is
    [(longest_match_len, longest_match_offset)]. *)
Fixpoint offset_loop (offsets : list Z) (position : Z)
         (longest_match_len longest_match_offset : Z) : M (Z * Z) :=
  match offsets with
  | [] => Ok (longest_match_len, longest_match_offset)
  | offset :: rest =>
      let start := position - offset in
      if start <? 0 then Ok (longest_match_len, longest_match_offset)
      else
        current_match_len <- current_match position start ;;
        if current_match_len >? longest_match_len
        then offset_loop rest position current_match_len offset
        else offset_loop rest position longest_match_len longest_match_offset
  end.

(** Lines 38-55: the search, returning
    [(longest_match_len, longest_match_offset)]. *)
Definition longest_match (position : Z) : M (Z * Z) :=
  let max_offset := Z.min position sliding_window_length in
  offset_loop (Py.range 1 (max_offset + 1)) position 0 0.

Definition codeword_for_position (position : Z) : M Codeword :=
  '(longest_match_len, longest_match_offset) <- longest_match position ;;
  if longest_match_len >? 0 then
    let next_char_pos := position + longest_match_len in
    if next_char_pos >=? Py.len buffer then
      c <- Py.getitem buffer position ;;
      Ok (mkCodeword 0 0 c)
    else
      next_char <- Py.getitem buffer next_char_pos ;;
      Ok (mkCodeword longest_match_offset longest_match_len next_char)
  else
    next_char <- Py.getitem buffer position ;;
    Ok (mkCodeword 0 0 next_char).

End Lz77Compressor.

(* ================================================================== *)
(** ** class Lz77 *)

(** One [next()] on the generator of [Lz77.compress] whose cursor is at
    [position]: [None] is StopIteration, otherwise the codeword yielded and
    the cursor after it. *)
Definition Lz77_next (sliding_window_length : Z) (data : list byte)
           (position : Z) : M (option (Codeword * Z)) :=
  if position <? Py.len data then
    codeword <- codeword_for_position sliding_window_length data position ;;
    Ok (Some (codeword, position + prefix_len codeword + 1))
  else Ok None.

(** All codewords the generator yields from [position] on. *)
Fixpoint Lz77_run (fuel : nat) (sliding_window_length : Z) (data : list byte)
         (position : Z) : M (list Codeword) :=
  step <- Lz77_next sliding_window_length data position ;;
  match step with
  | None => Ok []
  | Some (codeword, position') =>
      match fuel with
      | O => Raise OutOfFuel
      | S fuel' =>
          rest <- Lz77_run fuel' sliding_window_length data position' ;;
          Ok (codeword :: rest)
      end
  end.

Definition Lz77_compress (sliding_window_length : Z) (data : list byte)
  : M (list Codeword) :=
  Lz77_run (List.length data) sliding_window_length data 0.

(* ================================================================== *)
(** ** class Lz77Decompressor *)

(** The [for i in range(length)] loop of [decompress_codeword]; [buffer]
    is [self.buffer], which grows while the loop runs. *)
Fixpoint copy_loop (indices : list Z) (start : Z) (buffer : list byte)
  : M (list byte) :=
  match indices with
  | [] => Ok buffer
  | i :: rest =>
      if start + i >=? Py.len buffer then Ok buffer
      else
        b <- Py.getitem buffer (start + i) ;;
        copy_loop rest start (buffer ++ [b])
  end.

(** [decompress_codeword], from [self.buffer] before the call to
    [self.buffer] after it. *)
Definition decompress_codeword (buffer : list byte) (codeword : Codeword)
  : M (list byte) :=
  let offset := prefix_start_offset codeword in
  let length := prefix_len codeword in
  let char := character codeword in
  buffer' <- (if offset >? 0
              then copy_loop (Py.range 0 length) (Py.len buffer - offset) buffer
              else Ok buffer) ;;
  Ok (buffer' ++ [char]).

(** A fresh [Lz77Decompressor] fed [codewords] in order, then [get_data]. *)
Definition replay (codewords : list Codeword) : M (list byte) :=
  foldM decompress_codeword codewords [].

(* ================================================================== *)
(** ** dict *)

Section Dict.

Context {K V : Type}.
Variable eqb : K -> K -> bool.

(** [d.get(k)] *)
Fixpoint dict_get (d : list (K * V)) (k : K) : option V :=
  match d with
  | [] => None
  | (k', v) :: d' => if eqb k' k then Some v else dict_get d' k
  end.

(** [d.get(k, default)], and [d[k]] on a [defaultdict] *)
Definition dict_get_default (d : list (K * V)) (k : K) (default : V) : V :=
  match dict_get d k with
  | Some v => v
  | None => default
  end.

(** [d[k] = v]: an existing key keeps its place, a new one goes last. *)
Fixpoint dict_set (d : list (K * V)) (k : K) (v : V) : list (K * V) :=
  match d with
  | [] => [(k, v)]
  | (k', v') :: d' =>
      if eqb k' k then (k', v) :: d' else (k', v') :: dict_set d' k v
  end.

End Dict.

(** The truth value of a container. *)
Definition truthy {A : Type} (l : list A) : bool :=
  match l with [] => false | _ :: _ => true end.

(** [Counter(symbols)] *)
Definition Counter (symbols : list byte) : list (byte * Z) :=
  fold_left (fun d s => dict_set Byte.eqb d s (dict_get_default Byte.eqb d s 0 + 1))
            symbols [].

(* ================================================================== *)
(** ** struct, int.to_bytes, int.from_bytes, int(s, 2), format *)

(** [struct.pack('>HHB', offset, length, char)] *)
Definition pack_HHB (offset length : Z) (char : byte) : M (list byte) :=
  if (0 <=? offset) && (offset <=? 65535) && (0 <=? length) && (length <=? 65535)
  then Ok [byte_of_Z (offset / 256); byte_of_Z offset;
           byte_of_Z (length / 256); byte_of_Z length; char]
  else Raise StructError.

(** [struct.unpack('>HHB', chunk)] *)
Definition unpack_HHB (chunk : list byte) : M (Z * Z * byte) :=
  match chunk with
  | [o1; o0; l1; l0; c] =>
      Ok (byte_to_Z o1 * 256 + byte_to_Z o0, byte_to_Z l1 * 256 + byte_to_Z l0, c)
  | _ => Raise StructError
  end.

(** [count.to_bytes(4, 'big')] *)
Definition to_bytes4 (count : Z) : M (list byte) :=
  if (0 <=? count) && (count <? 4294967296)
  then Ok [byte_of_Z (count / 16777216); byte_of_Z (count / 65536);
           byte_of_Z (count / 256); byte_of_Z count]
  else Raise OverflowError.

(** [int.from_bytes(bs, 'big')] *)
Definition from_bytes (bs : list byte) : Z :=
  fold_left (fun acc b => acc * 256 + byte_to_Z b) bs 0.

(** [int(s, 2)] on a string of binary digits. *)
Fixpoint int2_digits (s : string) (acc : Z) : M Z :=
  match s with
  | EmptyString => Ok acc
  | String c s' =>
      if Ascii.eqb c "0" then int2_digits s' (2 * acc)
      else if Ascii.eqb c "1" then int2_digits s' (2 * acc + 1)
      else Raise ValueError
  end.

Definition int2 (s : string) : M Z :=
  match s with
  | EmptyString => Raise ValueError
  | _ => int2_digits s 0
  end.

(** [bytearray.append(v)] *)
Definition bytearray_append (buf : list byte) (v : Z) : M (list byte) :=
  if (0 <=? v) && (v <? 256) then Ok (buf ++ [byte_of_Z v])
  else Raise ValueError.

(** [f"{byte:08b}"] *)
Definition format_08b (b : byte) : string :=
  let bit k := if Z.testbit (byte_to_Z b) k then "1"%char else "0"%char in
  String (bit 7) (String (bit 6) (String (bit 5) (String (bit 4)
    (String (bit 3) (String (bit 2) (String (bit 1) (String (bit 0) ""))))))).

(** ['0' * n] *)
Definition zeros (n : Z) : string :=
  fold_right String EmptyString (repeat "0"%char (Z.to_nat n)).

Definition str_len (s : string) : Z := Z.of_nat (String.length s).

(** [range(0, stop, step)] for a positive [step]. *)
Definition range_step (stop step : Z) : list Z :=
  map (fun k => step * Z.of_nat k) (seq 0 (Z.to_nat ((stop + step - 1) / step))).

(** [s[i:i+n]] on a string *)
Definition str_slice (s : string) (i n : Z) : string :=
  String.substring (Z.to_nat i) (Z.to_nat n) s.

(* ================================================================== *)
(** ** class Codec *)

Record Codec : Type := mkCodec {
  letters : list (string * byte);
  codes : list (byte * string)
}.

Definition Codec_init : Codec := mkCodec [] [].

Definition update (self : Codec) (letter : byte) (code : string) : Codec :=
  mkCodec (dict_set String.eqb (letters self) code letter)
          (dict_set Byte.eqb (codes self) letter code).

(** [''.join(self.codes[s] for s in symbols)] *)
Definition encode (self : Codec) (symbols : list byte) : M string :=
  foldM (fun acc s =>
           match dict_get Byte.eqb (codes self) s with
           | Some code => Ok (acc ++ code)%string
           | None => Raise KeyError
           end) symbols EmptyString.

(** The [for bit in bitstream] loop of [decode]. *)
Fixpoint decode_loop (self : Codec) (bitstream : string)
         (current_code : string) (decoded : list byte) : list byte :=
  match bitstream with
  | EmptyString => decoded
  | String bit rest =>
      let current_code := (current_code ++ String bit EmptyString)%string in
      match dict_get String.eqb (letters self) current_code with
      | Some letter => decode_loop self rest EmptyString (decoded ++ [letter])
      | None => decode_loop self rest current_code decoded
      end
  end.

Definition decode (self : Codec) (bitstream : string) : list byte :=
  decode_loop self bitstream EmptyString [].

(* ================================================================== *)
(** ** heapq

    [heapq] is a module of Python's standard library, of which [huffman]
    uses [heappush] and [heappop].  They are taken by their contract: the
    heap holds the pushed items and [heappop] removes and returns the
    smallest one under Python's ordering of the items.  The items here
    are tuples [(freq, [symbols])], ordered by [freq] and then by the
    symbol lists lexicographically; the heap is kept as the ascending
    list of its items. *)

Definition item : Type := Z * list byte.

(** [a < b] on lists of one-byte [bytes] objects. *)
Fixpoint syms_ltb (a b : list byte) : bool :=
  match a, b with
  | [], [] => false
  | [], _ :: _ => true
  | _ :: _, [] => false
  | x :: a', y :: b' =>
      if Byte.eqb x y then syms_ltb a' b'
      else byte_to_Z x <? byte_to_Z y
  end.

(** [a < b] on tuples [(freq, symbols)]. *)
Definition item_ltb (a b : item) : bool :=
  if fst a =? fst b then syms_ltb (snd a) (snd b) else fst a <? fst b.

Fixpoint heappush (heap : list item) (x : item) : list item :=
  match heap with
  | [] => [x]
  | y :: heap' =>
      if item_ltb x y then x :: y :: heap' else y :: heappush heap' x
  end.

Definition heappop (heap : list item) : M (item * list item) :=
  match heap with
  | [] => Raise IndexError
  | x :: heap' => Ok (x, heap')
  end.

(* ================================================================== *)
(** ** huffman *)

(** [codes[s] = bit + codes[s]] on the [defaultdict(str)]. *)
Definition prepend (bit : ascii) (codes : list (byte * string)) (s : byte)
  : list (byte * string) :=
  dict_set Byte.eqb codes s (String bit (dict_get_default Byte.eqb codes s EmptyString)).

Fixpoint huffman_while (fuel : nat) (heap : list item)
         (codes : list (byte * string)) : M (list (byte * string)) :=
  if Py.len heap >? 1 then
    match fuel with
    | O => Raise OutOfFuel
    | S fuel' =>
        '((freq1, sym1), heap) <- heappop heap ;;
        '((freq2, sym2), heap) <- heappop heap ;;
        let codes := fold_left (prepend "0") sym1 codes in
        let codes := fold_left (prepend "1") sym2 codes in
        let heap := heappush heap (freq1 + freq2, sym1 ++ sym2) in
        huffman_while fuel' heap codes
    end
  else Ok codes.

Definition huffman (frequencies : list (byte * Z)) : M (list (byte * string)) :=
  let heap := fold_left (fun heap '(symbol, freq) => heappush heap (freq, [symbol]))
                        frequencies [] in
  codes <- huffman_while (List.length heap) heap [] ;;
  match frequencies with
  | [(symbol, _)] => Ok (dict_set Byte.eqb codes symbol "0"%string)
  | _ => Ok codes
  end.

(* ================================================================== *)
(** ** compress_file *)

(** Lines 213-216: the 5-byte records of the codewords, concatenated. *)
Definition serialize (codewords : list Codeword) : M (list byte) :=
  foldM (fun serialized cw =>
           record <- pack_HHB (prefix_start_offset cw) (prefix_len cw) (character cw) ;;
           Ok (serialized ++ record))
        codewords [].

(** Lines 221-224: the code table and the codec filled from it. *)
Definition build_codes (freq : list (byte * Z)) : M (list (byte * string)) :=
  if truthy freq then huffman freq else Ok [].

Definition build_codec (codes : list (byte * string)) : Codec :=
  fold_left (fun codec '(sym, code) => update codec sym code) codes Codec_init.

(** Lines 230-233: eight bits per output byte. *)
Definition pack_bits (encoded_bits : string) : M (list byte) :=
  foldM (fun bytes_out i =>
           v <- int2 (str_slice encoded_bits i 8) ;;
           bytearray_append bytes_out v)
        (range_step (str_len encoded_bits) 8) [].

(** Lines 236-239: the 256 counters. *)
Definition write_header (freq : list (byte * Z)) : M (list byte) :=
  foldM (fun f_out byte_key =>
           let count := dict_get_default Byte.eqb freq byte_key 0 in
           counter <- to_bytes4 count ;;
           Ok (f_out ++ counter))
        all_bytes [].

(** Lines 203-211: the loop that drains the generator.  [cursor] is the
    position held inside the generator, [position] the one the loop
    keeps itself. *)
Fixpoint collect_loop (fuel : nat) (data : list byte) (cursor position : Z)
         (codewords : list Codeword) : M (list Codeword) :=
  if position <? Py.len data then
    match fuel with
    | O => Raise OutOfFuel
    | S fuel' =>
        step <- Lz77_next 32768 data cursor ;;
        match step with
        | None => Raise StopIteration
        | Some (codeword, cursor') =>
            let step := prefix_len codeword + 1 in
            collect_loop fuel' data cursor' (position + step) (codewords ++ [codeword])
        end
    end
  else Ok codewords.

Definition compress_codewords (data : list byte) : M (list Codeword) :=
  collect_loop (List.length data) data 0 0 [].

Definition compress_file (data : list byte) : M (list byte) :=
  codewords <- compress_codewords data ;;
  serialized <- serialize codewords ;;
  let symbols := serialized in
  let freq := Counter symbols in
  codes <- build_codes freq ;;
  let codec := build_codec codes in
  encoded_bits <- (if truthy codes then encode codec symbols else Ok EmptyString) ;;
  let padding := (8 - (str_len encoded_bits mod 8)) mod 8 in
  let encoded_bits := (encoded_bits ++ zeros padding)%string in
  bytes_out <- pack_bits encoded_bits ;;
  header <- write_header freq ;;
  Ok (header ++ bytes_out).

(* ================================================================== *)
(** ** decompress_file *)

(** Lines 253-257: the frequency table read back from the header. *)
Definition header_count (freq_data : list byte) (b : Z) : Z :=
  from_bytes (Py.slice freq_data (b * 4) ((b + 1) * 4)).

Definition read_header (freq_data : list byte) : list (byte * Z) :=
  fold_left (fun freq b =>
               let count := header_count freq_data b in
               if count >? 0 then dict_set Byte.eqb freq (byte_of_Z b) count
               else freq)
            (Py.range 0 256) [].

(** [''.join(f"{byte:08b}" for byte in encoded_data)] *)
Definition bitstream_of (encoded_data : list byte) : string :=
  fold_right (fun byte acc => (format_08b byte ++ acc)%string) EmptyString encoded_data.

(** Lines 268-274: records of five bytes, a shorter tail ends the loop. *)
Fixpoint parse_codewords (indices : list Z) (serialized : list byte)
         (codewords : list Codeword) : M (list Codeword) :=
  match indices with
  | [] => Ok codewords
  | i :: rest =>
      let chunk := Py.slice serialized i (i + 5) in
      if negb (Py.len chunk =? 5) then Ok codewords
      else
        '(offset, length, char) <- unpack_HHB chunk ;;
        parse_codewords rest serialized (codewords ++ [mkCodeword offset length char])
  end.

(** The calls a run of [decompress_file] makes to the Huffman stage. *)
Inductive call : Type :=
| Call_huffman
| Call_decode.

(** [decompress_file] with the calls it made. *)
Definition decompress_file_calls (data : list byte) : list call * M (list byte) :=
  let freq_data := firstn 1024 data in
  let encoded_data := skipn 1024 data in
  let freq := read_header freq_data in
  let calls := if truthy freq then [Call_huffman] else [] in
  match build_codes freq with
  | Raise e => (calls, Raise e)
  | Ok codes =>
      let codec := build_codec codes in
      let bitstream := bitstream_of encoded_data in
      let calls := calls ++ (if truthy codes then [Call_decode] else []) in
      let decoded_symbols := if truthy codes then decode codec bitstream else [] in
      let serialized := if truthy codes then decoded_symbols else [] in
      (calls,
       codewords <- parse_codewords (range_step (Py.len serialized) 5) serialized [] ;;
       replay codewords)
  end.

Definition decompress_file (data : list byte) : M (list byte) :=
  snd (decompress_file_calls data).

(* ================================================================== *)
(** ** Notions of the statements

    [run_length], [covers], [block_copy] and [is_prefix] follow the words
    of the specification, not the code; the theorems relate them to the
    definitions above.  The others are invariants and auxiliary notions
    of the proofs. *)

(** [buffer[i]] for an index inside the buffer. *)
Definition byte_at (buffer : list byte) (i : Z) : option byte :=
  nth_error buffer (Z.to_nat i).

(** Comparing [buffer[p - o + k]] to [buffer[p + k]] for increasing [k]
    stops at [k] when the buffer ends, when [k = o], when [k = 258], or
    when the two bytes differ. *)
Definition stops_at (buffer : list byte) (p o k : Z) : Prop :=
  Py.len buffer <= p + k \/ k = o \/ k = 258 \/
  byte_at buffer (p - o + k) <> byte_at buffer (p + k).

(** The run length of offset [o] at position [p]: the first [k] at which
    the comparison stops. *)
Definition run_length (buffer : list byte) (p o k : Z) : Prop :=
  0 <= k /\ stops_at buffer p o k /\
  forall j, 0 <= j < k -> ~ stops_at buffer p o j.

(** A token sequence covers [data] from position [p] on: each token
    spans [prefix_len + 1] bytes the last of which is its literal, the
    next token starts where it ends, and the last one ends at the end of
    the buffer. *)
Inductive covers (data : list byte) : Z -> list Codeword -> Prop :=
| covers_nil : covers data (Py.len data) []
| covers_cons (p : Z) (cw : Codeword) (rest : list Codeword) :
    0 <= prefix_len cw ->
    byte_at data (p + prefix_len cw) = Some (character cw) ->
    covers data (p + prefix_len cw + 1) rest ->
    covers data p (cw :: rest).

(** The copy step of a token done as one block copy of bytes that were
    in the output before the token, followed by the literal. *)
Definition block_copy (out : list byte) (cw : Codeword) : list byte :=
  let start := Py.len out - prefix_start_offset cw in
  out ++ Py.slice out start (start + prefix_len cw) ++ [character cw].

(** [c1] is a prefix of [c2]. *)
Definition is_prefix (c1 c2 : string) : Prop :=
  exists rest, c2 = (c1 ++ rest)%string.

(** A string of binary digits. *)
Fixpoint is_bits (c : string) : bool :=
  match c with
  | EmptyString => true
  | String b c' => (Ascii.eqb b "0" || Ascii.eqb b "1") && is_bits c'
  end.

(** Every code of the table is a string of binary digits. *)
Definition bits_table (table : list (byte * string)) : Prop :=
  forall s c, dict_get Byte.eqb table s = Some c -> is_bits c = true.

(** The code of [s] in the [defaultdict] [table]. *)
Definition code_of (table : list (byte * string)) (s : byte) : string :=
  dict_get_default Byte.eqb table s EmptyString.

(** No two distinct symbols of [syms] have codes one a prefix of the
    other. *)
Definition prefix_free_on (table : list (byte * string)) (syms : list byte) : Prop :=
  forall s1 s2, In s1 syms -> In s2 syms -> s1 <> s2 ->
                ~ is_prefix (code_of table s1) (code_of table s2).

(** The symbols held by the groups of a heap. *)
Definition heap_symbols (heap : list item) : list byte :=
  List.concat (map snd heap).

(** The state of the merge loop of [huffman] over the symbols [symbols]:
    the groups partition the symbols, codes are prefix-free inside each
    group, and a group of two or more symbols has a non-empty code for
    each of them. *)
Record heap_inv (symbols : list byte) (heap : list item)
       (table : list (byte * string)) : Prop := mk_heap_inv {
  inv_nodup : NoDup (heap_symbols heap);
  inv_cover : forall s, In s (heap_symbols heap) <-> In s symbols;
  inv_prefix : forall it, In it heap -> prefix_free_on table (snd it);
  inv_coded : forall it, In it heap -> (2 <= List.length (snd it))%nat ->
                         forall s, In s (snd it) ->
                                   exists c, dict_get Byte.eqb table s = Some c /\ c <> EmptyString;
  inv_keys : forall s c, dict_get Byte.eqb table s = Some c -> In s symbols
}.

(** The body of the first loop of [huffman]. *)
Definition push_symbol (heap : list item) (kv : byte * Z) : list item :=
  let '(symbol, freq) := kv in heappush heap (freq, [symbol]).

(** [x <= y] on heap items. *)
Definition item_le (x y : item) : Prop := item_ltb y x = false.

(** A heap in ascending order. *)
Inductive ascending : list item -> Prop :=
| ascending_nil : ascending []
| ascending_cons (x : item) (heap : list item) :
    (forall y, In y heap -> item_le x y) ->
    ascending heap ->
    ascending (x :: heap).

(** The four bytes of a counter, most significant first. *)
Definition big_endian4 (count : Z) : list byte :=
  [byte_of_Z (count / 16777216); byte_of_Z (count / 65536);
   byte_of_Z (count / 256); byte_of_Z count].

(** A compressed file whose only record is the token [(1, 1, 'B')]:
    the header counts two bytes 00, two bytes 01 and one byte 42, which
    gives the codes "11", "0" and "10"; the payload byte DA = 11011010
    decodes to the record 00 01 00 01 42. *)
Definition file_with_early_backreference : list byte :=
  [x00; x00; x00; x02; x00; x00; x00; x02] ++ repeat x00 256 ++
  [x00; x00; x00; x01] ++ repeat x00 756 ++ [xda].

(** The reading of a short header under which every slot that is not
    wholly present counts as zero: for a file shorter than 1024 bytes,
    decompression gives the empty buffer, the payload is empty, and a
    short or empty 4-byte slice parses as count 0. *)
Definition short_slices_count_zero : Prop :=
  forall data,
    Py.len data < 1024 ->
    decompress_file data = Ok [] /\
    skipn 1024 data = [] /\
    forall b, 0 <= b < 256 ->
              Py.len (Py.slice (firstn 1024 data) (b * 4) ((b + 1) * 4)) < 4 ->
              header_count (firstn 1024 data) b = 0.

(** A table of (symbol, code) pairs that is a prefix code: the symbols
    are pairwise distinct, every code is non-empty, and no code is a
    prefix of the code of another symbol. *)
Definition prefix_code (table : list (byte * string)) : Prop :=
  NoDup (map fst table) /\
  (forall s c, In (s, c) table -> c <> EmptyString) /\
  (forall s1 c1 s2 c2,
      In (s1, c1) table -> In (s2, c2) table -> s1 <> s2 -> ~ is_prefix c1 c2).

(** The two dictionaries of a codec mirror each other and its codes are
    a prefix code. *)
Record codec_prefix_code (self : Codec) : Prop := mk_codec_prefix_code {
  cpc_letter : forall s c, dict_get Byte.eqb (codes self) s = Some c ->
                           dict_get String.eqb (letters self) c = Some s;
  cpc_code : forall c s, dict_get String.eqb (letters self) c = Some s ->
                         dict_get Byte.eqb (codes self) s = Some c;
  cpc_nonempty : forall s c, dict_get Byte.eqb (codes self) s = Some c ->
                             c <> EmptyString;
  cpc_prefix : forall s1 c1 s2 c2,
      dict_get Byte.eqb (codes self) s1 = Some c1 ->
      dict_get Byte.eqb (codes self) s2 = Some c2 ->
      s1 <> s2 -> ~ is_prefix c1 c2
}.

(** The item of [letters] that mirrors an item of [codes]. *)
Definition swap_item (kv : byte * string) : string * byte := (snd kv, fst kv).

(** The fields of a codeword that ['>HHB'] can hold. *)
Definition fits_HHB (cw : Codeword) : Prop :=
  0 <= prefix_start_offset cw <= 65535 /\ 0 <= prefix_len cw <= 65535.

(** The 5-byte record of a codeword. *)
Definition record_of (cw : Codeword) : list byte :=
  [byte_of_Z (prefix_start_offset cw / 256); byte_of_Z (prefix_start_offset cw);
   byte_of_Z (prefix_len cw / 256); byte_of_Z (prefix_len cw); character cw].

(** The number of bytes a codeword adds to the output when it is
    replayed: the copied bytes, if it has a back-reference, and the
    literal. *)
Definition replayed_bytes (cw : Codeword) : Z :=
  (if prefix_start_offset cw >? 0 then Z.max 0 (prefix_len cw) else 0) + 1.

(** The literal-only codeword of a byte. *)
Definition literal (b : byte) : Codeword := mkCodeword 0 0 b.

(** The byte written for eight binary digits. *)
Definition byte_of_digits (c : string) : byte :=
  byte_of_Z (match int2 c with Ok v => v | Raise _ => 0 end).

(** The Kraft sum of the codes of [syms], scaled by [2^depth]:
    the sum of [2^(depth - length of the code)]. *)
Definition kraft_sum (table : list (byte * string)) (depth : Z) (syms : list byte) : Z :=
  fold_right (fun s acc => 2 ^ (depth - Z.of_nat (String.length (code_of table s))) + acc)
             0 syms.

(** Invariants of the merge loop on the shape of the codes: every group
    is non-empty, a code in a group is shorter than the group is large,
    and the codes of a group fill the code space exactly. *)
Definition groups_complete (heap : list item) (table : list (byte * string)) : Prop :=
  forall it, In it heap ->
    snd it <> [] /\
    (forall s, In s (snd it) ->
               (String.length (code_of table s) < List.length (snd it))%nat) /\
    (forall depth,
        (forall s, In s (snd it) -> Z.of_nat (String.length (code_of table s)) <= depth) ->
        kraft_sum table depth (snd it) = 2 ^ depth).

(* ================================================================== *)
(** ** Concrete runs (from test_deflate.py and the scenarios) *)

Definition bytes_of (s : string) : list byte := list_byte_of_string s.

Example test_lz77_compression_0 :
  codeword_for_position 32 (bytes_of "ABABABACABABABAB") 0 = Ok (mkCodeword 0 0 "A"%byte).
Proof. vm_compute. reflexivity. Qed.

Example test_lz77_compression_1 :
  codeword_for_position 32 (bytes_of "ABABABACABABABAB") 1 = Ok (mkCodeword 0 0 "B"%byte).
Proof. vm_compute. reflexivity. Qed.

Example test_lz77_decompression :
  replay [mkCodeword 0 0 "A"%byte; mkCodeword 1 3 "B"%byte; mkCodeword 4 4 "C"%byte]
  = Ok (bytes_of "AAAABAAABC").
Proof. vm_compute. reflexivity. Qed.

Example test_single_byte :
  bind (compress_file (bytes_of "X")) decompress_file = Ok (bytes_of "X").
Proof. vm_compute. reflexivity. Qed.

Example test_codec_roundtrip :
  let codec := update (update (update Codec_init "A"%byte "0") "B"%byte "10") "C"%byte "11" in
  let original := bytes_of "ABCAA" in
  encode codec original = Ok "0101100"%string /\
  decode codec "0101100" = original.
Proof. vm_compute. split; reflexivity. Qed.

Example test_huffman_encoding :
  huffman [("A"%byte, 5); ("B"%byte, 2); ("C"%byte, 1)]
  = Ok [("C"%byte, "00"%string); ("B"%byte, "01"%string); ("A"%byte, "1"%string)].
Proof. vm_compute. reflexivity. Qed.

(* ================================================================== *)
(** * Properties *)

(** ** The monad *)

Lemma bind_Ok_inv {A B : Type} (m : M A) (k : A -> M B) (b : B) :
  bind m k = Ok b -> exists a, m = Ok a /\ k a = Ok b.
Proof.
  destruct m as [a | e]; simpl; intros H.
  - exists a. split; [reflexivity | exact H].
  - discriminate H.
Qed.

Ltac inv_bind H :=
  let a := fresh "v" in
  let Ha := fresh "Hv" in
  apply bind_Ok_inv in H; destruct H as [a [Ha H]].

(** ** Python sequences *)

Lemma len_nonneg {A : Type} (l : list A) : 0 <= Py.len l.
Proof. unfold Py.len. lia. Qed.

Lemma len_app {A : Type} (l1 l2 : list A) : Py.len (l1 ++ l2) = Py.len l1 + Py.len l2.
Proof. unfold Py.len. rewrite length_app. lia. Qed.

Lemma getitem_in_range {A : Type} (l : list A) (i : Z) :
  0 <= i < Py.len l ->
  exists a, Py.getitem l i = Ok a /\ nth_error l (Z.to_nat i) = Some a.
Proof.
  intros Hi. unfold Py.getitem. cbv zeta.
  assert (Hneg : (i <? 0) = false) by (apply Z.ltb_ge; lia).
  assert (Hhi : (Py.len l <=? i) = false) by (apply Z.leb_gt; lia).
  rewrite !Hneg, Hhi. simpl.
  destruct (nth_error l (Z.to_nat i)) as [a |] eqn:Hnth.
  - exists a. split; reflexivity.
  - apply nth_error_None in Hnth. unfold Py.len in Hi. lia.
Qed.

Lemma getitem_nth {A : Type} (l : list A) (i : Z) (a : A) :
  0 <= i -> nth_error l (Z.to_nat i) = Some a -> Py.getitem l i = Ok a.
Proof.
  intros Hi Hnth.
  assert (Hlt : (Z.to_nat i < List.length l)%nat).
  { apply nth_error_Some. rewrite Hnth. discriminate. }
  destruct (getitem_in_range l i) as [a' [Hg Hn]].
  - unfold Py.len. lia.
  - rewrite Hg. congruence.
Qed.

Lemma In_range (a b x : Z) : In x (Py.range a b) <-> a <= x < b.
Proof.
  unfold Py.range. rewrite in_map_iff. split.
  - intros [k [Hk Hin]]. apply in_seq in Hin. lia.
  - intros Hx. exists (Z.to_nat (x - a)). split; [lia |].
    apply in_seq. lia.
Qed.

Lemma range_empty (a b : Z) : b <= a -> Py.range a b = [].
Proof.
  intros H. unfold Py.range.
  replace (Z.to_nat (b - a)) with 0%nat by lia. reflexivity.
Qed.

Lemma range_cons (a b : Z) : a < b -> Py.range a b = a :: Py.range (a + 1) b.
Proof.
  intros H. unfold Py.range.
  replace (Z.to_nat (b - a)) with (S (Z.to_nat (b - (a + 1)))) by lia.
  simpl seq. simpl map. f_equal; [lia |].
  rewrite <- seq_shift, map_map.
  apply map_ext. intros k. lia.
Qed.

(** A split of an ascending range: what precedes [x] is below it. *)
Lemma range_split_before (n : nat) (a b x : Z) (pre post : list Z) :
  Z.to_nat (b - a) = n ->
  Py.range a b = pre ++ x :: post ->
  forall y, a <= y < x -> In y pre.
Proof.
  revert a pre. induction n as [| n IH]; intros a pre Hn Hsplit y Hy.
  - rewrite range_empty in Hsplit by lia. destruct pre; discriminate.
  - rewrite range_cons in Hsplit by lia.
    destruct pre as [| z pre'].
    + simpl in Hsplit. injection Hsplit as Hx _. lia.
    + simpl in Hsplit. injection Hsplit as Hz Hrest. subst z.
      destruct (Z.eq_dec y a) as [-> | Hne]; [left; reflexivity |].
      right. apply (IH (a + 1) pre'); [lia | exact Hrest | lia].
Qed.

(** ** The matcher's inner loop *)

Section MatcherFacts.

Variable W : Z.
Variable buffer : list byte.

Lemma run_length_unique (p o k1 k2 : Z) :
  run_length buffer p o k1 -> run_length buffer p o k2 -> k1 = k2.
Proof.
  intros [H1 [S1 L1]] [H2 [S2 L2]].
  destruct (Z.lt_trichotomy k1 k2) as [Hlt | [Heq | Hgt]].
  - exfalso. apply (L2 k1); [lia | exact S1].
  - exact Heq.
  - exfalso. apply (L1 k2); [lia | exact S2].
Qed.

Lemma match_while_run_length (fuel : nat) (p o cur : Z) :
  1 <= o <= p ->
  0 <= cur < 258 ->
  (Z.to_nat (258 - cur) <= fuel)%nat ->
  (forall j, 0 <= j < cur -> ~ stops_at buffer p o j) ->
  exists k, match_while buffer fuel p (p - o) cur = Ok k /\ run_length buffer p o k.
Proof.
  revert cur. induction fuel as [| fuel IH]; intros cur Ho Hcur Hfuel Hpre.
  - lia.
  - simpl.
    destruct (p + cur <? Py.len buffer) eqn:Hend; simpl.
    2:{ apply Z.ltb_ge in Hend. exists cur. split; [reflexivity |].
        split; [lia |]. split; [left; lia | exact Hpre]. }
    apply Z.ltb_lt in Hend.
    destruct (p - o + cur <? p) eqn:Hoff; simpl.
    2:{ apply Z.ltb_ge in Hoff. exists cur. split; [reflexivity |].
        split; [lia |]. split; [| exact Hpre].
        right; left.
        destruct (Z.eq_dec cur o) as [E | N]; [exact E |].
        exfalso. apply (Hpre o); [lia |]. right; left; reflexivity. }
    apply Z.ltb_lt in Hoff.
    destruct (getitem_in_range buffer (p - o + cur)) as [a [Ga Na]]; [lia |].
    destruct (getitem_in_range buffer (p + cur)) as [b [Gb Nb]]; [lia |].
    rewrite Ga, Gb. simpl.
    destruct (Byte.eqb a b) eqn:Hab.
    + apply Byte.byte_dec_bl in Hab. subst b.
      assert (Hnot : ~ stops_at buffer p o cur).
      { unfold stops_at, byte_at. rewrite Na, Nb.
        intros [H | [H | [H | H]]]; [lia | lia | lia | apply H; reflexivity]. }
      assert (Hpre' : forall j, 0 <= j < cur + 1 -> ~ stops_at buffer p o j).
      { intros j Hj. destruct (Z.eq_dec j cur) as [-> | N]; [exact Hnot |].
        apply Hpre. lia. }
      destruct (cur + 1 >=? 258) eqn:Hcap.
      * exists (cur + 1). split; [reflexivity |].
        split; [lia |]. split; [| exact Hpre'].
        right; right; left.
        apply Z.geb_le in Hcap. lia.
      * assert (cur + 1 < 258).
        { destruct (Z.geb_spec (cur + 1) 258); [discriminate | lia]. }
        apply IH; [exact Ho | lia | lia | exact Hpre'].
    + exists cur. split; [reflexivity |].
      split; [lia |]. split; [| exact Hpre].
      right; right; right. unfold byte_at. rewrite Na, Nb.
      intros E. injection E as E. subst b.
      rewrite (@Byte.byte_dec_lb a a eq_refl) in Hab. discriminate.
Qed.

Lemma current_match_run_length (p o : Z) :
  1 <= o <= p ->
  exists k, current_match buffer p (p - o) = Ok k /\ run_length buffer p o k.
Proof.
  intros Ho. unfold current_match.
  apply match_while_run_length; [exact Ho | lia | simpl; lia | intros j Hj; lia].
Qed.

Lemma offset_loop_spec (p : Z) (offs : list Z) :
  forall L0 o0,
  (forall x, In x offs -> 1 <= x <= p) ->
  exists L o,
    offset_loop buffer offs p L0 o0 = Ok (L, o) /\ L0 <= L /\
    (forall x k, In x offs -> run_length buffer p x k -> k <= L) /\
    ((L = L0 /\ o = o0) \/
     (L0 < L /\ exists pre post,
         offs = pre ++ o :: post /\ run_length buffer p o L /\
         forall x k, In x pre -> run_length buffer p x k -> k < L)).
Proof.
  induction offs as [| x rest IH]; intros L0 o0 Hoffs.
  - exists L0, o0. simpl. split; [reflexivity |]. split; [lia |].
    split; [intros x k [] |]. left. split; reflexivity.
  - simpl.
    assert (Hx : 1 <= x <= p) by (apply Hoffs; left; reflexivity).
    assert (Hrest : forall y, In y rest -> 1 <= y <= p)
      by (intros y Hy; apply Hoffs; right; exact Hy).
    destruct (p - x <? 0) eqn:Hneg; [apply Z.ltb_lt in Hneg; lia |].
    destruct (current_match_run_length p x Hx) as [k [Hk Hrun]].
    rewrite Hk. simpl.
    destruct (k >? L0) eqn:Hcmp.
    + assert (L0 < k) by (apply Z.gtb_lt in Hcmp; lia).
      destruct (IH k x Hrest) as [L [o [Hloop [Hge [Hall Hcase]]]]].
      exists L, o. split; [exact Hloop |]. split; [lia |]. split.
      * intros y j [-> | Hy] Hj.
        -- rewrite (run_length_unique _ _ _ _ Hj Hrun). exact Hge.
        -- apply (Hall y); assumption.
      * right. split; [lia |].
        destruct Hcase as [[-> ->] | [Hlt [pre [post [Hsplit [Hr Hpre]]]]]].
        -- exists [], rest. split; [reflexivity |]. split; [exact Hrun |].
           intros y j [].
        -- exists (x :: pre), post. split; [rewrite Hsplit; reflexivity |].
           split; [exact Hr |].
           intros y j [-> | Hy] Hj.
           ++ rewrite (run_length_unique _ _ _ _ Hj Hrun). exact Hlt.
           ++ apply (Hpre y); assumption.
    + assert (k <= L0).
      { destruct (Z.gtb_spec k L0); [discriminate | lia]. }
      destruct (IH L0 o0 Hrest) as [L [o [Hloop [Hge [Hall Hcase]]]]].
      exists L, o. split; [exact Hloop |]. split; [exact Hge |]. split.
      * intros y j [-> | Hy] Hj.
        -- rewrite (run_length_unique _ _ _ _ Hj Hrun). lia.
        -- apply (Hall y); assumption.
      * destruct Hcase as [[-> ->] | [Hlt [pre [post [Hsplit [Hr Hpre]]]]]].
        -- left. split; reflexivity.
        -- right. split; [exact Hlt |].
           exists (x :: pre), post. split; [rewrite Hsplit; reflexivity |].
           split; [exact Hr |].
           intros y j [-> | Hy] Hj.
           ++ rewrite (run_length_unique _ _ _ _ Hj Hrun). lia.
           ++ apply (Hpre y); assumption.
Qed.

(** What the search of [codeword_for_position] returns. *)
Lemma longest_match_spec (p : Z) :
  exists L o,
    longest_match W buffer p = Ok (L, o) /\ 0 <= L /\
    (forall o' k, 1 <= o' <= Z.min p W -> run_length buffer p o' k -> k <= L) /\
    (0 < L -> 1 <= o <= Z.min p W /\ run_length buffer p o L /\
              forall o' k, 1 <= o' < o -> run_length buffer p o' k -> k < L) /\
    (L = 0 -> o = 0).
Proof.
  unfold longest_match.
  destruct (offset_loop_spec p (Py.range 1 (Z.min p W + 1)) 0 0)
    as [L [o [Hloop [Hge [Hall Hcase]]]]].
  { intros x Hx. apply In_range in Hx. lia. }
  exists L, o. split; [exact Hloop |]. split; [exact Hge |]. split.
  { intros o' k Ho'. apply Hall. apply In_range. lia. }
  destruct Hcase as [[-> ->] | [Hlt [pre [post [Hsplit [Hr Hpre]]]]]].
  - split; [lia | reflexivity].
  - split; [| lia]. intros _.
    assert (Hin : In o (Py.range 1 (Z.min p W + 1))).
    { rewrite Hsplit. apply in_or_app. right; left; reflexivity. }
    apply In_range in Hin. split; [lia |]. split; [exact Hr |].
    intros o' k Ho'. apply Hpre.
    apply (range_split_before _ 1 (Z.min p W + 1) o pre post eq_refl Hsplit). lia.
Qed.

Lemma run_length_bounds (p o L : Z) :
  1 <= o -> run_length buffer p o L ->
  L <= o /\ L <= 258 /\
  forall j, 0 <= j < L ->
    p + j < Py.len buffer /\ byte_at buffer (p - o + j) = byte_at buffer (p + j).
Proof.
  intros Ho [H0 [Hstop Hbefore]].
  split; [| split].
  - destruct (Z.le_gt_cases L o) as [Hle | Hgt]; [exact Hle |].
    exfalso. apply (Hbefore o); [lia |]. right; left; reflexivity.
  - destruct (Z.le_gt_cases L 258) as [Hle | Hgt]; [exact Hle |].
    exfalso. apply (Hbefore 258); [lia |]. right; right; left; reflexivity.
  - intros j Hj. specialize (Hbefore j Hj). unfold stops_at in Hbefore.
    split.
    + destruct (Z.lt_ge_cases (p + j) (Py.len buffer)) as [Hlt | Hge]; [exact Hlt |].
      exfalso. apply Hbefore. left. lia.
    + destruct (byte_at buffer (p - o + j)) as [a |] eqn:Ea;
        destruct (byte_at buffer (p + j)) as [b |] eqn:Eb;
        try reflexivity;
        try (exfalso; apply Hbefore; right; right; right; discriminate).
      destruct (Byte.byte_eq_dec a b) as [-> | Hne]; [reflexivity |].
      exfalso. apply Hbefore. right; right; right. congruence.
Qed.

(** The two shapes of a codeword of [codeword_for_position]. *)
Lemma codeword_for_position_shape (p : Z) (cw : Codeword) :
  codeword_for_position W buffer p = Ok cw ->
  (prefix_start_offset cw = 0 /\ prefix_len cw = 0 /\
   Py.getitem buffer p = Ok (character cw)) \/
  (1 <= prefix_start_offset cw <= Z.min p W /\
   1 <= prefix_len cw <= prefix_start_offset cw /\
   prefix_len cw <= 258 /\
   p + prefix_len cw < Py.len buffer /\
   longest_match W buffer p = Ok (prefix_len cw, prefix_start_offset cw) /\
   byte_at buffer (p + prefix_len cw) = Some (character cw) /\
   forall j, 0 <= j < prefix_len cw ->
     byte_at buffer (p - prefix_start_offset cw + j) = byte_at buffer (p + j)).
Proof.
  unfold codeword_for_position.
  destruct (longest_match_spec p) as [L [o [HL [H0 [_ [Hpos _]]]]]].
  rewrite HL. simpl.
  destruct (L >? 0) eqn:HLpos.
  - assert (0 < L) as HLlt by (apply Z.gtb_lt in HLpos; lia).
    destruct (Hpos HLlt) as [Ho [Hrun _]].
    destruct (run_length_bounds p o L) as [Hlo [Hcap Heq]]; [lia | exact Hrun |].
    destruct (p + L >=? Py.len buffer) eqn:Hnext.
    + intros H. inv_bind H. injection H as <-. left. simpl. auto.
    + assert (Hin : p + L < Py.len buffer).
      { destruct (Z.geb_spec (p + L) (Py.len buffer)); [discriminate | lia]. }
      intros H. inv_bind H. injection H as <-. right. simpl.
      destruct (getitem_in_range buffer (p + L)) as [c [Gc Nc]]; [lia |].
      rewrite Gc in Hv. injection Hv as ->.
      repeat split; try lia; try assumption.
      intros j Hj. apply Heq. exact Hj.
  - intros H. inv_bind H. injection H as <-. left. simpl. auto.
Qed.

Lemma codeword_for_position_total (p : Z) :
  0 <= p < Py.len buffer ->
  exists cw, codeword_for_position W buffer p = Ok cw.
Proof.
  intros Hp. unfold codeword_for_position.
  destruct (longest_match_spec p) as [L [o [HL [H0 _]]]].
  rewrite HL. simpl.
  destruct (getitem_in_range buffer p Hp) as [c [Gc _]].
  destruct (L >? 0) eqn:HLpos.
  - destruct (p + L >=? Py.len buffer) eqn:Hnext.
    + rewrite Gc. simpl. eexists; reflexivity.
    + assert (p + L < Py.len buffer).
      { destruct (Z.geb_spec (p + L) (Py.len buffer)); [discriminate | lia]. }
      destruct (getitem_in_range buffer (p + L)) as [c' [Gc' _]]; [lia |].
      rewrite Gc'. simpl. eexists; reflexivity.
  - rewrite Gc. simpl. eexists; reflexivity.
Qed.

End MatcherFacts.

(** ** The replay engine on well-formed tokens *)

Lemma firstn_snoc (data : list byte) (n : nat) (x : byte) :
  nth_error data n = Some x -> firstn n data ++ [x] = firstn (S n) data.
Proof.
  revert data. induction n as [| n IH]; intros [| y data] H; simpl in *;
    try discriminate.
  - injection H as ->. reflexivity.
  - f_equal. apply IH. exact H.
Qed.

Lemma len_firstn (data : list byte) (n : Z) :
  0 <= n <= Py.len data -> Py.len (firstn (Z.to_nat n) data) = n.
Proof.
  intros H. unfold Py.len in *. rewrite length_firstn. lia.
Qed.

(** Copying bytes that equal the bytes [o] places back rebuilds the data:
    from the first [p + i] bytes of [data] to its first [p + i + n]. *)
Lemma copy_loop_prefix (data : list byte) (p o : Z) (n : nat) :
  forall i,
  1 <= o <= p -> 0 <= i ->
  (forall j, i <= j < i + Z.of_nat n ->
     p + j < Py.len data /\ byte_at data (p - o + j) = byte_at data (p + j)) ->
  copy_loop (Py.range i (i + Z.of_nat n)) (p - o) (firstn (Z.to_nat (p + i)) data)
  = Ok (firstn (Z.to_nat (p + i + Z.of_nat n)) data).
Proof.
  induction n as [| n IH]; intros i Ho Hi Hrun.
  - rewrite range_empty by lia. simpl. do 2 f_equal. lia.
  - replace (Z.of_nat (S n)) with (1 + Z.of_nat n) in * by lia.
    rewrite range_cons by lia. cbn [copy_loop].
    destruct (Hrun i) as [Hin Heq]; [lia |].
    rewrite len_firstn by lia.
    destruct (p - o + i >=? p + i) eqn:Hc.
    { apply Z.geb_le in Hc. lia. }
    destruct (getitem_in_range data (p + i)) as [b [_ Nb]]; [lia |].
    assert (Nsrc : nth_error (firstn (Z.to_nat (p + i)) data) (Z.to_nat (p - o + i)) = Some b).
    { rewrite nth_error_firstn.
      replace (Z.to_nat (p - o + i) <? Z.to_nat (p + i))%nat with true
        by (symmetry; apply Nat.ltb_lt; lia).
      unfold byte_at in Heq. rewrite Heq. exact Nb. }
    rewrite (getitem_nth _ (p - o + i) b); [| lia | exact Nsrc]. unfold bind.
    rewrite (firstn_snoc _ _ _ Nb).
    replace (S (Z.to_nat (p + i))) with (Z.to_nat (p + (i + 1))) by lia.
    replace (i + (1 + Z.of_nat n)) with (i + 1 + Z.of_nat n) by lia.
    rewrite IH; [do 2 f_equal; lia | exact Ho | lia |].
    intros j Hj. apply Hrun. lia.
Qed.

(** Replaying the codeword found at position [p] on the first [p] bytes
    of the data gives the bytes up to the end of the token. *)
Lemma decompress_codeword_prefix (W : Z) (data : list byte) (p : Z) (cw : Codeword) :
  0 <= p < Py.len data ->
  codeword_for_position W data p = Ok cw ->
  0 <= prefix_len cw /\
  p + prefix_len cw < Py.len data /\
  byte_at data (p + prefix_len cw) = Some (character cw) /\
  decompress_codeword (firstn (Z.to_nat p) data) cw
  = Ok (firstn (Z.to_nat (p + prefix_len cw + 1)) data).
Proof.
  intros Hp Hcw.
  destruct (codeword_for_position_shape W data p cw Hcw)
    as [[Ho [Hl Hc]] | [Ho [Hl [Hcap [Hin [_ [Hc Hrun]]]]]]].
  - destruct (getitem_in_range data p Hp) as [c [Gc Nc]].
    rewrite Gc in Hc. injection Hc as Hc.
    rewrite Hl, Z.add_0_r. split; [lia |]. split; [lia |].
    split; [unfold byte_at; congruence |].
    unfold decompress_codeword. rewrite Ho. simpl.
    rewrite <- Hc, (firstn_snoc _ _ _ Nc). do 2 f_equal. lia.
  - split; [lia |]. split; [lia |]. split; [exact Hc |].
    unfold decompress_codeword.
    replace (prefix_start_offset cw >? 0) with true by (symmetry; apply Z.gtb_lt; lia).
    rewrite len_firstn by lia.
    pose proof (copy_loop_prefix data p (prefix_start_offset cw)
                  (Z.to_nat (prefix_len cw)) 0) as Hcopy.
    rewrite Z2Nat.id, !Z.add_0_r, Z.add_0_l in Hcopy by lia.
    rewrite Hcopy.
    + simpl. unfold byte_at in Hc. rewrite (firstn_snoc _ _ _ Hc).
      do 2 f_equal. lia.
    + lia.
    + lia.
    + intros j Hj. split; [lia | apply Hrun; lia].
Qed.

(** ** The generator of [Lz77.compress] *)

Lemma Lz77_run_spec (W : Z) (data : list byte) (fuel : nat) :
  forall p,
  0 <= p <= Py.len data ->
  (Z.to_nat (Py.len data - p) <= fuel)%nat ->
  exists codewords,
    Lz77_run fuel W data p = Ok codewords /\
    covers data p codewords /\
    foldM decompress_codeword codewords (firstn (Z.to_nat p) data) = Ok data /\
    Forall (fun cw => exists q, codeword_for_position W data q = Ok cw) codewords.
Proof.
  induction fuel as [| fuel IH]; intros p Hp Hfuel.
  - assert (p = Py.len data) by lia. subst p.
    exists []. simpl. unfold Lz77_next. rewrite Z.ltb_irrefl. simpl.
    split; [reflexivity |]. split; [constructor |]. split; [| constructor].
    unfold Py.len. rewrite Nat2Z.id, firstn_all. reflexivity.
  - simpl. unfold Lz77_next.
    destruct (p <? Py.len data) eqn:Hlt.
    + apply Z.ltb_lt in Hlt.
      destruct (codeword_for_position_total W data p) as [cw Hcw]; [lia |].
      rewrite Hcw. simpl.
      destruct (decompress_codeword_prefix W data p cw) as [H0 [Hin [Hc Hrep]]];
        [lia | exact Hcw |].
      destruct (IH (p + prefix_len cw + 1)) as [rest [Hrun [Hcov [Hfold Hall]]]];
        [lia | lia |].
      rewrite Hrun. simpl.
      exists (cw :: rest). split; [reflexivity |].
      split; [constructor; assumption |].
      split; [simpl; rewrite Hrep; simpl; exact Hfold |].
      constructor; [exists p; exact Hcw | exact Hall].
    + apply Z.ltb_ge in Hlt. assert (p = Py.len data) by lia. subst p.
      exists []. simpl.
      split; [reflexivity |]. split; [constructor |]. split; [| constructor].
      unfold Py.len. rewrite Nat2Z.id, firstn_all. reflexivity.
Qed.

Lemma Lz77_compress_spec (W : Z) (data : list byte) :
  exists codewords,
    Lz77_compress W data = Ok codewords /\
    covers data 0 codewords /\
    replay codewords = Ok data /\
    Forall (fun cw => exists q, codeword_for_position W data q = Ok cw) codewords.
Proof.
  unfold Lz77_compress, replay.
  destruct (Lz77_run_spec W data (List.length data) 0) as [cws H].
  - pose proof (len_nonneg data). lia.
  - unfold Py.len. lia.
  - exists cws. exact H.
Qed.

(** The loop of [compress_file] that drains the generator collects the
    codewords the generator yields. *)
Lemma collect_loop_run (data : list byte) (fuel : nat) :
  forall p acc,
  0 <= p ->
  collect_loop fuel data p p acc
  = (rest <- Lz77_run fuel 32768 data p ;; Ok (acc ++ rest)).
Proof.
  induction fuel as [| fuel IH]; intros p acc Hp.
  - cbn [collect_loop Lz77_run]. unfold Lz77_next.
    destruct (p <? Py.len data) eqn:Hlt.
    + apply Z.ltb_lt in Hlt.
      destruct (codeword_for_position_total 32768 data p) as [cw Hcw]; [lia |].
      rewrite Hcw. reflexivity.
    + cbn [bind]. rewrite app_nil_r. reflexivity.
  - cbn [collect_loop Lz77_run]. unfold Lz77_next.
    destruct (p <? Py.len data) eqn:Hlt.
    + apply Z.ltb_lt in Hlt.
      destruct (codeword_for_position_total 32768 data p) as [cw Hcw]; [lia |].
      rewrite Hcw. cbn [bind].
      destruct (decompress_codeword_prefix 32768 data p cw) as [H0 _];
        [lia | exact Hcw |].
      rewrite Z.add_assoc, IH by lia.
      destruct (Lz77_run fuel 32768 data (p + prefix_len cw + 1)) as [rest | e];
        [| reflexivity].
      cbn [bind]. rewrite <- app_assoc. reflexivity.
    + cbn [bind]. rewrite app_nil_r. reflexivity.
Qed.

Lemma compress_codewords_generator (data : list byte) :
  compress_codewords data = Lz77_compress 32768 data.
Proof.
  unfold compress_codewords, Lz77_compress.
  rewrite collect_loop_run by lia.
  destruct (Lz77_run (List.length data) 32768 data 0); reflexivity.
Qed.

Lemma len_slice_inside {A : Type} (l : list A) (i n : Z) :
  0 <= i -> 0 <= n -> i + n <= Py.len l -> Py.len (Py.slice l i (i + n)) = n.
Proof.
  intros Hi Hn Hle. unfold Py.slice, Py.len in *.
  rewrite length_firstn, length_skipn. lia.
Qed.

(** With [length <= offset <= len(out)] the byte-by-byte copy is a block
    copy of bytes already in the output. *)
Lemma decompress_codeword_block (out : list byte) (cw : Codeword) :
  1 <= prefix_start_offset cw <= Py.len out ->
  0 <= prefix_len cw <= prefix_start_offset cw ->
  decompress_codeword out cw = Ok (block_copy out cw).
Proof.
  intros Ho Hl. unfold decompress_codeword, block_copy.
  set (o := prefix_start_offset cw) in *. set (L := prefix_len cw) in *.
  set (p := Py.len out) in *.
  replace (o >? 0) with true by (symmetry; apply Z.gtb_lt; lia).
  set (block := Py.slice out (p - o) (p - o + L)).
  assert (Hblock : Py.len block = L) by (apply len_slice_inside; lia).
  assert (Hout : firstn (Z.to_nat p) (out ++ block) = out).
  { unfold p, Py.len. rewrite Nat2Z.id, firstn_app, Nat.sub_diag, firstn_all.
    simpl. apply app_nil_r. }
  pose proof (copy_loop_prefix (out ++ block) p o (Z.to_nat L) 0) as Hcopy.
  rewrite Z2Nat.id, !Z.add_0_r, Z.add_0_l, Hout in Hcopy by lia.
  rewrite Hcopy.
  - simpl. rewrite firstn_all2.
    + rewrite <- app_assoc. reflexivity.
    + pose proof (len_app out block) as Hlen. unfold Py.len in *. lia.
  - lia.
  - lia.
  - intros j Hj. rewrite len_app. split; [lia |].
    unfold byte_at.
    rewrite nth_error_app1 by (unfold p, Py.len in *; lia).
    rewrite nth_error_app2 by (unfold p, Py.len in *; lia).
    unfold block, Py.slice.
    rewrite nth_error_firstn.
    replace (Z.to_nat (p + j) - List.length out <? Z.to_nat (p - o + L - (p - o)))%nat
      with true by (symmetry; apply Nat.ltb_lt; unfold p, Py.len in *; lia).
    rewrite nth_error_skipn. f_equal. unfold p, Py.len in *. lia.
Qed.

(* ================================================================== *)
(** * The matcher and the replay engine (C3, C7, C8, C9) *)

(** C3.  For every byte buffer [data] (and every window size), the
    generator of [Lz77.compress] finishes with a token sequence that
    covers [data] exactly: the first token starts at position 0, each
    token advances the position by [prefix_len + 1] and ends on its
    literal, and the last token ends exactly at the end of the buffer.
    Replaying that sequence through a fresh [Lz77Decompressor]
    reconstructs [data].  With the window of 32768 bytes it is the
    sequence [compress_file] collects. *)
Theorem matcher_covers_and_replay_inverts (W : Z) (data : list byte) :
  exists codewords,
    Lz77_compress W data = Ok codewords /\
    covers data 0 codewords /\
    replay codewords = Ok data /\
    (W = 32768 -> compress_codewords data = Ok codewords).
Proof.
  destruct (Lz77_compress_spec W data) as [cws [Hc [Hcov [Hrep _]]]].
  exists cws. split; [exact Hc |]. split; [exact Hcov |]. split; [exact Hrep |].
  intros ->. rewrite compress_codewords_generator. exact Hc.
Qed.

(** C7.  Whenever the best match found at position [p] has length
    [L > 0] and [p + L] is at or past the end of the buffer, the match is
    discarded: [codeword_for_position] returns the literal-only codeword
    [(0, 0, buffer[p])] and the generator's cursor advances by exactly
    one byte. *)
Theorem match_reaching_end_degrades_to_literal
        (W : Z) (buffer : list byte) (p L o : Z) :
  longest_match W buffer p = Ok (L, o) ->
  0 < L ->
  Py.len buffer <= p + L ->
  exists c,
    0 <= p /\ byte_at buffer p = Some c /\
    codeword_for_position W buffer p = Ok (mkCodeword 0 0 c) /\
    Lz77_next W buffer p = Ok (Some (mkCodeword 0 0 c, p + 1)).
Proof.
  intros Hm HL Hend.
  destruct (longest_match_spec W buffer p) as [L' [o' [Hm' [_ [_ [Hpos _]]]]]].
  rewrite Hm in Hm'. injection Hm' as <- <-.
  destruct (Hpos HL) as [Ho [Hrun _]].
  destruct (run_length_bounds buffer p o L) as [_ [_ Hin]]; [lia | exact Hrun |].
  destruct (Hin 0) as [Hp _]; [lia |]. rewrite Z.add_0_r in Hp.
  destruct (getitem_in_range buffer p) as [c [Gc Nc]]; [lia |].
  exists c. split; [lia |]. split; [exact Nc |].
  assert (Hcw : codeword_for_position W buffer p = Ok (mkCodeword 0 0 c)).
  { unfold codeword_for_position. rewrite Hm. simpl.
    replace (L >? 0) with true by (symmetry; apply Z.gtb_lt; lia).
    replace (p + L >=? Py.len buffer) with true by (symmetry; apply Z.geb_le; lia).
    rewrite Gc. reflexivity. }
  split; [exact Hcw |].
  unfold Lz77_next.
  replace (p <? Py.len buffer) with true by (symmetry; apply Z.ltb_lt; lia).
  rewrite Hcw. simpl. rewrite Z.add_0_r. reflexivity.
Qed.

Lemma match_reaching_end_degrades_to_literal_witness :
  longest_match 32768 (bytes_of "AA") 1 = Ok (1, 1) /\
  0 < 1 /\
  Py.len (bytes_of "AA") <= 1 + 1 /\
  exists c,
    0 <= 1 /\ byte_at (bytes_of "AA") 1 = Some c /\
    codeword_for_position 32768 (bytes_of "AA") 1 = Ok (mkCodeword 0 0 c) /\
    Lz77_next 32768 (bytes_of "AA") 1 = Ok (Some (mkCodeword 0 0 c, 1 + 1)).
Proof.
  assert (Hm : longest_match 32768 (bytes_of "AA") 1 = Ok (1, 1))
    by (vm_compute; reflexivity).
  assert (Hl : 0 < 1) by lia.
  assert (He : Py.len (bytes_of "AA") <= 1 + 1) by (vm_compute; discriminate).
  split; [exact Hm |]. split; [exact Hl |]. split; [exact He |].
  exact (match_reaching_end_degrades_to_literal 32768 (bytes_of "AA") 1 1 1 Hm Hl He).
Defined.

(** The matcher on a buffer with two earlier occurrences of the bytes
    at the cursor: the nearer one is reported, with the byte after the
    match. *)
Example codeword_reports_nearest_match :
  longest_match 32768 (bytes_of "ABXABYABZ") 6 = Ok (2, 3) /\
  codeword_for_position 32768 (bytes_of "ABXABYABZ") 6 = Ok (mkCodeword 3 2 "Z"%byte).
Proof.
  split; vm_compute; reflexivity.
Qed.

(** C8.  At every position [p] the search of [codeword_for_position]
    returns a length [L] and an offset [o] such that: every candidate
    offset in [1 .. min(p, W)] has a run length (the comparison stops at
    the buffer end, at [k = offset] or at 258) and none exceeds [L]; if
    [L > 0] then [o] is a candidate whose run length is [L] and every
    smaller candidate has a strictly shorter run, so [o] is the smallest
    offset of greatest length; if [L = 0] no offset is reported.  This
    [(o, L)] is the match the matcher reports: when [L > 0] and the byte
    after the match, [buffer[p + L]], is inside the buffer, the codeword
    returned is exactly [(o, L, buffer[p + L])]; and a codeword with a
    back-reference never carries another offset or length. *)
Theorem longest_match_is_greatest_with_smallest_offset
        (W : Z) (buffer : list byte) (p : Z) :
  exists L o,
    longest_match W buffer p = Ok (L, o) /\
    (forall o', 1 <= o' <= Z.min p W -> exists k, run_length buffer p o' k /\ k <= L) /\
    (forall o' k, 1 <= o' <= Z.min p W -> run_length buffer p o' k -> k <= L) /\
    (0 < L -> 1 <= o <= Z.min p W /\ run_length buffer p o L /\
              forall o' k, 1 <= o' < o -> run_length buffer p o' k -> k < L) /\
    (L = 0 -> o = 0) /\
    (forall cw, codeword_for_position W buffer p = Ok cw ->
                0 < prefix_start_offset cw ->
                prefix_start_offset cw = o /\ prefix_len cw = L) /\
    (0 < L -> p + L < Py.len buffer ->
     exists c, byte_at buffer (p + L) = Some c /\
               codeword_for_position W buffer p = Ok (mkCodeword o L c)).
Proof.
  destruct (longest_match_spec W buffer p) as [L [o [Hm [H0 [Hall [Hpos Hzero]]]]]].
  exists L, o. split; [exact Hm |]. split; [| split; [exact Hall |]].
  - intros o' Ho'.
    destruct (current_match_run_length buffer p o') as [k [_ Hk]]; [lia |].
    exists k. split; [exact Hk |]. apply (Hall o'); assumption.
  - split; [exact Hpos |]. split; [exact Hzero |]. split.
    + intros cw Hcw Hoff.
      destruct (codeword_for_position_shape W buffer p cw Hcw)
        as [[Ho _] | [_ [_ [_ [_ [Hm' _]]]]]]; [lia |].
      rewrite Hm in Hm'. injection Hm' as -> ->. split; reflexivity.
    + intros HL Hin.
      destruct (Hpos HL) as [Ho _].
      destruct (getitem_in_range buffer (p + L)) as [c [Gc Nc]]; [lia |].
      exists c. split; [exact Nc |].
      unfold codeword_for_position. rewrite Hm. simpl.
      replace (L >? 0) with true by (symmetry; apply Z.gtb_lt; lia).
      replace (p + L >=? Py.len buffer) with false
        by (symmetry; rewrite Z.geb_leb; apply Z.leb_gt; lia).
      rewrite Gc. reflexivity.
Qed.

(** C9.  Every codeword [codeword_for_position] returns with
    [offset > 0] has [1 <= length <= offset]; hence on every token the
    compressor produces, at any output at least [offset] bytes long, the
    replay engine's byte-by-byte copy is a block copy of bytes that were
    in the output before the token: the self-overlapping copy is not
    needed.  (It is reached by other token sequences, such as
    [test_lz77_decompression].) *)
Theorem matcher_tokens_never_overlap (W : Z) (data : list byte) :
  exists codewords,
    Lz77_compress W data = Ok codewords /\
    Forall (fun cw =>
              0 < prefix_start_offset cw ->
              1 <= prefix_len cw <= prefix_start_offset cw /\
              forall out, prefix_start_offset cw <= Py.len out ->
                          decompress_codeword out cw = Ok (block_copy out cw))
           codewords /\
    forall p cw, codeword_for_position W data p = Ok cw ->
                 0 < prefix_start_offset cw ->
                 1 <= prefix_len cw <= prefix_start_offset cw.
Proof.
  assert (Hshape : forall p cw, codeword_for_position W data p = Ok cw ->
                     0 < prefix_start_offset cw ->
                     1 <= prefix_len cw <= prefix_start_offset cw).
  { intros p cw Hcw Hoff.
    destruct (codeword_for_position_shape W data p cw Hcw)
      as [[Ho _] | [_ [Hl _]]]; [lia | exact Hl]. }
  destruct (Lz77_compress_spec W data) as [cws [Hc [_ [_ Hall]]]].
  exists cws. split; [exact Hc |]. split; [| exact Hshape].
  apply Forall_forall. intros cw Hin Hoff.
  rewrite Forall_forall in Hall. destruct (Hall cw Hin) as [q Hq].
  pose proof (Hshape q cw Hq Hoff) as Hl.
  split; [exact Hl |].
  intros out Hout. apply decompress_codeword_block; lia.
Qed.

(* ================================================================== *)
(** * Dictionaries *)

Section DictFacts.

Context {K V : Type}.
Variable eqb : K -> K -> bool.
Hypothesis eqb_true : forall a b, eqb a b = true <-> a = b.

Lemma eqb_same (a : K) : eqb a a = true.
Proof. apply eqb_true. reflexivity. Qed.

Lemma eqb_diff (a b : K) : a <> b -> eqb a b = false.
Proof.
  intros H. destruct (eqb a b) eqn:E; [| reflexivity].
  apply eqb_true in E. contradiction.
Qed.

Lemma dict_get_set_same (d : list (K * V)) (k : K) (v : V) :
  dict_get eqb (dict_set eqb d k v) k = Some v.
Proof.
  induction d as [| [k' v'] d IH]; simpl.
  - rewrite eqb_same. reflexivity.
  - destruct (eqb k' k) eqn:E; simpl; rewrite E; [reflexivity | exact IH].
Qed.

Lemma dict_get_set_other (d : list (K * V)) (k k' : K) (v : V) :
  k <> k' -> dict_get eqb (dict_set eqb d k v) k' = dict_get eqb d k'.
Proof.
  intros Hne. induction d as [| [k0 v0] d IH]; simpl.
  - rewrite eqb_diff by exact Hne. reflexivity.
  - destruct (eqb k0 k) eqn:E; simpl.
    + apply eqb_true in E. subst k0. rewrite eqb_diff by exact Hne.
      reflexivity.
    + destruct (eqb k0 k'); [reflexivity | exact IH].
Qed.

Lemma dict_get_In (d : list (K * V)) (k : K) (v : V) :
  dict_get eqb d k = Some v -> In (k, v) d.
Proof.
  induction d as [| [k' v'] d IH]; simpl; [discriminate |].
  destruct (eqb k' k) eqn:E.
  - apply eqb_true in E. subst k'. intros [= ->]. left; reflexivity.
  - intros H. right. apply IH. exact H.
Qed.

Lemma dict_get_None (d : list (K * V)) (k : K) :
  dict_get eqb d k = None <-> ~ In k (map fst d).
Proof.
  induction d as [| [k' v'] d IH]; simpl.
  - split; [intros _ [] | reflexivity].
  - destruct (eqb k' k) eqn:E.
    + apply eqb_true in E. subst k'. split; [discriminate |].
      intros H. exfalso. apply H. left; reflexivity.
    + rewrite IH. split.
      * intros H [Hk | Hk]; [| exact (H Hk)].
        subst k'. rewrite eqb_same in E. discriminate.
      * intros H Hk. apply H. right; exact Hk.
Qed.

(** In a dictionary (keys pairwise distinct) the items are the lookups. *)
Lemma In_dict_get (d : list (K * V)) (k : K) (v : V) :
  NoDup (map fst d) -> In (k, v) d -> dict_get eqb d k = Some v.
Proof.
  induction d as [| [k' v'] d IH]; simpl; intros Hnd Hin; [contradiction |].
  inversion Hnd as [| ? ? Hnotin Hnd']; subst.
  destruct Hin as [[= -> ->] | Hin].
  - rewrite eqb_same. reflexivity.
  - destruct (eqb k' k) eqn:E.
    + apply eqb_true in E. subst k'. exfalso. apply Hnotin.
      apply (in_map fst) in Hin. exact Hin.
    + apply IH; assumption.
Qed.

(** Setting a key that is absent puts the item last. *)
Lemma dict_set_new (d : list (K * V)) (k : K) (v : V) :
  ~ In k (map fst d) -> dict_set eqb d k v = d ++ [(k, v)].
Proof.
  induction d as [| [k' v'] d IH]; simpl; intros Hnotin; [reflexivity |].
  rewrite eqb_diff by (intros ->; apply Hnotin; left; reflexivity).
  f_equal. apply IH. intros H. apply Hnotin. right; exact H.
Qed.

Lemma dict_set_keys (d : list (K * V)) (k : K) (v : V) (x : K) :
  In x (map fst (dict_set eqb d k v)) <-> x = k \/ In x (map fst d).
Proof.
  induction d as [| [k' v'] d IH]; simpl.
  - split; intros [H | H]; auto; contradiction.
  - destruct (eqb k' k) eqn:E; simpl.
    + apply eqb_true in E. subst k'. intuition.
    + rewrite IH. intuition.
Qed.

Lemma dict_set_NoDup (d : list (K * V)) (k : K) (v : V) :
  NoDup (map fst d) -> NoDup (map fst (dict_set eqb d k v)).
Proof.
  induction d as [| [k' v'] d IH]; simpl; intros Hnd.
  - constructor; [intros [] | constructor].
  - inversion Hnd as [| ? ? Hnotin Hnd']; subst.
    destruct (eqb k' k) eqn:E; simpl.
    + constructor; assumption.
    + constructor; [| apply IH; exact Hnd'].
      rewrite dict_set_keys. intros [-> | H]; [| exact (Hnotin H)].
      rewrite eqb_same in E. discriminate.
Qed.

End DictFacts.

Lemma byte_eqb_true (a b : byte) : Byte.eqb a b = true <-> a = b.
Proof.
  split; [apply Byte.byte_dec_bl | apply Byte.byte_dec_lb].
Qed.

(* ================================================================== *)
(** * The Huffman builder *)

(** ** Prepending a bit to the codes of a group *)

Lemma get_prepend_same (bit : ascii) (table : list (byte * string)) (s : byte) :
  dict_get Byte.eqb (prepend bit table s) s = Some (String bit (code_of table s)).
Proof.
  unfold prepend. apply dict_get_set_same. exact byte_eqb_true.
Qed.

Lemma get_prepend_other (bit : ascii) (table : list (byte * string)) (s s' : byte) :
  s <> s' -> dict_get Byte.eqb (prepend bit table s) s' = dict_get Byte.eqb table s'.
Proof.
  intros H. unfold prepend. apply dict_get_set_other; [exact byte_eqb_true | exact H].
Qed.

Lemma fold_prepend_notin (bit : ascii) (syms : list byte) :
  forall table s, ~ In s syms ->
  dict_get Byte.eqb (fold_left (prepend bit) syms table) s = dict_get Byte.eqb table s.
Proof.
  induction syms as [| x syms IH]; intros table s Hnotin; simpl; [reflexivity |].
  rewrite IH by (intros H; apply Hnotin; right; exact H).
  apply get_prepend_other. intros ->. apply Hnotin. left; reflexivity.
Qed.

Lemma fold_prepend_in (bit : ascii) (syms : list byte) :
  forall table s, NoDup syms -> In s syms ->
  dict_get Byte.eqb (fold_left (prepend bit) syms table) s
  = Some (String bit (code_of table s)).
Proof.
  induction syms as [| x syms IH]; intros table s Hnd Hin; simpl; [contradiction |].
  inversion Hnd as [| ? ? Hnotin Hnd']; subst.
  destruct (Byte.byte_eq_dec x s) as [-> | Hne].
  - rewrite fold_prepend_notin by exact Hnotin. apply get_prepend_same.
  - destruct Hin as [-> | Hin]; [contradiction Hne; reflexivity |].
    rewrite IH by assumption.
    unfold code_of, dict_get_default. rewrite get_prepend_other by exact Hne.
    reflexivity.
Qed.

(** ** The heap as a collection *)

Lemma heappush_In (heap : list item) (x it : item) :
  In it (heappush heap x) <-> it = x \/ In it heap.
Proof.
  induction heap as [| y heap IH]; simpl.
  - intuition.
  - destruct (item_ltb x y); simpl; [intuition |].
    rewrite IH. intuition.
Qed.

Lemma heappush_length (heap : list item) (x : item) :
  List.length (heappush heap x) = S (List.length heap).
Proof.
  induction heap as [| y heap IH]; simpl; [reflexivity |].
  destruct (item_ltb x y); simpl; [reflexivity | rewrite IH; reflexivity].
Qed.

Lemma heappush_Permutation (heap : list item) (x : item) :
  Permutation (heappush heap x) (x :: heap).
Proof.
  induction heap as [| y heap IH]; simpl; [apply Permutation_refl |].
  destruct (item_ltb x y); [apply Permutation_refl |].
  apply Permutation_trans with (y :: x :: heap).
  - apply perm_skip. exact IH.
  - apply perm_swap.
Qed.

Lemma heap_symbols_Permutation (h1 h2 : list item) :
  Permutation h1 h2 -> Permutation (heap_symbols h1) (heap_symbols h2).
Proof.
  unfold heap_symbols. intros H. induction H as [| x l l' _ IH | x y l | l l' l'' _ IH1 _ IH2].
  - apply Permutation_refl.
  - simpl. apply Permutation_app_head. exact IH.
  - simpl. rewrite !app_assoc. apply Permutation_app_tail. apply Permutation_app_comm.
  - apply Permutation_trans with (List.concat (map snd l')); assumption.
Qed.

Lemma In_heap_symbols (heap : list item) (it : item) (s : byte) :
  In it heap -> In s (snd it) -> In s (heap_symbols heap).
Proof.
  intros Hit Hs. unfold heap_symbols. apply in_concat.
  exists (snd it). split; [apply in_map; exact Hit | exact Hs].
Qed.

(** ** Prefixes *)

Lemma is_prefix_cons (b : ascii) (c1 c2 : string) :
  is_prefix (String b c1) (String b c2) -> is_prefix c1 c2.
Proof.
  intros [rest H]. simpl in H. injection H as H. exists rest. exact H.
Qed.

Lemma is_prefix_head (b1 b2 : ascii) (c1 c2 : string) :
  is_prefix (String b1 c1) (String b2 c2) -> b1 = b2.
Proof.
  intros [rest H]. simpl in H. injection H as H _. symmetry. exact H.
Qed.

Lemma is_prefix_refl (c : string) : is_prefix c c.
Proof.
  exists EmptyString. induction c as [| a c IH]; simpl; [reflexivity |].
  f_equal. exact IH.
Qed.

Lemma NoDup_app_disjoint {A : Type} (l1 l2 : list A) :
  NoDup (l1 ++ l2) -> forall x, In x l1 -> ~ In x l2.
Proof.
  induction l1 as [| a l1 IH]; simpl; intros Hnd x Hin; [contradiction |].
  inversion Hnd as [| ? ? Hnotin Hnd']; subst.
  destruct Hin as [-> | Hin].
  - intros H2. apply Hnotin. apply in_or_app. right; exact H2.
  - apply IH; assumption.
Qed.

(** ** One merge of the loop keeps the invariant *)

Lemma merge_step_inv (symbols : list byte) (f1 f2 : Z) (g1 g2 : list byte)
      (rest : list item) (table : list (byte * string)) :
  heap_inv symbols ((f1, g1) :: (f2, g2) :: rest) table ->
  heap_inv symbols (heappush rest (f1 + f2, g1 ++ g2))
           (fold_left (prepend "1") g2 (fold_left (prepend "0") g1 table)).
Proof.
  intros [Hnd Hcover Hprefix Hcoded Hkeys].
  unfold heap_symbols in Hnd, Hcover. simpl in Hnd, Hcover.
  fold (heap_symbols rest) in Hnd, Hcover.
  set (t1 := fold_left (prepend "0") g1 table).
  set (t2 := fold_left (prepend "1") g2 t1).
  (* the groups are duplicate-free and apart *)
  assert (Hnd1 : NoDup g1) by (apply NoDup_app_remove_r in Hnd; exact Hnd).
  assert (Hnd23 : NoDup (g2 ++ heap_symbols rest))
    by (apply NoDup_app_remove_l in Hnd; exact Hnd).
  assert (Hnd2 : NoDup g2) by (apply NoDup_app_remove_r in Hnd23; exact Hnd23).
  assert (H12 : forall s, In s g1 -> ~ In s g2).
  { intros s H1 H2. apply (NoDup_app_disjoint _ _ Hnd s H1).
    apply in_or_app. left; exact H2. }
  assert (H1r : forall s, In s g1 -> ~ In s (heap_symbols rest)).
  { intros s H1 H2. apply (NoDup_app_disjoint _ _ Hnd s H1).
    apply in_or_app. right; exact H2. }
  assert (H2r : forall s, In s g2 -> ~ In s (heap_symbols rest)).
  { intros s H1 H2. exact (NoDup_app_disjoint _ _ Hnd23 s H1 H2). }
  (* the codes after the merge *)
  assert (G1 : forall s, In s g1 ->
             dict_get Byte.eqb t2 s = Some (String "0" (code_of table s))).
  { intros s Hs. unfold t2. rewrite fold_prepend_notin by (apply H12; exact Hs).
    unfold t1. apply fold_prepend_in; assumption. }
  assert (G2 : forall s, In s g2 ->
             dict_get Byte.eqb t2 s = Some (String "1" (code_of table s))).
  { intros s Hs. unfold t2. rewrite fold_prepend_in by assumption.
    unfold code_of, dict_get_default, t1.
    rewrite fold_prepend_notin; [reflexivity |].
    intros H1. exact (H12 s H1 Hs). }
  assert (G3 : forall s, ~ In s g1 -> ~ In s g2 ->
             dict_get Byte.eqb t2 s = dict_get Byte.eqb table s).
  { intros s N1 N2. unfold t2, t1. rewrite !fold_prepend_notin by assumption.
    reflexivity. }
  assert (C1 : forall s, In s g1 -> code_of t2 s = String "0" (code_of table s)).
  { intros s Hs. unfold code_of at 1. unfold dict_get_default. rewrite G1 by exact Hs.
    reflexivity. }
  assert (C2 : forall s, In s g2 -> code_of t2 s = String "1" (code_of table s)).
  { intros s Hs. unfold code_of at 1. unfold dict_get_default. rewrite G2 by exact Hs.
    reflexivity. }
  assert (C3 : forall s, In s (heap_symbols rest) -> code_of t2 s = code_of table s).
  { intros s Hs. unfold code_of, dict_get_default. rewrite G3; [reflexivity | |].
    - intros H1. exact (H1r s H1 Hs).
    - intros H2. exact (H2r s H2 Hs). }
  assert (Hperm : Permutation (heap_symbols (heappush rest (f1 + f2, g1 ++ g2)))
                              (g1 ++ g2 ++ heap_symbols rest)).
  { apply Permutation_trans with (heap_symbols ((f1 + f2, g1 ++ g2) :: rest)).
    - apply heap_symbols_Permutation, heappush_Permutation.
    - unfold heap_symbols. simpl. rewrite <- app_assoc. apply Permutation_refl. }
  constructor.
  - apply (Permutation_NoDup (Permutation_sym Hperm)). exact Hnd.
  - intros s. rewrite <- Hcover. split; intros H.
    + apply (Permutation_in s Hperm). exact H.
    + apply (Permutation_in s (Permutation_sym Hperm)). exact H.
  - intros it Hit. apply heappush_In in Hit. destruct Hit as [-> | Hit].
    + simpl. intros s1 s2 H1 H2 Hne Hpre.
      apply in_app_or in H1. apply in_app_or in H2.
      destruct H1 as [H1 | H1]; destruct H2 as [H2 | H2].
      * rewrite (C1 s1 H1), (C1 s2 H2) in Hpre. apply is_prefix_cons in Hpre.
        apply (Hprefix (f1, g1) (or_introl eq_refl) s1 s2 H1 H2 Hne Hpre).
      * rewrite (C1 s1 H1), (C2 s2 H2) in Hpre. apply is_prefix_head in Hpre.
        discriminate Hpre.
      * rewrite (C2 s1 H1), (C1 s2 H2) in Hpre. apply is_prefix_head in Hpre.
        discriminate Hpre.
      * rewrite (C2 s1 H1), (C2 s2 H2) in Hpre. apply is_prefix_cons in Hpre.
        apply (Hprefix (f2, g2) (or_intror (or_introl eq_refl)) s1 s2 H1 H2 Hne Hpre).
    + intros s1 s2 H1 H2 Hne Hpre.
      rewrite (C3 s1 (In_heap_symbols rest it s1 Hit H1)) in Hpre.
      rewrite (C3 s2 (In_heap_symbols rest it s2 Hit H2)) in Hpre.
      apply (Hprefix it (or_intror (or_intror Hit)) s1 s2 H1 H2 Hne Hpre).
  - intros it Hit Hlen s Hs. apply heappush_In in Hit. destruct Hit as [-> | Hit].
    + simpl in Hs. apply in_app_or in Hs. destruct Hs as [Hs | Hs].
      * eexists. split; [apply G1; exact Hs | discriminate].
      * eexists. split; [apply G2; exact Hs | discriminate].
    + pose proof (In_heap_symbols rest it s Hit Hs) as Hr.
      rewrite G3.
      * apply (Hcoded it (or_intror (or_intror Hit)) Hlen s Hs).
      * intros H1. exact (H1r s H1 Hr).
      * intros H2. exact (H2r s H2 Hr).
  - intros s c Hget.
    destruct (in_dec Byte.byte_eq_dec s g1) as [H1 | N1].
    { apply Hcover. apply in_or_app. left; exact H1. }
    destruct (in_dec Byte.byte_eq_dec s g2) as [H2 | N2].
    { apply Hcover. apply in_or_app. right. apply in_or_app. left; exact H2. }
    rewrite G3 in Hget by assumption. apply (Hkeys s c Hget).
Qed.

(** ** The merge loop *)

Lemma len_two_or_more {A : Type} (a b : A) (rest : list A) :
  (Py.len (a :: b :: rest) >? 1) = true.
Proof.
  apply Z.gtb_lt. unfold Py.len. simpl List.length. lia.
Qed.

Lemma huffman_while_total (fuel : nat) :
  forall heap table,
  (List.length heap <= S fuel)%nat ->
  exists table', huffman_while fuel heap table = Ok table'.
Proof.
  induction fuel as [| fuel IH]; intros heap table Hlen.
  - destruct heap as [| a [| b rest]]; simpl in *; try (eexists; reflexivity). lia.
  - destruct heap as [| [f1 g1] [| [f2 g2] rest]]; try (eexists; reflexivity).
    cbn [huffman_while].
    rewrite len_two_or_more. cbn [heappop bind].
    apply IH. rewrite heappush_length. simpl in Hlen. lia.
Qed.

Lemma huffman_while_inv (symbols : list byte) (fuel : nat) :
  forall heap table table',
  huffman_while fuel heap table = Ok table' ->
  heap_inv symbols heap table ->
  exists heap',
    heap_inv symbols heap' table' /\
    (List.length heap' <= 1)%nat /\
    (heap <> [] -> heap' <> []) /\
    ((List.length heap <= 1)%nat -> table' = table).
Proof.
  induction fuel as [| fuel IH]; intros heap table table' Hrun Hinv.
  - destruct heap as [| a [| b rest]]; simpl in Hrun.
    + injection Hrun as <-. exists []. simpl. auto.
    + injection Hrun as <-. exists [a]. simpl. auto.
    + rewrite len_two_or_more in Hrun. discriminate Hrun.
  - destruct heap as [| [f1 g1] [| [f2 g2] rest]].
    + injection Hrun as <-. exists []. simpl. auto.
    + injection Hrun as <-. exists [(f1, g1)]. simpl. auto.
    + cbn [huffman_while] in Hrun. rewrite len_two_or_more in Hrun.
      cbn [heappop bind] in Hrun.
      destruct (IH _ _ _ Hrun (merge_step_inv _ _ _ _ _ _ _ Hinv))
        as [heap' [Hinv' [Hlen' [Hne' _]]]].
      exists heap'. split; [exact Hinv' |]. split; [exact Hlen' |]. split.
      * intros _. apply Hne'. intros E.
        pose proof (heappush_length rest (f1 + f2, g1 ++ g2)) as Hl.
        rewrite E in Hl. discriminate Hl.
      * simpl. lia.
Qed.

(** ** The initial heap *)

Lemma initial_heap_spec (frequencies : list (byte * Z)) :
  forall acc,
  let heap := fold_left push_symbol frequencies acc in
  Permutation heap (map (fun kv => (snd kv, [fst kv])) frequencies ++ acc).
Proof.
  induction frequencies as [| [s f] frequencies IH]; intros acc; simpl.
  - apply Permutation_refl.
  - eapply Permutation_trans; [apply IH |].
    apply Permutation_trans with
      (map (fun kv => (snd kv, [fst kv])) frequencies ++ (f, [s]) :: acc).
    + apply Permutation_app_head. apply heappush_Permutation.
    + apply Permutation_sym. apply Permutation_middle.
Qed.

Lemma singleton_groups_symbols (frequencies : list (byte * Z)) :
  heap_symbols (map (fun kv => (snd kv, [fst kv])) frequencies) = map fst frequencies.
Proof.
  unfold heap_symbols. induction frequencies as [| [s f] l IH]; simpl; [reflexivity |].
  f_equal. exact IH.
Qed.

Lemma initial_heap_inv (frequencies : list (byte * Z)) :
  NoDup (map fst frequencies) ->
  heap_inv (map fst frequencies) (fold_left push_symbol frequencies []) [].
Proof.
  intros Hnd.
  pose proof (initial_heap_spec frequencies []) as Hperm. simpl in Hperm.
  rewrite app_nil_r in Hperm.
  pose proof (heap_symbols_Permutation _ _ Hperm) as Hsym.
  rewrite singleton_groups_symbols in Hsym.
  assert (Hsingle : forall it, In it (fold_left push_symbol frequencies []) ->
                               exists s, snd it = [s]).
  { intros it Hit. apply (Permutation_in it Hperm) in Hit.
    apply in_map_iff in Hit. destruct Hit as [[s f] [<- _]]. exists s. reflexivity. }
  constructor.
  - apply (Permutation_NoDup (Permutation_sym Hsym)). exact Hnd.
  - intros s. split; intros H.
    + apply (Permutation_in s Hsym). exact H.
    + apply (Permutation_in s (Permutation_sym Hsym)). exact H.
  - intros it Hit. destruct (Hsingle it Hit) as [s ->].
    intros s1 s2 [<- | []] [<- | []] Hne. contradiction Hne. reflexivity.
  - intros it Hit Hlen. destruct (Hsingle it Hit) as [s Hs]. rewrite Hs in Hlen.
    simpl in Hlen. lia.
  - intros s c H. discriminate H.
Qed.

Lemma huffman_unfold (frequencies : list (byte * Z)) :
  huffman frequencies
  = (table <- huffman_while (List.length (fold_left push_symbol frequencies []))
                            (fold_left push_symbol frequencies []) [] ;;
     match frequencies with
     | [(symbol, _)] => Ok (dict_set Byte.eqb table symbol "0"%string)
     | _ => Ok table
     end).
Proof.
  unfold huffman.
  replace (fold_left (fun heap '(symbol, freq) => heappush heap (freq, [symbol])) frequencies [])
    with (fold_left push_symbol frequencies []); [reflexivity |].
  unfold push_symbol. reflexivity.
Qed.

(** [huffman] returns on every frequency table. *)
Lemma huffman_total (frequencies : list (byte * Z)) :
  exists table, huffman frequencies = Ok table.
Proof.
  rewrite huffman_unfold.
  destruct (huffman_while_total
              (List.length (fold_left push_symbol frequencies []))
              (fold_left push_symbol frequencies []) []) as [t Ht]; [lia |].
  rewrite Ht. simpl.
  destruct frequencies as [| [s f] [| kv rest]]; eexists; reflexivity.
Qed.

(** ** The codes are bit strings *)

Lemma prepend_bits (bit : ascii) (table : list (byte * string)) (s : byte) :
  (Ascii.eqb bit "0" || Ascii.eqb bit "1") = true ->
  bits_table table -> bits_table (prepend bit table s).
Proof.
  intros Hbit Htable k c.
  destruct (Byte.byte_eq_dec s k) as [<- | Hne].
  - rewrite get_prepend_same. intros [= <-]. cbn [is_bits]. rewrite Hbit.
    unfold code_of, dict_get_default.
    destruct (dict_get Byte.eqb table s) as [c0 |] eqn:E; [| reflexivity].
    exact (Htable s c0 E).
  - rewrite get_prepend_other by exact Hne. apply Htable.
Qed.

Lemma fold_prepend_bits (bit : ascii) (syms : list byte) :
  (Ascii.eqb bit "0" || Ascii.eqb bit "1") = true ->
  forall table, bits_table table -> bits_table (fold_left (prepend bit) syms table).
Proof.
  intros Hbit. induction syms as [| s syms IH]; intros table Htable; [exact Htable |].
  cbn [fold_left]. apply IH. apply prepend_bits; assumption.
Qed.

Lemma huffman_while_bits (fuel : nat) :
  forall heap table table',
  huffman_while fuel heap table = Ok table' ->
  bits_table table -> bits_table table'.
Proof.
  induction fuel as [| fuel IH]; intros heap table table' Hrun Htable.
  - destruct heap as [| a [| b rest]]; simpl in Hrun;
      try (injection Hrun as <-; exact Htable).
    rewrite len_two_or_more in Hrun. discriminate Hrun.
  - destruct heap as [| [f1 g1] [| [f2 g2] rest]];
      try (injection Hrun as <-; exact Htable).
    cbn [huffman_while] in Hrun. rewrite len_two_or_more in Hrun.
    cbn [heappop bind] in Hrun.
    apply (IH _ _ _ Hrun).
    apply fold_prepend_bits; [reflexivity |].
    apply fold_prepend_bits; [reflexivity | exact Htable].
Qed.

Lemma huffman_bits (frequencies : list (byte * Z)) (table : list (byte * string)) :
  huffman frequencies = Ok table -> bits_table table.
Proof.
  rewrite huffman_unfold. intros H. inv_bind H.
  assert (Hv' : bits_table v).
  { apply (huffman_while_bits _ _ _ _ Hv). intros s c Hc. discriminate Hc. }
  assert (Hset : forall symbol, bits_table (dict_set Byte.eqb v symbol "0"%string)).
  { intros symbol k c. destruct (Byte.byte_eq_dec symbol k) as [<- | Hne].
    - rewrite dict_get_set_same by exact byte_eqb_true. intros [= <-]. reflexivity.
    - rewrite dict_get_set_other by (exact byte_eqb_true || exact Hne). apply Hv'. }
  destruct frequencies as [| [s f] [| kv rest]]; injection H as <-;
    [exact Hv' | apply Hset | exact Hv'].
Qed.

(** ** The table [huffman] returns *)

Lemma huffman_table_spec (frequencies : list (byte * Z)) :
  frequencies <> [] ->
  NoDup (map fst frequencies) ->
  exists table,
    huffman frequencies = Ok table /\
    (forall s, In s (map fst frequencies) ->
               exists c, dict_get Byte.eqb table s = Some c) /\
    (forall s c, dict_get Byte.eqb table s = Some c ->
                 In s (map fst frequencies) /\ c <> EmptyString) /\
    (forall s1 s2 c1 c2,
        s1 <> s2 ->
        dict_get Byte.eqb table s1 = Some c1 ->
        dict_get Byte.eqb table s2 = Some c2 ->
        ~ is_prefix c1 c2).
Proof.
  intros Hne Hnd.
  destruct frequencies as [| [s f] [| kv2 rest]]; [contradiction Hne; reflexivity | |].
  - (* one symbol *)
    exists [(s, "0"%string)]. split; [reflexivity |].
    split; [| split].
    + intros s' [<- | []]. exists "0"%string. simpl.
      rewrite (@Byte.byte_dec_lb s s eq_refl). reflexivity.
    + intros s' c. simpl. destruct (Byte.eqb s s') eqn:E; [| discriminate].
      apply Byte.byte_dec_bl in E. intros [= <-]. split; [left; exact E | discriminate].
    + intros s1 s2 c1 c2 Hdiff. simpl.
      destruct (Byte.eqb s s1) eqn:E1; [| discriminate].
      destruct (Byte.eqb s s2) eqn:E2; [| discriminate].
      apply Byte.byte_dec_bl in E1, E2. congruence.
  - (* two symbols or more *)
    set (frequencies := (s, f) :: kv2 :: rest) in *.
    destruct (huffman_total frequencies) as [table Htable].
    exists table. split; [exact Htable |].
    rewrite huffman_unfold in Htable. inv_bind Htable.
    unfold frequencies in Htable at 1. injection Htable as ->.
    destruct (huffman_while_inv (map fst frequencies) _ _ _ _ Hv
                (initial_heap_inv frequencies Hnd))
      as [heap' [[Hnd' Hcover Hprefix Hcoded Hkeys] [Hlen [Hnonempty _]]]].
    assert (Hstart : fold_left push_symbol frequencies [] <> []).
    { intros E. pose proof (initial_heap_spec frequencies []) as Hp. cbv zeta in Hp.
      rewrite E in Hp. apply Permutation_nil in Hp. discriminate Hp. }
    specialize (Hnonempty Hstart).
    destruct heap' as [| it [| it2 heap'']];
      [contradiction Hnonempty; reflexivity | | simpl in Hlen; lia].
    unfold heap_symbols in Hcover, Hnd'. simpl in Hcover, Hnd'.
    rewrite app_nil_r in Hcover, Hnd'.
    assert (Hsize : (2 <= List.length (snd it))%nat).
    { assert (Hincl : incl (map fst frequencies) (snd it))
        by (intros x Hx; apply Hcover; exact Hx).
      pose proof (NoDup_incl_length Hnd Hincl) as Hl.
      unfold frequencies in Hl. simpl in Hl. lia. }
    assert (Hcode : forall s0 c, dict_get Byte.eqb table s0 = Some c -> code_of table s0 = c).
    { intros s0 c H. unfold code_of, dict_get_default. rewrite H. reflexivity. }
    split; [| split].
    + intros s0 Hs0. apply Hcover in Hs0.
      destruct (Hcoded it (or_introl eq_refl) Hsize s0 Hs0) as [c [Hc _]].
      exists c. exact Hc.
    + intros s0 c Hc. pose proof (Hkeys s0 c Hc) as Hin. split; [exact Hin |].
      apply Hcover in Hin.
      destruct (Hcoded it (or_introl eq_refl) Hsize s0 Hin) as [c' [Hc' Hnz]].
      congruence.
    + intros s1 s2 c1 c2 Hdiff H1 H2 Hpre.
      apply (Hprefix it (or_introl eq_refl) s1 s2).
      * apply Hcover. exact (Hkeys s1 c1 H1).
      * apply Hcover. exact (Hkeys s2 c2 H2).
      * exact Hdiff.
      * rewrite (Hcode s1 c1 H1), (Hcode s2 c2 H2). exact Hpre.
Qed.

(* ================================================================== *)
(** * The Huffman code table (C4) *)

(** C4.  For every non-empty frequency mapping (a [dict]: its keys are
    pairwise distinct; the frequencies may be any integers, positive ones
    in particular), [huffman] returns a table that has a code for every
    symbol of the mapping and for no other symbol, every code in it is a
    non-empty string of the digits 0 and 1, and no code is a prefix of
    the code of another symbol; in particular the codes are pairwise
    distinct. *)
Theorem huffman_codes_prefix_free (frequencies : list (byte * Z)) :
  frequencies <> [] ->
  NoDup (map fst frequencies) ->
  exists table,
    huffman frequencies = Ok table /\
    (forall s, In s (map fst frequencies) ->
               exists c, dict_get Byte.eqb table s = Some c) /\
    (forall s c, dict_get Byte.eqb table s = Some c ->
                 In s (map fst frequencies) /\ c <> EmptyString /\ is_bits c = true) /\
    (forall s1 s2 c1 c2,
        s1 <> s2 ->
        dict_get Byte.eqb table s1 = Some c1 ->
        dict_get Byte.eqb table s2 = Some c2 ->
        ~ is_prefix c1 c2 /\ c1 <> c2).
Proof.
  intros Hne Hnd.
  destruct (huffman_table_spec frequencies Hne Hnd) as [table [Ht [Hall [Hnz Hpf]]]].
  exists table. split; [exact Ht |]. split; [exact Hall |]. split.
  { intros s c Hc. destruct (Hnz s c Hc) as [Hin Hc0].
    split; [exact Hin |]. split; [exact Hc0 |].
    exact (huffman_bits frequencies table Ht s c Hc). }
  intros s1 s2 c1 c2 Hdiff H1 H2.
  pose proof (Hpf s1 s2 c1 c2 Hdiff H1 H2) as Hnp.
  split; [exact Hnp |].
  intros ->. apply Hnp. apply is_prefix_refl.
Qed.

Lemma huffman_codes_prefix_free_witness :
  let frequencies := [("A"%byte, 5); ("B"%byte, 2); ("C"%byte, 1)] in
  frequencies <> [] /\
  NoDup (map fst frequencies) /\
  exists table,
    huffman frequencies = Ok table /\
    (forall s, In s (map fst frequencies) ->
               exists c, dict_get Byte.eqb table s = Some c) /\
    (forall s c, dict_get Byte.eqb table s = Some c ->
                 In s (map fst frequencies) /\ c <> EmptyString /\ is_bits c = true) /\
    (forall s1 s2 c1 c2,
        s1 <> s2 ->
        dict_get Byte.eqb table s1 = Some c1 ->
        dict_get Byte.eqb table s2 = Some c2 ->
        ~ is_prefix c1 c2 /\ c1 <> c2).
Proof.
  assert (Hne : [("A"%byte, 5); ("B"%byte, 2); ("C"%byte, 1)] <> [])
    by discriminate.
  assert (Hnd : NoDup (map fst [("A"%byte, 5); ("B"%byte, 2); ("C"%byte, 1)])).
  { simpl. repeat constructor; simpl; intuition discriminate. }
  split; [exact Hne |]. split; [exact Hnd |].
  exact (huffman_codes_prefix_free _ Hne Hnd).
Defined.

(* ================================================================== *)
(** * The order of heap items *)

Lemma byte_to_Z_inj (a b : byte) : byte_to_Z a = byte_to_Z b -> a = b.
Proof.
  unfold byte_to_Z. intros H. apply N2Z.inj in H.
  pose proof (Byte.of_to_N a) as Ha. rewrite H, Byte.of_to_N in Ha.
  injection Ha as Ha. symmetry. exact Ha.
Qed.

Lemma byte_eqb_false (a b : byte) :
  Byte.eqb a b = false -> byte_to_Z a <> byte_to_Z b.
Proof.
  intros H E. apply byte_to_Z_inj in E. subst b.
  rewrite (@Byte.byte_dec_lb a a eq_refl) in H. discriminate H.
Qed.

(** Resolve the comparison of the two head symbols. *)
Ltac heads x y :=
  let E := fresh "E" in
  destruct (Byte.eqb x y) eqn:E;
  [apply Byte.byte_dec_bl in E; try subst | apply byte_eqb_false in E].

Ltac head_cases :=
  repeat match goal with
         | |- context [Byte.eqb ?x ?y] => heads x y
         end.

Ltac order_finish :=
  intros;
  repeat match goal with
         | H : (_ <? _) = false |- _ => apply Z.ltb_ge in H
         | H : (_ <? _) = true |- _ => apply Z.ltb_lt in H
         end;
  try apply Z.ltb_ge; try congruence; try lia.

Lemma syms_ltb_asym (a : list byte) :
  forall b, syms_ltb a b = true -> syms_ltb b a = false.
Proof.
  induction a as [| x a IH]; intros [| y b]; simpl; try congruence.
  head_cases; try (apply IH); order_finish.
Qed.

Lemma syms_ltb_connected (a : list byte) :
  forall b, syms_ltb a b = false -> syms_ltb b a = false -> a = b.
Proof.
  induction a as [| x a IH]; intros [| y b]; simpl; try congruence.
  head_cases; order_finish.
  f_equal. apply IH; assumption.
Qed.

(** [a <= b] and [b <= c] give [a <= c], with [x <= y] read as "not
    [y < x]". *)
Lemma syms_leb_trans (a : list byte) :
  forall b c, syms_ltb b a = false -> syms_ltb c b = false -> syms_ltb c a = false.
Proof.
  induction a as [| x a IH]; intros [| y b] [| z c]; simpl; try congruence.
  head_cases; try (apply IH); order_finish.
Qed.

Lemma item_ltb_asym (a b : item) : item_ltb a b = true -> item_le a b.
Proof.
  unfold item_le, item_ltb. destruct a as [fa sa], b as [fb sb]. simpl.
  destruct (fa =? fb) eqn:E.
  - apply Z.eqb_eq in E. subst fb. rewrite Z.eqb_refl. apply syms_ltb_asym.
  - apply Z.eqb_neq in E. intros H. apply Z.ltb_lt in H.
    replace (fb =? fa) with false by (symmetry; apply Z.eqb_neq; lia).
    apply Z.ltb_ge. lia.
Qed.

Lemma item_le_antisym (a b : item) : item_le a b -> item_le b a -> a = b.
Proof.
  unfold item_le, item_ltb. destruct a as [fa sa], b as [fb sb]. simpl.
  destruct (fb =? fa) eqn:E.
  - apply Z.eqb_eq in E. subst fb. rewrite Z.eqb_refl. intros H1 H2.
    f_equal. apply syms_ltb_connected; assumption.
  - apply Z.eqb_neq in E.
    replace (fa =? fb) with false by (symmetry; apply Z.eqb_neq; lia).
    intros H1 H2. apply Z.ltb_ge in H1, H2. lia.
Qed.

Lemma item_le_trans (a b c : item) : item_le a b -> item_le b c -> item_le a c.
Proof.
  unfold item_le, item_ltb. destruct a as [fa sa], b as [fb sb], c as [fc sc]. simpl.
  destruct (Z.eqb_spec fb fa) as [E1 | E1];
    destruct (Z.eqb_spec fc fb) as [E2 | E2];
    destruct (Z.eqb_spec fc fa) as [E3 | E3];
    intros Hab Hbc;
    try apply Z.ltb_ge in Hab; try apply Z.ltb_ge in Hbc; try apply Z.ltb_ge;
    try lia.
  apply (syms_leb_trans sa sb sc); assumption.
Qed.

(* ================================================================== *)
(** * The heap does not depend on the order of the pushes *)

Lemma heappush_ascending (heap : list item) (x : item) :
  ascending heap -> ascending (heappush heap x).
Proof.
  induction 1 as [| y heap Hy Hasc IH]; simpl.
  - constructor; [intros y [] | constructor].
  - destruct (item_ltb x y) eqn:E.
    + constructor.
      * intros z [<- | Hz]; [apply item_ltb_asym; exact E |].
        apply item_le_trans with y; [apply item_ltb_asym; exact E | apply Hy; exact Hz].
      * constructor; assumption.
    + constructor; [| exact IH].
      intros z Hz. apply heappush_In in Hz. destruct Hz as [-> | Hz].
      * exact E.
      * apply Hy. exact Hz.
Qed.

Lemma ascending_Permutation_eq (h1 : list item) :
  forall h2, ascending h1 -> ascending h2 -> Permutation h1 h2 -> h1 = h2.
Proof.
  induction h1 as [| x h1 IH]; intros h2 A1 A2 Hperm.
  - apply Permutation_nil in Hperm. symmetry. exact Hperm.
  - destruct h2 as [| y h2].
    { apply Permutation_sym, Permutation_nil in Hperm. discriminate Hperm. }
    inversion A1 as [| ? ? Hx A1']; subst.
    inversion A2 as [| ? ? Hy A2']; subst.
    assert (Exy : x = y).
    { assert (Hin1 : In x (y :: h2)) by (apply (Permutation_in x Hperm); left; reflexivity).
      assert (Hin2 : In y (x :: h1))
        by (apply (Permutation_in y (Permutation_sym Hperm)); left; reflexivity).
      destruct Hin1 as [E | Hin1]; [symmetry; exact E |].
      destruct Hin2 as [E | Hin2]; [exact E |].
      apply item_le_antisym; [apply Hx; exact Hin2 | apply Hy; exact Hin1]. }
    subst y. f_equal. apply IH; [exact A1' | exact A2' |].
    apply Permutation_cons_inv with x. exact Hperm.
Qed.

Lemma initial_heap_ascending (frequencies : list (byte * Z)) :
  forall acc, ascending acc -> ascending (fold_left push_symbol frequencies acc).
Proof.
  induction frequencies as [| [s f] l IH]; intros acc Hacc; simpl; [exact Hacc |].
  apply IH. apply heappush_ascending. exact Hacc.
Qed.

Lemma initial_heap_order_independent (f1 f2 : list (byte * Z)) :
  Permutation f1 f2 ->
  fold_left push_symbol f1 [] = fold_left push_symbol f2 [].
Proof.
  intros Hperm. apply ascending_Permutation_eq.
  - apply initial_heap_ascending. constructor.
  - apply initial_heap_ascending. constructor.
  - pose proof (initial_heap_spec f1 []) as H1.
    pose proof (initial_heap_spec f2 []) as H2.
    cbv zeta in H1, H2. rewrite app_nil_r in H1, H2.
    apply Permutation_trans with (map (fun kv => (snd kv, [fst kv])) f1); [exact H1 |].
    apply Permutation_trans with (map (fun kv => (snd kv, [fst kv])) f2);
      [| apply Permutation_sym; exact H2].
    apply Permutation_map. exact Hperm.
Qed.

(** The code table is a function of the frequency mapping: the order in
    which the [dict] lists its items does not matter. *)
Lemma huffman_order_independent (f1 f2 : list (byte * Z)) :
  Permutation f1 f2 -> huffman f1 = huffman f2.
Proof.
  intros Hperm. rewrite !huffman_unfold.
  rewrite (initial_heap_order_independent f1 f2 Hperm).
  destruct (huffman_while _ _ _) as [table | e]; [| reflexivity]. simpl.
  pose proof (Permutation_length Hperm) as Hlen.
  destruct f1 as [| kv1 [| kv1' r1]]; destruct f2 as [| kv2 [| kv2' r2]];
    simpl in Hlen; try discriminate Hlen; try reflexivity.
  - apply Permutation_length_1 in Hperm. subst kv2. reflexivity.
  - destruct kv1, kv2. reflexivity.
Qed.

Lemma build_codes_order_independent (f1 f2 : list (byte * Z)) :
  Permutation f1 f2 -> build_codes f1 = build_codes f2.
Proof.
  intros Hperm. unfold build_codes.
  rewrite (huffman_order_independent f1 f2 Hperm).
  destruct f1 as [| kv1 r1]; destruct f2 as [| kv2 r2]; try reflexivity.
  apply Permutation_nil in Hperm. discriminate Hperm.
Qed.

(* ================================================================== *)
(** * The frequency header *)

(** ** Bytes and counters *)

Lemma byte_to_Z_range (b : byte) : 0 <= byte_to_Z b < 256.
Proof.
  unfold byte_to_Z. pose proof (Byte.to_N_bounded b). lia.
Qed.

Lemma byte_to_of_Z (z : Z) : byte_to_Z (byte_of_Z z) = z mod 256.
Proof.
  unfold byte_to_Z, byte_of_Z.
  pose proof (Z.mod_pos_bound z 256 ltac:(lia)) as Hm.
  pose proof (Byte.to_of_N_option_map (Z.to_N (z mod 256))) as H.
  destruct (Byte.of_N (Z.to_N (z mod 256))) as [b |]; simpl in H.
  - destruct (N.leb_spec (Z.to_N (z mod 256)) 255) as [_ | Hgt]; [| discriminate H].
    injection H as ->. lia.
  - destruct (N.leb_spec (Z.to_N (z mod 256)) 255) as [_ | Hgt]; [discriminate H | lia].
Qed.

Lemma byte_of_to_Z (b : byte) : byte_of_Z (byte_to_Z b) = b.
Proof.
  apply byte_to_Z_inj. rewrite byte_to_of_Z.
  apply Z.mod_small. apply byte_to_Z_range.
Qed.

Lemma to_bytes4_from_bytes (count : Z) (bs : list byte) :
  to_bytes4 count = Ok bs ->
  from_bytes bs = count /\ List.length bs = 4%nat.
Proof.
  unfold to_bytes4.
  destruct (0 <=? count) eqn:H0; [| discriminate].
  destruct (count <? 4294967296) eqn:H1; [| discriminate].
  simpl. intros [= <-]. split; [| reflexivity].
  apply Z.leb_le in H0. apply Z.ltb_lt in H1.
  unfold from_bytes. simpl. rewrite !byte_to_of_Z.
  Z.div_mod_to_equations. lia.
Qed.

Lemma to_bytes4_Ok (count : Z) (bs : list byte) :
  to_bytes4 count = Ok bs -> bs = big_endian4 count.
Proof.
  unfold to_bytes4. destruct ((0 <=? count) && (count <? 4294967296)); [| discriminate].
  intros [= <-]. reflexivity.
Qed.

(** ** Writing the header *)

Lemma write_loop_spec (freq : list (byte * Z)) (keys : list byte) :
  forall acc res,
  foldM (fun f_out byte_key =>
           let count := dict_get_default Byte.eqb freq byte_key 0 in
           counter <- to_bytes4 count ;;
           Ok (f_out ++ counter)) keys acc = Ok res ->
  res = acc ++ flat_map (fun k => big_endian4 (dict_get_default Byte.eqb freq k 0)) keys /\
  forall k, In k keys ->
            to_bytes4 (dict_get_default Byte.eqb freq k 0)
            = Ok (big_endian4 (dict_get_default Byte.eqb freq k 0)).
Proof.
  induction keys as [| k keys IH]; intros acc res H; simpl in H.
  - injection H as <-. simpl. rewrite app_nil_r. split; [reflexivity | intros k []].
  - inv_bind H. cbv zeta in Hv. inv_bind Hv. injection Hv as <-.
    pose proof (to_bytes4_Ok _ _ Hv0) as ->.
    destruct (IH _ _ H) as [-> Hall].
    split; [simpl; rewrite <- app_assoc; reflexivity |].
    intros k' [<- | Hk']; [exact Hv0 | apply Hall; exact Hk'].
Qed.

Lemma chunk_of_flat_map {A : Type} (f : A -> list byte) (l : list A) :
  (forall x, List.length (f x) = 4%nat) ->
  forall i x, nth_error l i = Some x ->
              firstn 4 (skipn (4 * i) (flat_map f l)) = f x.
Proof.
  intros Hlen. induction l as [| y l IH]; intros i x Hnth.
  - destruct i; discriminate Hnth.
  - destruct i as [| i]; simpl in Hnth.
    + injection Hnth as ->. rewrite Nat.mul_0_r. cbn [skipn flat_map].
      rewrite firstn_app, Hlen, Nat.sub_diag, firstn_0, app_nil_r.
      rewrite <- (Hlen x). apply firstn_all.
    + cbn [flat_map]. rewrite skipn_app, Hlen.
      rewrite skipn_all2 by (rewrite Hlen; lia). cbn [app].
      replace (4 * S i - 4)%nat with (4 * i)%nat by lia.
      apply IH. exact Hnth.
Qed.

Lemma length_flat_map_const {A B : Type} (f : A -> list B) (n : nat) (l : list A) :
  (forall x, List.length (f x) = n) ->
  List.length (flat_map f l) = (n * List.length l)%nat.
Proof.
  intros Hf. induction l as [| x l IH]; cbn [flat_map List.length]; [lia |].
  rewrite length_app, Hf, IH. lia.
Qed.

Lemma nth_error_range (a b : Z) (k : nat) :
  (k < Z.to_nat (b - a))%nat ->
  nth_error (Py.range a b) k = Some (a + Z.of_nat k).
Proof.
  intros Hk. unfold Py.range. rewrite nth_error_map.
  rewrite (nth_error_nth' _ 0%nat) by (rewrite length_seq; exact Hk).
  rewrite seq_nth by exact Hk. reflexivity.
Qed.

(** The counter read back at slot [b] is the count of byte [b]. *)
Lemma header_count_written (freq : list (byte * Z)) (header rest : list byte) (b : Z) :
  write_header freq = Ok header ->
  0 <= b < 256 ->
  header_count (firstn 1024 (header ++ rest)) b
  = dict_get_default Byte.eqb freq (byte_of_Z b) 0 /\
  List.length header = 1024%nat.
Proof.
  intros Hw Hb. unfold write_header in Hw.
  apply write_loop_spec in Hw. destruct Hw as [-> Hall]. rewrite app_nil_l.
  set (f := fun k => big_endian4 (dict_get_default Byte.eqb freq k 0)).
  assert (Hlen : List.length (flat_map f all_bytes) = 1024%nat).
  { rewrite (length_flat_map_const f 4%nat) by reflexivity.
    replace (List.length all_bytes) with 256%nat by (vm_compute; reflexivity).
    reflexivity. }
  split; [| exact Hlen].
  replace (firstn 1024 (flat_map f all_bytes ++ rest)) with (flat_map f all_bytes).
  2:{ rewrite firstn_app, Hlen, Nat.sub_diag, firstn_0, app_nil_r.
      rewrite <- Hlen at 1. symmetry. apply firstn_all. }
  unfold header_count, Py.slice.
  replace (Z.to_nat ((b + 1) * 4 - b * 4)) with 4%nat by lia.
  replace (Z.to_nat (b * 4)) with (4 * Z.to_nat b)%nat by lia.
  assert (Hnth : nth_error all_bytes (Z.to_nat b) = Some (byte_of_Z b)).
  { unfold all_bytes. rewrite nth_error_map, nth_error_range by lia.
    simpl. do 2 f_equal. lia. }
  rewrite (chunk_of_flat_map f all_bytes (fun x => eq_refl) _ _ Hnth).
  unfold f.
  assert (Hin : In (byte_of_Z b) all_bytes) by (apply nth_error_In in Hnth; exact Hnth).
  apply to_bytes4_from_bytes. apply Hall. exact Hin.
Qed.

(** ** Reading the header *)

Lemma read_loop_get (freq_data : list byte) (k : byte) (slots : list Z) :
  forall acc,
  (forall z, In z slots -> 0 <= z < 256) ->
  dict_get Byte.eqb
    (fold_left (fun freq b =>
                  let count := header_count freq_data b in
                  if count >? 0 then dict_set Byte.eqb freq (byte_of_Z b) count
                  else freq) slots acc) k
  = if existsb (Z.eqb (byte_to_Z k)) slots && (header_count freq_data (byte_to_Z k) >? 0)
    then Some (header_count freq_data (byte_to_Z k))
    else dict_get Byte.eqb acc k.
Proof.
  induction slots as [| z slots IH]; intros acc Hslots; [reflexivity |].
  cbn [fold_left existsb]. rewrite IH by (intros y Hy; apply Hslots; right; exact Hy).
  cbv zeta.
  destruct (Z.eqb_spec (byte_to_Z k) z) as [<- | Hne].
  - rewrite byte_of_to_Z. cbn [orb].
    destruct (header_count freq_data (byte_to_Z k) >? 0) eqn:Hpos.
    + rewrite dict_get_set_same by exact byte_eqb_true.
      rewrite andb_true_r. destruct (existsb _ slots); reflexivity.
    + rewrite !andb_false_r. reflexivity.
  - cbn [orb].
    assert (Hkey : byte_of_Z z <> k).
    { intros E. apply Hne. rewrite <- E, byte_to_of_Z.
      apply Z.mod_small. apply Hslots. left; reflexivity. }
    destruct (header_count freq_data z >? 0).
    + rewrite dict_get_set_other by (exact byte_eqb_true || exact Hkey). reflexivity.
    + reflexivity.
Qed.

Lemma read_header_get (freq_data : list byte) (k : byte) :
  dict_get Byte.eqb (read_header freq_data) k
  = if header_count freq_data (byte_to_Z k) >? 0
    then Some (header_count freq_data (byte_to_Z k))
    else None.
Proof.
  unfold read_header. rewrite read_loop_get by (intros z Hz; apply In_range in Hz; lia).
  replace (existsb (Z.eqb (byte_to_Z k)) (Py.range 0 256)) with true; [reflexivity |].
  symmetry. apply existsb_exists. exists (byte_to_Z k).
  split; [apply In_range; apply byte_to_Z_range | apply Z.eqb_refl].
Qed.

Lemma read_header_NoDup (freq_data : list byte) :
  NoDup (map fst (read_header freq_data)).
Proof.
  unfold read_header.
  assert (H : forall slots acc,
             NoDup (map fst acc) ->
             NoDup (map fst
               (fold_left (fun freq b =>
                  let count := header_count freq_data b in
                  if count >? 0 then dict_set Byte.eqb freq (byte_of_Z b) count
                  else freq) slots (acc : list (byte * Z))))).
  { induction slots as [| z slots IH]; intros acc Hacc; [exact Hacc |].
    cbn [fold_left]. apply IH. cbv zeta.
    destruct (header_count freq_data z >? 0); [| exact Hacc].
    apply dict_set_NoDup; [exact byte_eqb_true | exact Hacc]. }
  apply H. constructor.
Qed.

(** ** [Counter] *)

Lemma Counter_loop_inv (symbols : list byte) :
  forall acc : list (byte * Z),
  NoDup (map fst acc) ->
  (forall k c, dict_get Byte.eqb acc k = Some c -> 0 < c) ->
  let freq := fold_left (fun d s => dict_set Byte.eqb d s
                                      (dict_get_default Byte.eqb d s 0 + 1))
                        symbols acc in
  NoDup (map fst freq) /\
  (forall k c, dict_get Byte.eqb freq k = Some c -> 0 < c).
Proof.
  induction symbols as [| s symbols IH]; intros acc Hnd Hpos; [split; assumption |].
  cbn [fold_left]. apply IH.
  - apply dict_set_NoDup; [exact byte_eqb_true | exact Hnd].
  - intros k c. destruct (Byte.byte_eq_dec s k) as [<- | Hne].
    + rewrite dict_get_set_same by exact byte_eqb_true. intros [= <-].
      unfold dict_get_default. destruct (dict_get Byte.eqb acc s) as [c0 |] eqn:E.
      * pose proof (Hpos s c0 E). lia.
      * lia.
    + rewrite dict_get_set_other by (exact byte_eqb_true || exact Hne).
      apply Hpos.
Qed.

Lemma Counter_spec (symbols : list byte) :
  NoDup (map fst (Counter symbols)) /\
  (forall k c, dict_get Byte.eqb (Counter symbols) k = Some c -> 0 < c).
Proof.
  apply (Counter_loop_inv symbols []); [constructor | intros k c H; discriminate H].
Qed.

(** ** Two dictionaries with the same lookups hold the same items *)

Lemma dict_ext_Permutation (d1 d2 : list (byte * Z)) :
  NoDup (map fst d1) -> NoDup (map fst d2) ->
  (forall k, dict_get Byte.eqb d1 k = dict_get Byte.eqb d2 k) ->
  Permutation d1 d2.
Proof.
  intros H1 H2 Hext. apply NoDup_Permutation.
  - apply NoDup_map_inv with (f := fst). exact H1.
  - apply NoDup_map_inv with (f := fst). exact H2.
  - intros [k c]. split; intros Hin.
    + apply (dict_get_In Byte.eqb byte_eqb_true). rewrite <- Hext.
      apply (In_dict_get Byte.eqb byte_eqb_true); assumption.
    + apply (dict_get_In Byte.eqb byte_eqb_true). rewrite Hext.
      apply (In_dict_get Byte.eqb byte_eqb_true); assumption.
Qed.

(** The frequency table the decompressor reads from a written header
    holds the items of the compressor's table. *)
Lemma read_written_header (symbols header rest : list byte) :
  write_header (Counter symbols) = Ok header ->
  Permutation (read_header (firstn 1024 (header ++ rest))) (Counter symbols).
Proof.
  intros Hw. destruct (Counter_spec symbols) as [Hnd Hpos].
  apply dict_ext_Permutation; [apply read_header_NoDup | exact Hnd |].
  intros k. rewrite read_header_get.
  destruct (header_count_written _ _ rest (byte_to_Z k) Hw (byte_to_Z_range k))
    as [-> _].
  rewrite byte_of_to_Z. unfold dict_get_default.
  destruct (dict_get Byte.eqb (Counter symbols) k) as [c |] eqn:E.
  - replace (c >? 0) with true; [reflexivity |].
    symmetry. apply Z.gtb_lt. apply (Hpos k c E).
  - reflexivity.
Qed.

(* ================================================================== *)
(** * Determinism of the code table (C5) *)

(** C5.  The code table is a function of the frequency mapping alone:
    two frequency tables with the same items, in whatever order the
    [dict] lists them, give the same result of [huffman]; two runs of
    [compress_file] on the same input give the same bytes; and whenever
    [compress_file] succeeds, the table [decompress_file] builds from the
    first 1024 bytes of the output is exactly the table [compress_file]
    built from the counts of the serialized records. *)
Theorem huffman_table_deterministic :
  (forall f1 f2, Permutation f1 f2 -> huffman f1 = huffman f2) /\
  (forall data out1 out2,
      compress_file data = Ok out1 -> compress_file data = Ok out2 -> out1 = out2) /\
  (forall data out,
      compress_file data = Ok out ->
      exists codewords serialized table,
        compress_codewords data = Ok codewords /\
        serialize codewords = Ok serialized /\
        build_codes (Counter serialized) = Ok table /\
        build_codes (read_header (firstn 1024 out)) = Ok table).
Proof.
  split; [exact huffman_order_independent |]. split.
  - intros data out1 out2 H1 H2. congruence.
  - intros data out H. unfold compress_file in H.
    apply bind_Ok_inv in H. destruct H as [codewords [Hcw H]].
    apply bind_Ok_inv in H. destruct H as [serialized [Hser H]].
    apply bind_Ok_inv in H. destruct H as [table [Htable H]].
    apply bind_Ok_inv in H. destruct H as [encoded_bits [_ H]].
    apply bind_Ok_inv in H. destruct H as [bytes_out [_ H]].
    apply bind_Ok_inv in H. destruct H as [header [Hheader H]].
    injection H as <-.
    exists codewords, serialized, table.
    split; [exact Hcw |]. split; [exact Hser |]. split; [exact Htable |].
    rewrite (build_codes_order_independent _ _
               (read_written_header serialized header bytes_out Hheader)).
    exact Htable.
Qed.

(* ================================================================== *)
(** * The file format (C1, C6, C10) and malformed tokens (C2) *)

(** C6.  Compressing the empty buffer gives exactly 1024 zero bytes and
    nothing after them.  On that file the frequency table read back is
    empty, [decompress_file] calls neither [huffman] nor [Codec.decode],
    and it writes the empty buffer. *)
Theorem empty_input_compresses_to_zero_header :
  compress_file [] = Ok (repeat x00 1024) /\
  skipn 1024 (repeat x00 1024) = [] /\
  read_header (firstn 1024 (repeat x00 1024)) = [] /\
  decompress_file_calls (repeat x00 1024) = ([], Ok []) /\
  decompress_file (repeat x00 1024) = Ok [].
Proof.
  split; [vm_compute; reflexivity |].
  split; [vm_compute; reflexivity |].
  split; [vm_compute; reflexivity |].
  split; vm_compute; reflexivity.
Qed.

(** C1 (fails in the code).  The round trip does not hold for the buffer
    of two zero bytes.  Its two records are ten zero bytes, the only
    symbol gets the code "0", the ten code bits are padded with six zero
    bits, and [decompress_file] decodes all sixteen bits: sixteen symbols,
    three whole records, three output bytes. *)
Theorem roundtrip_fails_on_two_zero_bytes :
  compress_codewords [x00; x00] = Ok [mkCodeword 0 0 x00; mkCodeword 0 0 x00] /\
  (exists header, compress_file [x00; x00] = Ok (header ++ [x00; x00]) /\
                  List.length header = 1024%nat /\
                  read_header header = [(x00, 10)]) /\
  bind (compress_file [x00; x00]) decompress_file = Ok [x00; x00; x00] /\
  bind (compress_file [x00; x00]) decompress_file <> Ok [x00; x00].
Proof.
  split; [vm_compute; reflexivity |]. split; [| split].
  - exists (firstn 1024 (match compress_file [x00; x00] with Ok out => out | Raise _ => [] end)).
    split; [vm_compute; reflexivity |].
    split; vm_compute; reflexivity.
  - vm_compute. reflexivity.
  - vm_compute. discriminate.
Qed.

(** The guard of the copy loop never fires: when the loop is entered with
    [start] below the output length and returns, it has copied every
    byte asked for. *)
Lemma copy_loop_never_truncates (start : Z) (n : nat) :
  forall i buffer out,
  start + i < Py.len buffer ->
  copy_loop (Py.range i (i + Z.of_nat n)) start buffer = Ok out ->
  Py.len out = Py.len buffer + Z.of_nat n.
Proof.
  induction n as [| n IH]; intros i buffer out Hlt Hcopy.
  - rewrite range_empty in Hcopy by lia. injection Hcopy as <-. lia.
  - replace (Z.of_nat (S n)) with (1 + Z.of_nat n) in * by lia.
    rewrite range_cons in Hcopy by lia. cbn [copy_loop] in Hcopy.
    replace (start + i >=? Py.len buffer) with false in Hcopy
      by (symmetry; destruct (Z.geb_spec (start + i) (Py.len buffer)); [lia | reflexivity]).
    inv_bind Hcopy.
    replace (i + (1 + Z.of_nat n)) with (i + 1 + Z.of_nat n) in Hcopy by lia.
    apply IH in Hcopy.
    + rewrite Hcopy, len_app. unfold Py.len. simpl List.length. lia.
    + rewrite len_app. unfold Py.len at 2. simpl List.length. lia.
Qed.

Lemma decompress_codeword_never_truncates (buffer out : list byte) (cw : Codeword) :
  0 < prefix_start_offset cw ->
  decompress_codeword buffer cw = Ok out ->
  Py.len out = Py.len buffer + Z.max 0 (prefix_len cw) + 1.
Proof.
  intros Hoff H. unfold decompress_codeword in H.
  replace (prefix_start_offset cw >? 0) with true in H by (symmetry; apply Z.gtb_lt; lia).
  inv_bind H. injection H as <-.
  rewrite len_app. unfold Py.len at 2. simpl List.length.
  destruct (Z.le_gt_cases 0 (prefix_len cw)) as [Hge | Hlt].
  - pose proof (copy_loop_never_truncates
                  (Py.len buffer - prefix_start_offset cw)
                  (Z.to_nat (prefix_len cw)) 0 buffer v) as Hc.
    rewrite Z2Nat.id, Z.add_0_l, Z.add_0_r in Hc by lia.
    rewrite Hc; [lia | lia | exact Hv].
  - rewrite (range_empty 0 (prefix_len cw)) in Hv by lia.
    injection Hv as <-. lia.
Qed.

(** C2 (fails in the code).  A copy whose start index is negative is not
    truncated.  On an empty output the token [(1, 1, 'B')] raises
    [IndexError]; on the output "A" the token [(2, 1, 'B')] reads
    [buffer[-1]], the wrapped-around last byte, and gives "AAB"; on the
    output "A" the token [(5, 1, 'B')] raises [IndexError]; and
    [decompress_file] raises [IndexError] on a file whose first record
    is the token [(1, 1, 'B')]. *)
Theorem negative_start_raises_or_wraps :
  decompress_codeword [] (mkCodeword 1 1 "B"%byte) = Raise IndexError /\
  decompress_codeword (bytes_of "A") (mkCodeword 2 1 "B"%byte) = Ok (bytes_of "AAB") /\
  decompress_codeword (bytes_of "A") (mkCodeword 5 1 "B"%byte) = Raise IndexError /\
  decompress_file file_with_early_backreference = Raise IndexError.
Proof.
  split; [vm_compute; reflexivity |].
  split; [vm_compute; reflexivity |].
  split; vm_compute; reflexivity.
Qed.

(** ** Short files *)

Lemma decompress_file_unfold (data : list byte) :
  decompress_file data =
  match build_codes (read_header (firstn 1024 data)) with
  | Raise e => Raise e
  | Ok table =>
      let serialized :=
        if truthy table
        then decode (build_codec table) (bitstream_of (skipn 1024 data))
        else [] in
      codewords <- parse_codewords (range_step (Py.len serialized) 5) serialized [] ;;
      replay codewords
  end.
Proof.
  unfold decompress_file, decompress_file_calls.
  destruct (build_codes (read_header (firstn 1024 data))) as [table | e]; [| reflexivity].
  cbn [snd]. destruct (truthy table); reflexivity.
Qed.

Lemma build_codes_total (freq : list (byte * Z)) :
  exists table, build_codes freq = Ok table.
Proof.
  unfold build_codes. destruct (truthy freq).
  - apply huffman_total.
  - eexists; reflexivity.
Qed.

Lemma decompress_file_empty_payload (data : list byte) :
  skipn 1024 data = [] -> decompress_file data = Ok [].
Proof.
  intros Hpayload. rewrite decompress_file_unfold, Hpayload.
  destruct (build_codes_total (read_header (firstn 1024 data))) as [table ->].
  destruct (truthy table); reflexivity.
Qed.

(** C10 as stated does not hold: in the one-byte file [05] the slice of
    slot 0 is one byte long and parses as 5, not 0. *)
Lemma short_slice_counts_its_bytes : ~ short_slices_count_zero.
Proof.
  intros H. destruct (H [x05]) as [_ [_ Hzero]]; [vm_compute; reflexivity |].
  specialize (Hzero 0 ltac:(lia) ltac:(vm_compute; reflexivity)).
  vm_compute in Hzero. discriminate Hzero.
Qed.

(** C10 (amended).  For every file shorter than 1024 bytes
    [decompress_file] does not fail and writes the empty buffer; the
    payload is empty; each counter is the big-endian value of the bytes of
    its slot that are present in the file, so a slot that is wholly
    missing counts 0. *)
Theorem short_file_decompresses_to_empty (data : list byte) :
  Py.len data < 1024 ->
  decompress_file data = Ok [] /\
  skipn 1024 data = [] /\
  forall b, 0 <= b < 256 ->
            header_count (firstn 1024 data) b
            = from_bytes (Py.slice data (b * 4) ((b + 1) * 4)) /\
            (Py.len data <= b * 4 -> header_count (firstn 1024 data) b = 0).
Proof.
  intros Hshort.
  assert (Hpayload : skipn 1024 data = [])
    by (apply skipn_all2; unfold Py.len in Hshort; lia).
  assert (Hhead : firstn 1024 data = data)
    by (apply firstn_all2; unfold Py.len in Hshort; lia).
  split; [apply decompress_file_empty_payload; exact Hpayload |].
  split; [exact Hpayload |].
  intros b Hb. rewrite Hhead. split; [reflexivity |].
  intros Hmissing. unfold header_count, Py.slice.
  rewrite skipn_all2 by (unfold Py.len in Hmissing; lia).
  rewrite firstn_nil. reflexivity.
Qed.

Lemma short_file_decompresses_to_empty_witness :
  Py.len [x05] < 1024 /\
  decompress_file [x05] = Ok [] /\
  skipn 1024 [x05] = [] /\
  forall b, 0 <= b < 256 ->
            header_count (firstn 1024 [x05]) b
            = from_bytes (Py.slice [x05] (b * 4) ((b + 1) * 4)) /\
            (Py.len [x05] <= b * 4 -> header_count (firstn 1024 [x05]) b = 0).
Proof.
  assert (Hshort : Py.len [x05] < 1024) by (vm_compute; reflexivity).
  split; [exact Hshort |].
  exact (short_file_decompresses_to_empty [x05] Hshort).
Defined.

(* ================================================================== *)
(** * The codec *)

(** ** Strings *)

Lemma str_app_nil_r (a : string) : (a ++ EmptyString)%string = a.
Proof.
  induction a as [| x a IH]; simpl; [reflexivity | rewrite IH; reflexivity].
Qed.

Lemma str_app_assoc (a b c : string) : ((a ++ b) ++ c)%string = (a ++ (b ++ c))%string.
Proof.
  induction a as [| x a IH]; simpl; [reflexivity | rewrite IH; reflexivity].
Qed.

Lemma str_length_app (a b : string) :
  String.length (a ++ b) = (String.length a + String.length b)%nat.
Proof.
  induction a as [| x a IH]; simpl; [reflexivity | rewrite IH; reflexivity].
Qed.

Lemma str_app_inv_head (a b c : string) : (a ++ b)%string = (a ++ c)%string -> b = c.
Proof.
  induction a as [| x a IH]; simpl; intros H; [exact H |].
  injection H as H. apply IH. exact H.
Qed.

(** ** Filling a dictionary item by item *)

Section FoldSet.

Context {K V : Type}.
Variable eqb : K -> K -> bool.
Hypothesis eqb_true : forall a b, eqb a b = true <-> a = b.

Lemma fold_dict_set_get (items : list (K * V)) :
  forall d k,
  NoDup (map fst items) ->
  dict_get eqb (fold_left (fun d kv => dict_set eqb d (fst kv) (snd kv)) items d) k
  = match dict_get eqb items k with
    | Some v => Some v
    | None => dict_get eqb d k
    end.
Proof.
  induction items as [| [k0 v0] items IH]; intros d k Hnd; [reflexivity |].
  inversion Hnd as [| ? ? Hnotin Hnd']; subst.
  cbn [fold_left fst snd dict_get]. rewrite IH by exact Hnd'.
  destruct (eqb k0 k) eqn:E.
  - apply eqb_true in E. subst k0.
    replace (dict_get eqb items k) with (@None V)
      by (symmetry; apply (dict_get_None eqb eqb_true); exact Hnotin).
    apply (dict_get_set_same eqb eqb_true).
  - destruct (dict_get eqb items k); [reflexivity |].
    apply (dict_get_set_other eqb eqb_true).
    intros ->. rewrite (eqb_same eqb eqb_true) in E. discriminate E.
Qed.

End FoldSet.

Lemma build_codec_fields (table : list (byte * string)) :
  forall codec,
  let filled := fold_left (fun codec '(sym, code) => update codec sym code) table codec in
  codes filled
  = fold_left (fun d kv => dict_set Byte.eqb d (fst kv) (snd kv)) table (codes codec) /\
  letters filled
  = fold_left (fun d kv => dict_set String.eqb d (fst kv) (snd kv))
              (map swap_item table) (letters codec).
Proof.
  induction table as [| [s c] table IH]; intros codec; [split; reflexivity |].
  cbn [fold_left map]. destruct (IH (update codec s c)) as [H1 H2].
  cbv zeta in H1, H2. rewrite H1, H2. split; reflexivity.
Qed.

Lemma prefix_code_codes_NoDup (table : list (byte * string)) :
  prefix_code table -> NoDup (map snd table).
Proof.
  intros [Hnd [_ Hpf]]. induction table as [| [s c] table IH]; [constructor |].
  cbn [map snd fst] in *. inversion Hnd as [| ? ? Hnotin Hnd']; subst.
  constructor.
  - intros Hin. apply in_map_iff in Hin. destruct Hin as [[s' c'] [Hc Hin]].
    cbn [snd] in Hc. subst c'.
    apply (Hpf s c s' c); [left; reflexivity | right; exact Hin | | apply is_prefix_refl].
    intros ->. apply Hnotin. apply (in_map fst) in Hin. exact Hin.
  - apply IH; [exact Hnd' |].
    intros s1 c1 s2 c2 H1 H2. apply Hpf; right; assumption.
Qed.

Lemma swap_item_In (table : list (byte * string)) (s : byte) (c : string) :
  In (c, s) (map swap_item table) <-> In (s, c) table.
Proof.
  rewrite in_map_iff. split.
  - intros [[s' c'] [E Hin]]. unfold swap_item in E. cbn [fst snd] in E.
    injection E as -> ->. exact Hin.
  - intros Hin. exists (s, c). split; [reflexivity | exact Hin].
Qed.

(** A codec filled from a prefix-code table. *)
Lemma build_codec_prefix_code (table : list (byte * string)) :
  prefix_code table ->
  codec_prefix_code (build_codec table) /\
  forall s, dict_get Byte.eqb (codes (build_codec table)) s = dict_get Byte.eqb table s.
Proof.
  intros Hpc. pose proof (prefix_code_codes_NoDup table Hpc) as Hnd2.
  destruct Hpc as [Hnd [Hne Hpf]].
  destruct (build_codec_fields table Codec_init) as [Hc Hl]. cbv zeta in Hc, Hl.
  fold (build_codec table) in Hc, Hl.
  assert (Hnd2' : NoDup (map fst (map swap_item table))).
  { rewrite map_map. exact Hnd2. }
  assert (Hcodes : forall s, dict_get Byte.eqb (codes (build_codec table)) s
                             = dict_get Byte.eqb table s).
  { intros s. rewrite Hc, (fold_dict_set_get Byte.eqb byte_eqb_true) by exact Hnd.
    destruct (dict_get Byte.eqb table s); reflexivity. }
  assert (Hletters : forall c, dict_get String.eqb (letters (build_codec table)) c
                               = dict_get String.eqb (map swap_item table) c).
  { intros c. rewrite Hl, (fold_dict_set_get String.eqb String.eqb_eq) by exact Hnd2'.
    destruct (dict_get String.eqb (map swap_item table) c); reflexivity. }
  split; [| exact Hcodes].
  constructor.
  - intros s c H. rewrite Hcodes in H. rewrite Hletters.
    apply (In_dict_get String.eqb String.eqb_eq); [exact Hnd2' |].
    apply swap_item_In. apply (dict_get_In Byte.eqb byte_eqb_true). exact H.
  - intros c s H. rewrite Hletters in H. rewrite Hcodes.
    apply (In_dict_get Byte.eqb byte_eqb_true); [exact Hnd |].
    apply swap_item_In. apply (dict_get_In String.eqb String.eqb_eq). exact H.
  - intros s c H. rewrite Hcodes in H. apply (Hne s).
    apply (dict_get_In Byte.eqb byte_eqb_true). exact H.
  - intros s1 c1 s2 c2 H1 H2. rewrite Hcodes in H1, H2.
    apply Hpf; apply (dict_get_In Byte.eqb byte_eqb_true); assumption.
Qed.

(** ** Decoding what was encoded *)

Lemma decode_loop_acc (self : Codec) (bitstream : string) :
  forall current d1 d2,
  decode_loop self bitstream current (d1 ++ d2)
  = d1 ++ decode_loop self bitstream current d2.
Proof.
  induction bitstream as [| bit rest IH]; intros current d1 d2; cbn [decode_loop].
  - reflexivity.
  - destruct (dict_get String.eqb (letters self) (current ++ String bit "")%string).
    + rewrite <- app_assoc. apply IH.
    + apply IH.
Qed.

(** Reading the remaining bits [v] of the code of [s], with the bits [u]
    already accumulated, emits [s] and restarts. *)
Lemma decode_one (self : Codec) (s : byte) (c rest : string) (decoded : list byte) :
  codec_prefix_code self ->
  dict_get Byte.eqb (codes self) s = Some c ->
  forall v u,
  c = (u ++ v)%string -> v <> EmptyString ->
  decode_loop self (v ++ rest) u decoded
  = decode_loop self rest EmptyString (decoded ++ [s]).
Proof.
  intros Hpc Hs. induction v as [| bit v IH]; intros u Hc Hv; [contradiction Hv; reflexivity |].
  cbn [append decode_loop].
  assert (Hc' : c = ((u ++ String bit "") ++ v)%string).
  { rewrite str_app_assoc. exact Hc. }
  destruct v as [| bit' v'].
  - rewrite str_app_nil_r in Hc'. rewrite <- Hc'.
    rewrite (cpc_letter self Hpc s c Hs). reflexivity.
  - destruct (dict_get String.eqb (letters self) (u ++ String bit "")%string) as [s' |] eqn:El.
    + exfalso. apply (cpc_code self Hpc) in El.
      destruct (Byte.byte_eq_dec s' s) as [-> | Hne].
      * rewrite Hs in El. injection El as El.
        rewrite <- (str_app_nil_r (u ++ String bit "")%string) in El at 1.
        rewrite Hc' in El. apply str_app_inv_head in El. discriminate El.
      * apply (cpc_prefix self Hpc s' _ s c El Hs Hne).
        exists (String bit' v'). exact Hc'.
    + apply IH; [exact Hc' | discriminate].
Qed.

Lemma encode_acc (self : Codec) (symbols : list byte) :
  forall acc,
  foldM (fun acc s =>
           match dict_get Byte.eqb (codes self) s with
           | Some code => Ok (acc ++ code)%string
           | None => Raise KeyError
           end) symbols acc
  = (bits <- encode self symbols ;; Ok (acc ++ bits)%string).
Proof.
  unfold encode. induction symbols as [| s symbols IH]; intros acc; cbn [foldM bind].
  - rewrite str_app_nil_r. reflexivity.
  - destruct (dict_get Byte.eqb (codes self) s) as [c |]; cbn [bind]; [| reflexivity].
    rewrite (IH (acc ++ c)%string), (IH (EmptyString ++ c)%string).
    cbn [append].
    destruct (foldM _ symbols EmptyString) as [t | e]; cbn [bind]; [| reflexivity].
    rewrite str_app_assoc. reflexivity.
Qed.

Lemma encode_cons (self : Codec) (s : byte) (symbols : list byte) :
  encode self (s :: symbols)
  = match dict_get Byte.eqb (codes self) s with
    | Some c => bits <- encode self symbols ;; Ok (c ++ bits)%string
    | None => Raise KeyError
    end.
Proof.
  unfold encode at 1. cbn [foldM].
  destruct (dict_get Byte.eqb (codes self) s) as [c |]; cbn [bind]; [| reflexivity].
  rewrite encode_acc. reflexivity.
Qed.

Lemma decode_encode_codec (self : Codec) (symbols : list byte) :
  codec_prefix_code self ->
  forall bits rest,
  encode self symbols = Ok bits ->
  decode self (bits ++ rest) = symbols ++ decode self rest.
Proof.
  intros Hpc. induction symbols as [| s symbols IH]; intros bits rest Henc.
  - injection Henc as <-. reflexivity.
  - rewrite encode_cons in Henc.
    destruct (dict_get Byte.eqb (codes self) s) as [c |] eqn:Hs; [| discriminate Henc].
    inv_bind Henc. injection Henc as <-.
    unfold decode. rewrite str_app_assoc.
    rewrite (decode_one self s c _ [] Hpc Hs c EmptyString eq_refl
               (cpc_nonempty self Hpc s c Hs)).
    rewrite (decode_loop_acc self _ EmptyString [s] []).
    cbn [app]. f_equal. apply (IH v rest Hv).
Qed.

Lemma encode_dichotomy (self : Codec) (symbols : list byte) :
  (exists bits, encode self symbols = Ok bits /\
                forall s, In s symbols ->
                          exists c, dict_get Byte.eqb (codes self) s = Some c) \/
  (encode self symbols = Raise KeyError /\
   exists s, In s symbols /\ dict_get Byte.eqb (codes self) s = None).
Proof.
  induction symbols as [| s symbols IH].
  - left. exists EmptyString. split; [reflexivity | intros s []].
  - rewrite encode_cons.
    destruct (dict_get Byte.eqb (codes self) s) as [c |] eqn:Hs.
    + destruct IH as [[bits [Hbits Hall]] | [Hraise [s' [Hin Hnone]]]].
      * left. rewrite Hbits. eexists. split; [reflexivity |].
        intros s' [<- | Hin]; [exists c; exact Hs | apply Hall; exact Hin].
      * right. rewrite Hraise. split; [reflexivity |].
        exists s'. split; [right; exact Hin | exact Hnone].
    + right. split; [reflexivity |]. exists s. split; [left; reflexivity | exact Hs].
Qed.


Lemma decode_length_le (self : Codec) (bitstream : string) :
  (List.length (decode self bitstream) <= String.length bitstream)%nat.
Proof.
  unfold decode.
  assert (H : forall bs current decoded,
             (List.length (decode_loop self bs current decoded)
              <= List.length decoded + String.length bs)%nat).
  { induction bs as [| bit bs IH]; intros current decoded; cbn [decode_loop String.length].
    - lia.
    - destruct (dict_get String.eqb (letters self) (current ++ String bit "")%string).
      + specialize (IH EmptyString (decoded ++ [b])). rewrite length_app in IH.
        simpl List.length in IH. lia.
      + specialize (IH (current ++ String bit "")%string decoded). lia. }
  apply (H bitstream EmptyString []).
Qed.

Lemma is_bits_app (a b : string) :
  is_bits (a ++ b) = is_bits a && is_bits b.
Proof.
  induction a as [| x a IH]; cbn [append is_bits]; [reflexivity |].
  rewrite IH, andb_assoc. reflexivity.
Qed.

Lemma encode_bits (self : Codec) (symbols : list byte) :
  (forall s c, dict_get Byte.eqb (codes self) s = Some c -> is_bits c = true) ->
  forall bits, encode self symbols = Ok bits -> is_bits bits = true.
Proof.
  intros Hcodes. induction symbols as [| s symbols IH]; intros bits Henc.
  - injection Henc as <-. reflexivity.
  - rewrite encode_cons in Henc.
    destruct (dict_get Byte.eqb (codes self) s) as [c |] eqn:Hs; [| discriminate Henc].
    inv_bind Henc. injection Henc as <-.
    rewrite is_bits_app, (Hcodes s c Hs), (IH v Hv). reflexivity.
Qed.

(* ================================================================== *)
(** * Further properties of the codec (X1-X3) *)

(** X1.  [Codec.encode] succeeds exactly when every symbol has a code:
    either it returns the bits and every symbol of the input is a key of
    [self.codes], or it raises [KeyError] and some symbol of the input is
    not a key. *)
Theorem encode_raises_KeyError_on_missing_symbol (self : Codec) (symbols : list byte) :
  (exists bits, encode self symbols = Ok bits /\
                forall s, In s symbols ->
                          exists c, dict_get Byte.eqb (codes self) s = Some c) \/
  (encode self symbols = Raise KeyError /\
   exists s, In s symbols /\ dict_get Byte.eqb (codes self) s = None).
Proof.
  exact (encode_dichotomy self symbols).
Qed.

(** X2.  For a codec filled by [update] from a prefix-code table
    (distinct symbols, non-empty codes, no code a prefix of another),
    whatever [encode] returns decodes back to the symbols, and decoding
    goes on with the bits that follow from a fresh accumulator:
    [decode(encode(symbols) + rest) = symbols + decode(rest)]. *)
Theorem decode_inverts_encode (table : list (byte * string))
        (symbols : list byte) (bits rest : string) :
  prefix_code table ->
  encode (build_codec table) symbols = Ok bits ->
  decode (build_codec table) (bits ++ rest)
  = symbols ++ decode (build_codec table) rest.
Proof.
  intros Hpc Henc.
  destruct (build_codec_prefix_code table Hpc) as [Hcpc _].
  apply decode_encode_codec; assumption.
Qed.

(** X3.  [Codec.decode] never yields more symbols than it was given
    bits, whatever the codec holds. *)
Theorem decode_yields_at_most_one_symbol_per_bit (self : Codec) (bitstream : string) :
  (List.length (decode self bitstream) <= String.length bitstream)%nat.
Proof.
  exact (decode_length_le self bitstream).
Qed.

(* ================================================================== *)
(** * Counting and coding the symbols of a stream *)

Lemma dict_get_default_set (d : list (byte * Z)) (s k : byte) (v : Z) :
  dict_get_default Byte.eqb (dict_set Byte.eqb d s v) k 0
  = if Byte.byte_eq_dec s k then v else dict_get_default Byte.eqb d k 0.
Proof.
  unfold dict_get_default. destruct (Byte.byte_eq_dec s k) as [<- | Hne].
  - rewrite dict_get_set_same by exact byte_eqb_true. reflexivity.
  - rewrite dict_get_set_other by (exact byte_eqb_true || exact Hne). reflexivity.
Qed.

Lemma Counter_loop_count (symbols : list byte) (k : byte) :
  forall acc : list (byte * Z),
  dict_get_default Byte.eqb
    (fold_left (fun d s => dict_set Byte.eqb d s (dict_get_default Byte.eqb d s 0 + 1))
               symbols acc) k 0
  = dict_get_default Byte.eqb acc k 0
    + Z.of_nat (count_occ Byte.byte_eq_dec symbols k).
Proof.
  induction symbols as [| s symbols IH]; intros acc; cbn [fold_left count_occ].
  - lia.
  - rewrite IH, dict_get_default_set.
    destruct (Byte.byte_eq_dec s k) as [-> | Hne]; lia.
Qed.

Lemma Counter_count (symbols : list byte) (k : byte) :
  dict_get_default Byte.eqb (Counter symbols) k 0
  = Z.of_nat (count_occ Byte.byte_eq_dec symbols k).
Proof.
  unfold Counter. rewrite Counter_loop_count. reflexivity.
Qed.

Lemma Counter_keys (symbols : list byte) (s : byte) :
  In s (map fst (Counter symbols)) <-> In s symbols.
Proof.
  pose proof (Counter_count symbols s) as Hc.
  destruct (Counter_spec symbols) as [_ Hpos].
  unfold dict_get_default in Hc. split; intros Hin.
  - destruct (dict_get Byte.eqb (Counter symbols) s) as [c |] eqn:E.
    + pose proof (Hpos s c E) as Hp.
      apply (count_occ_In Byte.byte_eq_dec). lia.
    + apply (dict_get_None Byte.eqb byte_eqb_true) in E. contradiction.
  - apply (count_occ_In Byte.byte_eq_dec) in Hin.
    destruct (dict_get Byte.eqb (Counter symbols) s) as [c |] eqn:E; [| lia].
    apply (dict_get_In Byte.eqb byte_eqb_true) in E.
    apply (in_map fst) in E. exact E.
Qed.

Lemma fold_prepend_NoDup (bit : ascii) (syms : list byte) :
  forall table, NoDup (map fst table) ->
                NoDup (map fst (fold_left (prepend bit) syms table)).
Proof.
  induction syms as [| s syms IH]; intros table Hnd; [exact Hnd |].
  cbn [fold_left]. apply IH. unfold prepend.
  apply dict_set_NoDup; [exact byte_eqb_true | exact Hnd].
Qed.

Lemma huffman_while_NoDup (fuel : nat) :
  forall heap table table',
  huffman_while fuel heap table = Ok table' ->
  NoDup (map fst table) -> NoDup (map fst table').
Proof.
  induction fuel as [| fuel IH]; intros heap table table' Hrun Htable.
  - destruct heap as [| a [| b rest]]; simpl in Hrun;
      try (injection Hrun as <-; exact Htable).
    rewrite len_two_or_more in Hrun. discriminate Hrun.
  - destruct heap as [| [f1 g1] [| [f2 g2] rest]];
      try (injection Hrun as <-; exact Htable).
    cbn [huffman_while] in Hrun. rewrite len_two_or_more in Hrun.
    cbn [heappop bind] in Hrun.
    apply (IH _ _ _ Hrun). apply fold_prepend_NoDup, fold_prepend_NoDup. exact Htable.
Qed.

Lemma huffman_NoDup (frequencies : list (byte * Z)) (table : list (byte * string)) :
  huffman frequencies = Ok table -> NoDup (map fst table).
Proof.
  rewrite huffman_unfold. intros H. inv_bind H.
  assert (Hv' : NoDup (map fst v)).
  { apply (huffman_while_NoDup _ _ _ _ Hv). constructor. }
  destruct frequencies as [| [s f] [| kv rest]]; injection H as <-;
    [exact Hv' | | exact Hv'].
  apply dict_set_NoDup; [exact byte_eqb_true | exact Hv'].
Qed.

(** The table of a non-empty frequency mapping is a prefix code over
    the symbols of the mapping. *)
Lemma huffman_prefix_code (frequencies : list (byte * Z)) (table : list (byte * string)) :
  frequencies <> [] ->
  NoDup (map fst frequencies) ->
  huffman frequencies = Ok table ->
  prefix_code table /\
  forall s, In s (map fst frequencies) ->
            exists c, dict_get Byte.eqb table s = Some c.
Proof.
  intros Hne Hnd Ht.
  destruct (huffman_table_spec frequencies Hne Hnd) as [table' [Ht' [Hall [Hnz Hpf]]]].
  rewrite Ht in Ht'. injection Ht' as <-.
  pose proof (huffman_NoDup frequencies table Ht) as Hkeys.
  split; [| exact Hall].
  split; [exact Hkeys |]. split.
  - intros s c Hin. apply (Hnz s).
    apply (In_dict_get Byte.eqb byte_eqb_true); assumption.
  - intros s1 c1 s2 c2 H1 H2 Hdiff.
    apply (Hpf s1 s2 c1 c2 Hdiff);
      apply (In_dict_get Byte.eqb byte_eqb_true); assumption.
Qed.

(** What lines 219-226 of [compress_file] compute from the symbols. *)
Lemma build_codes_encode (symbols : list byte) :
  exists table bits,
    build_codes (Counter symbols) = Ok table /\
    (if truthy table then encode (build_codec table) symbols else Ok EmptyString)
    = Ok bits /\
    is_bits bits = true /\
    (truthy table = false -> symbols = []) /\
    forall rest,
      (if truthy table then decode (build_codec table) (bits ++ rest) else [])
      = symbols ++ (if truthy table then decode (build_codec table) rest else []).
Proof.
  destruct symbols as [| s0 symbols'] eqn:Hsym.
  { exists [], EmptyString. repeat split; reflexivity. }
  rewrite <- Hsym. assert (Hne : symbols <> []) by (rewrite Hsym; discriminate).
  clear Hsym s0 symbols'.
  destruct (Counter_spec symbols) as [Hnd _].
  assert (Hfreq : Counter symbols <> []).
  { intros E. destruct symbols as [| s symbols]; [contradiction Hne; reflexivity |].
    assert (Hin : In s (map fst (Counter (s :: symbols))))
      by (apply Counter_keys; left; reflexivity).
    rewrite E in Hin. exact Hin. }
  destruct (huffman_total (Counter symbols)) as [table Ht].
  destruct (huffman_prefix_code _ _ Hfreq Hnd Ht) as [Hpc Hall].
  destruct (build_codec_prefix_code table Hpc) as [Hcpc Hcodes].
  assert (Htruthy : truthy table = true).
  { destruct symbols as [| s symbols]; [contradiction Hne; reflexivity |].
    destruct (Hall s) as [c Hc]; [apply Counter_keys; left; reflexivity |].
    destruct table; [discriminate Hc | reflexivity]. }
  assert (Hbc : build_codes (Counter symbols) = Ok table).
  { unfold build_codes. destruct (Counter symbols); [contradiction Hfreq; reflexivity |].
    exact Ht. }
  destruct (encode_dichotomy (build_codec table) symbols)
    as [[bits [Hbits _]] | [_ [s [Hin Hnone]]]].
  2:{ exfalso. rewrite Hcodes in Hnone.
      destruct (Hall s) as [c Hc]; [apply Counter_keys; exact Hin |]. congruence. }
  exists table, bits. rewrite Htruthy.
  split; [exact Hbc |]. split; [exact Hbits |]. split; [| split; [discriminate |]].
  - apply (encode_bits (build_codec table) symbols); [| exact Hbits].
    intros s c Hc. rewrite Hcodes in Hc.
    exact (huffman_bits _ _ Ht s c Hc).
  - intros rest. apply decode_encode_codec; assumption.
Qed.

(* ================================================================== *)
(** * Records *)

Lemma pack_HHB_fits (cw : Codeword) :
  fits_HHB cw ->
  pack_HHB (prefix_start_offset cw) (prefix_len cw) (character cw) = Ok (record_of cw).
Proof.
  intros [[Ho1 Ho2] [Hl1 Hl2]]. unfold pack_HHB.
  apply Z.leb_le in Ho1, Ho2, Hl1, Hl2. rewrite Ho1, Ho2, Hl1, Hl2. reflexivity.
Qed.

Lemma pack_HHB_unfit (cw : Codeword) :
  ~ fits_HHB cw ->
  pack_HHB (prefix_start_offset cw) (prefix_len cw) (character cw) = Raise StructError.
Proof.
  intros Hno. unfold pack_HHB.
  destruct (0 <=? prefix_start_offset cw) eqn:E1;
    destruct (prefix_start_offset cw <=? 65535) eqn:E2;
    destruct (0 <=? prefix_len cw) eqn:E3;
    destruct (prefix_len cw <=? 65535) eqn:E4; try reflexivity.
  exfalso. apply Hno. apply Z.leb_le in E1, E2, E3, E4. unfold fits_HHB. lia.
Qed.

Lemma fits_HHB_dec (cw : Codeword) : fits_HHB cw \/ ~ fits_HHB cw.
Proof. unfold fits_HHB. lia. Qed.

Lemma unpack_record_of (cw : Codeword) :
  fits_HHB cw ->
  unpack_HHB (record_of cw) = Ok (prefix_start_offset cw, prefix_len cw, character cw).
Proof.
  intros [Ho Hl]. unfold unpack_HHB, record_of. rewrite !byte_to_of_Z.
  replace (prefix_start_offset cw / 256 mod 256 * 256 + prefix_start_offset cw mod 256)
    with (prefix_start_offset cw) by (Z.div_mod_to_equations; lia).
  replace (prefix_len cw / 256 mod 256 * 256 + prefix_len cw mod 256)
    with (prefix_len cw) by (Z.div_mod_to_equations; lia).
  reflexivity.
Qed.

Lemma serialize_acc (codewords : list Codeword) :
  forall acc,
  foldM (fun serialized cw =>
           record <- pack_HHB (prefix_start_offset cw) (prefix_len cw) (character cw) ;;
           Ok (serialized ++ record)) codewords acc
  = (records <- serialize codewords ;; Ok (acc ++ records)).
Proof.
  unfold serialize. induction codewords as [| cw cws IH]; intros acc; cbn [foldM bind].
  - rewrite app_nil_r. reflexivity.
  - destruct (pack_HHB _ _ _) as [r | e]; cbn [bind]; [| reflexivity].
    rewrite (IH (acc ++ r)), (IH ([] ++ r)). cbn [app].
    destruct (foldM _ cws []) as [t | e]; cbn [bind]; [| reflexivity].
    rewrite app_assoc. reflexivity.
Qed.

Lemma serialize_cons (cw : Codeword) (cws : list Codeword) :
  serialize (cw :: cws)
  = (record <- pack_HHB (prefix_start_offset cw) (prefix_len cw) (character cw) ;;
     records <- serialize cws ;;
     Ok (record ++ records)).
Proof.
  unfold serialize at 1. cbn [foldM].
  destruct (pack_HHB _ _ _) as [r | e]; cbn [bind]; [| reflexivity].
  rewrite serialize_acc. reflexivity.
Qed.

Lemma serialize_dichotomy (codewords : list Codeword) :
  (serialize codewords = Ok (flat_map record_of codewords) /\
   Forall fits_HHB codewords) \/
  (serialize codewords = Raise StructError /\ Exists (fun cw => ~ fits_HHB cw) codewords).
Proof.
  induction codewords as [| cw cws IH].
  - left. split; [reflexivity | constructor].
  - rewrite serialize_cons. destruct (fits_HHB_dec cw) as [Hfit | Hno].
    + rewrite (pack_HHB_fits cw Hfit). cbn [bind].
      destruct IH as [[Hs Hall] | [Hs Hex]]; rewrite Hs; cbn [bind].
      * left. split; [reflexivity | constructor; assumption].
      * right. split; [reflexivity | apply Exists_cons_tl; exact Hex].
    + rewrite (pack_HHB_unfit cw Hno). right.
      split; [reflexivity | apply Exists_cons_hd; exact Hno].
Qed.

Lemma slice_after_prefix {A : Type} (prefix rest : list A) (a : nat) :
  List.length prefix = (5 * a)%nat ->
  Py.slice (prefix ++ rest) (5 * Z.of_nat a) (5 * Z.of_nat a + 5) = firstn 5 rest.
Proof.
  intros Hlen. unfold Py.slice.
  replace (Z.to_nat (5 * Z.of_nat a + 5 - 5 * Z.of_nat a)) with 5%nat by lia.
  replace (Z.to_nat (5 * Z.of_nat a)) with (List.length prefix) by lia.
  rewrite skipn_app, skipn_all, Nat.sub_diag. reflexivity.
Qed.

(** Reading records back: whole records are parsed in order and a tail
    shorter than a record ends the loop. *)
Lemma parse_codewords_records (codewords : list Codeword) (tail : list byte) :
  Forall fits_HHB codewords ->
  (List.length tail < 5)%nat ->
  forall a m consumed acc,
  List.length consumed = (5 * a)%nat ->
  (List.length codewords + (match tail with [] => 0 | _ => 1 end) <= m)%nat ->
  parse_codewords (map (fun k => 5 * Z.of_nat k) (seq a m))
                  (consumed ++ flat_map record_of codewords ++ tail) acc
  = Ok (acc ++ codewords).
Proof.
  intros Hfit Htail. induction Hfit as [| cw cws Hcw Hcws IH];
    intros a m consumed acc Hlen Hm.
  - cbn [flat_map app]. destruct m as [| m].
    + cbn [seq map parse_codewords]. rewrite app_nil_r. reflexivity.
    + cbn [seq map parse_codewords].
      rewrite (slice_after_prefix consumed tail a Hlen).
      rewrite firstn_all2 by lia.
      replace (Py.len tail =? 5) with false
        by (symmetry; apply Z.eqb_neq; unfold Py.len; lia).
      cbn [negb]. rewrite app_nil_r. reflexivity.
  - destruct m as [| m]; [cbn [List.length] in Hm; lia |].
    cbn [seq map parse_codewords flat_map].
    rewrite <- app_assoc.
    rewrite (slice_after_prefix consumed _ a Hlen).
    replace (firstn 5 (record_of cw ++ flat_map record_of cws ++ tail))
      with (record_of cw) by reflexivity.
    replace (Py.len (record_of cw) =? 5) with true by reflexivity.
    cbn [negb]. rewrite (unpack_record_of cw Hcw). cbn [bind].
    replace (mkCodeword (prefix_start_offset cw) (prefix_len cw) (character cw))
      with cw by (destruct cw; reflexivity).
    replace (consumed ++ record_of cw ++ flat_map record_of cws ++ tail)
      with ((consumed ++ record_of cw) ++ flat_map record_of cws ++ tail)
      by (rewrite <- app_assoc; reflexivity).
    rewrite (IH (S a) m (consumed ++ record_of cw) (acc ++ [cw])).
    + rewrite <- app_assoc. reflexivity.
    + rewrite length_app, Hlen. cbn [record_of List.length]. lia.
    + cbn [List.length] in Hm. lia.
Qed.

Lemma range_step_5 (stop : Z) :
  range_step stop 5 = map (fun k => 5 * Z.of_nat k) (seq 0 (Z.to_nat ((stop + 4) / 5))).
Proof.
  unfold range_step. replace (stop + 5 - 1) with (stop + 4) by lia. reflexivity.
Qed.

Lemma parse_serialized (codewords : list Codeword) (tail : list byte) :
  Forall fits_HHB codewords ->
  (List.length tail < 5)%nat ->
  let serialized := flat_map record_of codewords ++ tail in
  parse_codewords (range_step (Py.len serialized) 5) serialized [] = Ok codewords.
Proof.
  intros Hfit Htail serialized. rewrite range_step_5.
  apply (parse_codewords_records codewords tail Hfit Htail 0 _ [] []); [reflexivity |].
  unfold serialized, Py.len. rewrite length_app.
  rewrite (length_flat_map_const record_of 5) by reflexivity.
  destruct tail as [| t tail]; cbn [List.length] in *.
  - assert (Hq : Z.of_nat (List.length codewords)
                 <= (Z.of_nat (5 * List.length codewords + 0) + 4) / 5).
    { apply Z.div_le_lower_bound; lia. }
    lia.
  - assert (Hq : Z.of_nat (List.length codewords) + 1
                 <= (Z.of_nat (5 * List.length codewords + S (List.length tail)) + 4) / 5).
    { apply Z.div_le_lower_bound; lia. }
    lia.
Qed.

(* ================================================================== *)
(** * Packing bits into bytes *)

Lemma int2_format_08b (b : byte) : int2 (format_08b b) = Ok (byte_to_Z b).
Proof. destruct b; reflexivity. Qed.

Lemma bit_cases (x : ascii) :
  (Ascii.eqb x "0" || Ascii.eqb x "1") = true -> x = "0"%char \/ x = "1"%char.
Proof.
  intros H. apply orb_true_iff in H.
  destruct H as [H | H]; apply Ascii.eqb_eq in H; auto.
Qed.

Lemma digits_are_format_08b (c : string) :
  String.length c = 8%nat -> is_bits c = true -> c = format_08b (byte_of_digits c).
Proof.
  intros Hlen Hbits.
  do 8 (destruct c as [| ? c]; [discriminate Hlen |]).
  destruct c; [| discriminate Hlen]. clear Hlen.
  cbn [is_bits] in Hbits.
  repeat match goal with
         | H : _ && _ = true |- _ =>
             let Ha := fresh "Ha" in
             apply andb_true_iff in H; destruct H as [Ha H];
             apply bit_cases in Ha
         end.
  clear Hbits.
  repeat match goal with
         | H : _ \/ _ |- _ => destruct H as [-> | ->]
         end; reflexivity.
Qed.

Lemma substring_after_prefix (consumed rest : string) (m : nat) :
  String.substring (String.length consumed) m (consumed ++ rest)
  = String.substring 0 m rest.
Proof.
  induction consumed as [| x consumed IH]; [reflexivity |].
  cbn [String.length append String.substring]. exact IH.
Qed.

Lemma substring_0_0 (s : string) : String.substring 0 0 s = EmptyString.
Proof. destruct s; reflexivity. Qed.

Lemma bitstream_of_length (encoded_data : list byte) :
  String.length (bitstream_of encoded_data) = (8 * List.length encoded_data)%nat.
Proof.
  induction encoded_data as [| b bs IH]; [reflexivity |].
  cbn [bitstream_of fold_right]. rewrite str_length_app.
  fold (bitstream_of bs). rewrite IH. cbn [List.length format_08b String.length]. lia.
Qed.

Lemma bytearray_append_byte (buf : list byte) (b : byte) :
  bytearray_append buf (byte_to_Z b) = Ok (buf ++ [b]).
Proof.
  unfold bytearray_append. pose proof (byte_to_Z_range b) as Hr.
  replace (0 <=? byte_to_Z b) with true by (symmetry; apply Z.leb_le; lia).
  replace (byte_to_Z b <? 256) with true by (symmetry; apply Z.ltb_lt; lia).
  cbn [andb]. rewrite byte_of_to_Z. reflexivity.
Qed.

Lemma pack_loop_bitstream (bytes : list byte) :
  forall a consumed acc,
  String.length consumed = (8 * a)%nat ->
  foldM (fun bytes_out i =>
           v <- int2 (str_slice (consumed ++ bitstream_of bytes) i 8) ;;
           bytearray_append bytes_out v)
        (map (fun k => 8 * Z.of_nat k) (seq a (List.length bytes))) acc
  = Ok (acc ++ bytes).
Proof.
  induction bytes as [| b bytes IH]; intros a consumed acc Hlen.
  - cbn [List.length seq map foldM]. rewrite app_nil_r. reflexivity.
  - cbn [List.length seq map foldM].
    assert (Hslice : str_slice (consumed ++ bitstream_of (b :: bytes)) (8 * Z.of_nat a) 8
                     = format_08b b).
    { unfold str_slice.
      replace (Z.to_nat (8 * Z.of_nat a)) with (String.length consumed) by lia.
      rewrite substring_after_prefix. change (Z.to_nat 8) with 8%nat.
      cbn [bitstream_of fold_right]. unfold format_08b.
      cbn [append String.substring]. rewrite substring_0_0. reflexivity. }
    rewrite Hslice, int2_format_08b. cbn [bind].
    rewrite bytearray_append_byte. cbn [bind].
    replace (consumed ++ bitstream_of (b :: bytes))%string
      with ((consumed ++ format_08b b) ++ bitstream_of bytes)%string
      by (rewrite str_app_assoc; reflexivity).
    rewrite (IH (S a) (consumed ++ format_08b b)%string (acc ++ [b])).
    + rewrite <- app_assoc. reflexivity.
    + rewrite str_length_app, Hlen. cbn [format_08b String.length]. lia.
Qed.

Lemma pack_bits_bitstream (bytes : list byte) :
  pack_bits (bitstream_of bytes) = Ok bytes.
Proof.
  unfold pack_bits, range_step, str_len. rewrite bitstream_of_length.
  replace (Z.to_nat ((Z.of_nat (8 * List.length bytes) + 8 - 1) / 8))
    with (List.length bytes).
  - apply (pack_loop_bitstream bytes 0 EmptyString []). reflexivity.
  - replace (Z.of_nat (8 * List.length bytes) + 8 - 1)
      with (7 + Z.of_nat (List.length bytes) * 8) by lia.
    rewrite Z.div_add by lia. change (7 / 8) with 0. lia.
Qed.

(** A string of binary digits whose length is a multiple of 8 is the
    bit stream of a byte sequence. *)
Lemma digits_are_bitstream (n : nat) :
  forall bits,
  String.length bits = (8 * n)%nat -> is_bits bits = true ->
  exists bytes, bits = bitstream_of bytes /\ List.length bytes = n.
Proof.
  induction n as [| n IH]; intros bits Hlen Hbits.
  - destruct bits; [| discriminate Hlen]. exists []. split; reflexivity.
  - replace (8 * S n)%nat with (S (S (S (S (S (S (S (S (8 * n))))))))) in Hlen by lia.
    do 8 (destruct bits as [| ? bits]; [discriminate Hlen |]).
    cbn [String.length] in Hlen. do 8 apply Nat.succ_inj in Hlen.
    match goal with
    | |- context [String ?a7 (String ?a6 (String ?a5 (String ?a4
           (String ?a3 (String ?a2 (String ?a1 (String ?a0 bits)))))))] =>
        set (c := String a7 (String a6 (String a5 (String a4
                    (String a3 (String a2 (String a1 (String a0 "")))))))) in *;
        change (String a7 (String a6 (String a5 (String a4
                  (String a3 (String a2 (String a1 (String a0 bits))))))))
          with (c ++ bits)%string in *
    end.
    rewrite is_bits_app in Hbits. apply andb_true_iff in Hbits.
    destruct Hbits as [Hc Hrest].
    destruct (IH bits Hlen Hrest) as [bytes [-> Hn]].
    exists (byte_of_digits c :: bytes). split; [| cbn [List.length]; lia].
    cbn [bitstream_of fold_right]. fold (bitstream_of bytes).
    rewrite <- (digits_are_format_08b c eq_refl Hc). reflexivity.
Qed.

Lemma zeros_spec (n : Z) :
  is_bits (zeros n) = true /\ String.length (zeros n) = Z.to_nat n.
Proof.
  unfold zeros. induction (Z.to_nat n) as [| k IH]; [split; reflexivity |].
  cbn [repeat fold_right is_bits String.length]. destruct IH as [-> ->].
  split; reflexivity.
Qed.

Lemma pack_bits_padded (bits : string) :
  is_bits bits = true ->
  let padded := (bits ++ zeros ((8 - str_len bits mod 8) mod 8))%string in
  exists bytes,
    pack_bits padded = Ok bytes /\
    bitstream_of bytes = padded /\
    8 * Py.len bytes = str_len padded.
Proof.
  intros Hbits padded.
  set (padding := (8 - str_len bits mod 8) mod 8) in *.
  destruct (zeros_spec padding) as [Hz Hzl].
  assert (Hpad : 0 <= padding < 8) by (apply Z.mod_pos_bound; lia).
  assert (Hlen : str_len padded = str_len bits + padding).
  { unfold padded, str_len. rewrite str_length_app, Hzl. lia. }
  assert (Hmul : str_len padded mod 8 = 0).
  { rewrite Hlen. unfold padding. Z.div_mod_to_equations. lia. }
  assert (Hexact : String.length padded = (8 * Z.to_nat (str_len padded / 8))%nat).
  { unfold str_len in *. Z.div_mod_to_equations. lia. }
  assert (Hpb : is_bits padded = true).
  { unfold padded. rewrite is_bits_app, Hbits, Hz. reflexivity. }
  destruct (digits_are_bitstream _ padded Hexact Hpb) as [bytes [Hb Hn]].
  exists bytes. rewrite Hb. split; [apply pack_bits_bitstream |].
  split; [reflexivity |].
  rewrite <- Hb. unfold Py.len. rewrite Hn. unfold str_len in *.
  Z.div_mod_to_equations. lia.
Qed.

(* ================================================================== *)
(** * The stages of [compress_file] *)

Lemma covers_count (data : list byte) (p : Z) (codewords : list Codeword) :
  covers data p codewords -> p + Z.of_nat (List.length codewords) <= Py.len data.
Proof.
  induction 1 as [| p cw rest H0 Hc Hcov IH]; cbn [List.length]; lia.
Qed.

Lemma matcher_codewords_fit (data : list byte) (codewords : list Codeword) :
  Forall (fun cw => exists q, codeword_for_position 32768 data q = Ok cw) codewords ->
  Forall fits_HHB codewords.
Proof.
  intros H. apply Forall_forall. intros cw Hin.
  rewrite Forall_forall in H. destruct (H cw Hin) as [q Hq].
  destruct (codeword_for_position_shape 32768 data q cw Hq)
    as [[Ho [Hl _]] | [Ho [Hl [Hcap _]]]]; unfold fits_HHB; lia.
Qed.

Lemma write_loop_dichotomy (freq : list (byte * Z)) (keys : list byte) :
  forall acc,
  (exists res,
      foldM (fun f_out byte_key =>
               let count := dict_get_default Byte.eqb freq byte_key 0 in
               counter <- to_bytes4 count ;;
               Ok (f_out ++ counter)) keys acc = Ok res /\
      forall k, In k keys ->
                0 <= dict_get_default Byte.eqb freq k 0 < 4294967296) \/
  (foldM (fun f_out byte_key =>
            let count := dict_get_default Byte.eqb freq byte_key 0 in
            counter <- to_bytes4 count ;;
            Ok (f_out ++ counter)) keys acc = Raise OverflowError /\
   exists k, In k keys /\ ~ 0 <= dict_get_default Byte.eqb freq k 0 < 4294967296).
Proof.
  induction keys as [| k keys IH]; intros acc.
  - left. exists acc. split; [reflexivity | intros k []].
  - cbn [foldM]. cbv zeta.
    destruct (to_bytes4 (dict_get_default Byte.eqb freq k 0)) as [counter | e] eqn:Hto.
    + cbn [bind].
      assert (Hrange : 0 <= dict_get_default Byte.eqb freq k 0 < 4294967296).
      { unfold to_bytes4 in Hto.
        destruct (0 <=? dict_get_default Byte.eqb freq k 0) eqn:E0; [| discriminate Hto].
        destruct (dict_get_default Byte.eqb freq k 0 <? 4294967296) eqn:E1;
          [| discriminate Hto].
        apply Z.leb_le in E0. apply Z.ltb_lt in E1. lia. }
      destruct (IH (acc ++ counter)) as [[res [Hres Hall]] | [Hraise [k' [Hin Hbad]]]].
      * left. exists res. split; [exact Hres |].
        intros k' [<- | Hin]; [exact Hrange | apply Hall; exact Hin].
      * right. split; [exact Hraise |]. exists k'. split; [right; exact Hin | exact Hbad].
    + cbn [bind]. right.
      unfold to_bytes4 in Hto.
      destruct (0 <=? dict_get_default Byte.eqb freq k 0) eqn:E0;
        [destruct (dict_get_default Byte.eqb freq k 0 <? 4294967296) eqn:E1 |];
        cbn [andb] in Hto; try discriminate Hto; injection Hto as <-.
      * split; [reflexivity |]. exists k. split; [left; reflexivity |].
        apply Z.ltb_ge in E1. lia.
      * split; [reflexivity |]. exists k. split; [left; reflexivity |].
        apply Z.leb_gt in E0. lia.
Qed.

Lemma write_header_dichotomy (freq : list (byte * Z)) :
  (exists header, write_header freq = Ok header /\
                  forall k, 0 <= dict_get_default Byte.eqb freq k 0 < 4294967296) \/
  (write_header freq = Raise OverflowError /\
   exists k, ~ 0 <= dict_get_default Byte.eqb freq k 0 < 4294967296).
Proof.
  unfold write_header.
  destruct (write_loop_dichotomy freq all_bytes [])
    as [[res [Hres Hall]] | [Hraise [k [_ Hbad]]]].
  - left. exists res. split; [exact Hres |].
    intros k. apply Hall.
    assert (Hnth : nth_error all_bytes (Z.to_nat (byte_to_Z k)) = Some k).
    { unfold all_bytes. rewrite nth_error_map, nth_error_range
        by (pose proof (byte_to_Z_range k); lia).
      cbn [option_map]. rewrite Z.add_0_l, Z2Nat.id by (pose proof (byte_to_Z_range k); lia).
      rewrite byte_of_to_Z. reflexivity. }
    apply nth_error_In in Hnth. exact Hnth.
  - right. split; [exact Hraise |]. exists k. exact Hbad.
Qed.

(** The intermediate values of a run of [compress_file]. *)
Lemma compress_file_stages (data : list byte) :
  exists codewords table bits payload,
    compress_codewords data = Ok codewords /\
    covers data 0 codewords /\
    replay codewords = Ok data /\
    Forall fits_HHB codewords /\
    serialize codewords = Ok (flat_map record_of codewords) /\
    build_codes (Counter (flat_map record_of codewords)) = Ok table /\
    (if truthy table then encode (build_codec table) (flat_map record_of codewords)
     else Ok EmptyString) = Ok bits /\
    is_bits bits = true /\
    (truthy table = false -> codewords = []) /\
    (forall rest,
        (if truthy table then decode (build_codec table) (bits ++ rest) else [])
        = flat_map record_of codewords
          ++ (if truthy table then decode (build_codec table) rest else [])) /\
    bitstream_of payload = (bits ++ zeros ((8 - str_len bits mod 8) mod 8))%string /\
    8 * Py.len payload = str_len bits + (8 - str_len bits mod 8) mod 8 /\
    compress_file data
    = (header <- write_header (Counter (flat_map record_of codewords)) ;;
       Ok (header ++ payload)).
Proof.
  destruct (Lz77_compress_spec 32768 data) as [cws [Hc [Hcov [Hrep Hall]]]].
  rewrite <- compress_codewords_generator in Hc.
  pose proof (matcher_codewords_fit data cws Hall) as Hfit.
  assert (Hser : serialize cws = Ok (flat_map record_of cws)).
  { destruct (serialize_dichotomy cws) as [[Hs _] | [_ Hex]]; [exact Hs |].
    exfalso. apply Exists_exists in Hex. destruct Hex as [cw [Hin Hno]].
    rewrite Forall_forall in Hfit. exact (Hno (Hfit cw Hin)). }
  destruct (build_codes_encode (flat_map record_of cws))
    as [table [bits [Hbc [Henc [Hbits [Hempty Hdec]]]]]].
  destruct (pack_bits_padded bits Hbits) as [payload [Hpack [Hstream Hlen]]].
  cbv zeta in Hpack, Hstream, Hlen.
  exists cws, table, bits, payload.
  split; [exact Hc |]. split; [exact Hcov |]. split; [exact Hrep |].
  split; [exact Hfit |]. split; [exact Hser |]. split; [exact Hbc |].
  split; [exact Henc |]. split; [exact Hbits |]. split.
  { intros Hf. apply Hempty in Hf. destruct cws as [| cw cws']; [reflexivity |].
    discriminate Hf. }
  split; [exact Hdec |]. split; [exact Hstream |]. split.
  { rewrite Hlen. unfold str_len. rewrite str_length_app.
    destruct (zeros_spec ((8 - Z.of_nat (String.length bits) mod 8) mod 8)) as [_ ->].
    pose proof (Z.mod_pos_bound (8 - Z.of_nat (String.length bits) mod 8) 8 ltac:(lia)).
    lia. }
  unfold compress_file. rewrite Hc. cbn [bind]. rewrite Hser. cbn [bind].
  cbv zeta. rewrite Hbc. cbn [bind]. rewrite Henc. cbn [bind].
  rewrite Hpack. cbn [bind]. reflexivity.
Qed.

(** What [decompress_file] does with an output of [compress_file]: it
    parses the records of the codewords followed by whatever the padding
    bits decode to. *)
Lemma decompress_compressed (data out : list byte) :
  compress_file data = Ok out ->
  exists codewords table bits,
    compress_codewords data = Ok codewords /\
    replay codewords = Ok data /\
    Forall fits_HHB codewords /\
    build_codes (Counter (flat_map record_of codewords)) = Ok table /\
    (if truthy table then encode (build_codec table) (flat_map record_of codewords)
     else Ok EmptyString) = Ok bits /\
    Py.len out = 1024 + (str_len bits + (8 - str_len bits mod 8) mod 8) / 8 /\
    (forall k, header_count (firstn 1024 out) (byte_to_Z k)
               = Z.of_nat (count_occ Byte.byte_eq_dec (flat_map record_of codewords) k)) /\
    bitstream_of (skipn 1024 out)
    = (bits ++ zeros ((8 - str_len bits mod 8) mod 8))%string /\
    let extra := if truthy table
                 then decode (build_codec table) (zeros ((8 - str_len bits mod 8) mod 8))
                 else [] in
    decompress_file out
    = (parsed <- parse_codewords
                   (range_step (Py.len (flat_map record_of codewords ++ extra)) 5)
                   (flat_map record_of codewords ++ extra) [] ;;
       replay parsed).
Proof.
  intros Hout.
  destruct (compress_file_stages data)
    as [cws [table [bits [payload [Hc [_ [Hrep [Hfit [_ [Hbc [Henc [_ [_ [Hdec
       [Hstream [Hlen Hfile]]]]]]]]]]]]]]]].
  rewrite Hfile in Hout. inv_bind Hout. injection Hout as <-.
  rename v into header. rename Hv into Hheader.
  exists cws, table, bits.
  split; [exact Hc |]. split; [exact Hrep |]. split; [exact Hfit |].
  split; [exact Hbc |]. split; [exact Henc |].
  assert (H1024 : List.length header = 1024%nat).
  { destruct (header_count_written _ _ payload 0 Hheader ltac:(lia)) as [_ H]. exact H. }
  assert (Hskip : skipn 1024 (header ++ payload) = payload).
  { rewrite skipn_app, H1024, Nat.sub_diag, skipn_all2 by lia. reflexivity. }
  split.
  { rewrite len_app. unfold Py.len at 1. rewrite H1024.
    replace (Z.of_nat 1024) with 1024 by reflexivity.
    rewrite <- Hlen. rewrite Z.mul_comm, Z.div_mul by lia. reflexivity. }
  split.
  { intros k.
    destruct (header_count_written _ _ payload (byte_to_Z k) Hheader (byte_to_Z_range k))
      as [-> _].
    rewrite byte_of_to_Z. apply Counter_count. }
  rewrite Hskip. split; [exact Hstream |].
  cbv zeta. rewrite decompress_file_unfold, Hskip.
  rewrite (build_codes_order_independent _ _
             (read_written_header (flat_map record_of cws) header payload Hheader)).
  rewrite Hbc. cbv zeta. rewrite Hstream, Hdec. reflexivity.
Qed.

Lemma compress_file_outcome (data : list byte) :
  (exists out, compress_file data = Ok out) \/
  (compress_file data = Raise OverflowError /\ 4294967296 <= 5 * Py.len data).
Proof.
  destruct (compress_file_stages data)
    as [cws [table [bits [payload [Hc [Hcov [_ [_ [_ [_ [_ [_ [_ [_ [_ [_ Hfile]]]]]]]]]]]]]]]].
  rewrite Hfile.
  destruct (write_header_dichotomy (Counter (flat_map record_of cws)))
    as [[header [Hh _]] | [Hraise [k Hbad]]].
  - left. rewrite Hh. eexists. reflexivity.
  - right. rewrite Hraise. split; [reflexivity |].
    rewrite Counter_count in Hbad.
    pose proof (count_occ_bound Byte.byte_eq_dec k (flat_map record_of cws)) as Hb.
    rewrite (length_flat_map_const record_of 5) in Hb by reflexivity.
    pose proof (covers_count data 0 cws Hcov). lia.
Qed.

(* ================================================================== *)
(** * The pipeline (X4-X6) *)

(** X4.  [compress_file] raises nothing but [OverflowError], and that
    only on an input of at least 2^32 / 5 bytes (a counter of the header
    that does not fit four bytes): never [StructError] from
    [struct.pack], [KeyError] from [Codec.encode], [ValueError] from the
    bit packing or [IndexError] from the matcher. *)
Theorem compress_file_raises_only_OverflowError (data : list byte) :
  (exists out, compress_file data = Ok out) \/
  (compress_file data = Raise OverflowError /\ 4294967296 <= 5 * Py.len data).
Proof.
  exact (compress_file_outcome data).
Qed.

(** X5.  The shape of a compressed file.  The output is the 1024-byte
    header followed by the payload; counter [k] of the header is the
    number of bytes [k] in the serialized records of the codewords; the
    payload holds the code bits of the records followed by zero bits up
    to the next multiple of 8, so the file is 1024 + ceil(bits / 8) bytes
    long. *)
Theorem compressed_file_layout (data out : list byte) :
  compress_file data = Ok out ->
  exists codewords table bits,
    compress_codewords data = Ok codewords /\
    build_codes (Counter (flat_map record_of codewords)) = Ok table /\
    (if truthy table then encode (build_codec table) (flat_map record_of codewords)
     else Ok EmptyString) = Ok bits /\
    Py.len out = 1024 + (str_len bits + (8 - str_len bits mod 8) mod 8) / 8 /\
    (forall k, header_count (firstn 1024 out) (byte_to_Z k)
               = Z.of_nat (count_occ Byte.byte_eq_dec (flat_map record_of codewords) k)) /\
    bitstream_of (skipn 1024 out)
    = (bits ++ zeros ((8 - str_len bits mod 8) mod 8))%string.
Proof.
  intros Hout.
  destruct (decompress_compressed data out Hout)
    as [cws [table [bits [Hc [_ [_ [Hbc [Henc [Hlen [Hcount [Hstream _]]]]]]]]]]].
  exists cws, table, bits. auto 10.
Qed.

Lemma compressed_file_layout_witness :
  exists out,
    compress_file (bytes_of "X") = Ok out /\
    exists codewords table bits,
      compress_codewords (bytes_of "X") = Ok codewords /\
      build_codes (Counter (flat_map record_of codewords)) = Ok table /\
      (if truthy table then encode (build_codec table) (flat_map record_of codewords)
       else Ok EmptyString) = Ok bits /\
      Py.len out = 1024 + (str_len bits + (8 - str_len bits mod 8) mod 8) / 8 /\
      (forall k, header_count (firstn 1024 out) (byte_to_Z k)
                 = Z.of_nat (count_occ Byte.byte_eq_dec (flat_map record_of codewords) k)) /\
      bitstream_of (skipn 1024 out)
      = (bits ++ zeros ((8 - str_len bits mod 8) mod 8))%string.
Proof.
  destruct (compress_file (bytes_of "X")) as [out | e] eqn:E;
    [| vm_compute in E; discriminate E].
  exists out. split; [reflexivity |].
  exact (compressed_file_layout (bytes_of "X") out E).
Defined.

(** X6.  The round trip holds whenever the payload needs fewer than five
    padding bits: if [compress_file] returns [out] and the code bits of
    the record stream ([bits], as [compress_file] computes them) leave a
    padding of at most four zero bits, then [decompress_file] on [out]
    returns the input.  (The padding decodes to at most one symbol per
    bit, and fewer than five trailing symbols are dropped as an
    incomplete record.) *)
Theorem roundtrip_with_short_padding
        (data out : list byte) (codewords : list Codeword)
        (table : list (byte * string)) (bits : string) :
  compress_file data = Ok out ->
  compress_codewords data = Ok codewords ->
  build_codes (Counter (flat_map record_of codewords)) = Ok table ->
  (if truthy table then encode (build_codec table) (flat_map record_of codewords)
   else Ok EmptyString) = Ok bits ->
  (8 - str_len bits mod 8) mod 8 < 5 ->
  decompress_file out = Ok data.
Proof.
  intros Hout Hc0 Hbc0 Henc0 Hpad.
  destruct (decompress_compressed data out Hout)
    as [cws [tbl [bts [Hc [Hrep [Hfit [Hbc [Henc [_ [_ [_ Hdec]]]]]]]]]]].
  rewrite Hc0 in Hc. injection Hc as <-.
  rewrite Hbc0 in Hbc. injection Hbc as <-.
  rewrite Henc0 in Henc. injection Henc as <-.
  cbv zeta in Hdec. rewrite Hdec.
  set (padding := (8 - str_len bits mod 8) mod 8) in *.
  set (extra := if truthy table then decode (build_codec table) (zeros padding) else []).
  assert (Hextra : (List.length extra < 5)%nat).
  { unfold extra. destruct (truthy table); [| simpl; lia].
    pose proof (decode_length_le (build_codec table) (zeros padding)) as Hle.
    destruct (zeros_spec padding) as [_ Hz]. rewrite Hz in Hle.
    assert (0 <= padding) by (apply Z.mod_pos_bound; lia). lia. }
  pose proof (parse_serialized codewords extra Hfit Hextra) as Hparse.
  cbv zeta in Hparse. rewrite Hparse. cbn [bind]. exact Hrep.
Qed.

Lemma roundtrip_with_short_padding_witness :
  exists out,
    compress_file (bytes_of "X") = Ok out /\
    compress_codewords (bytes_of "X") = Ok [mkCodeword 0 0 "X"%byte] /\
    build_codes (Counter (flat_map record_of [mkCodeword 0 0 "X"%byte]))
    = Ok [("X"%byte, "0"%string); (x00, "1"%string)] /\
    encode (build_codec [("X"%byte, "0"%string); (x00, "1"%string)])
           (flat_map record_of [mkCodeword 0 0 "X"%byte]) = Ok "11110"%string /\
    (8 - str_len "11110" mod 8) mod 8 < 5 /\
    decompress_file out = Ok (bytes_of "X").
Proof.
  destruct (compress_file (bytes_of "X")) as [out | e] eqn:E;
    [| vm_compute in E; discriminate E].
  assert (H1 : compress_codewords (bytes_of "X") = Ok [mkCodeword 0 0 "X"%byte])
    by (vm_compute; reflexivity).
  assert (H2 : build_codes (Counter (flat_map record_of [mkCodeword 0 0 "X"%byte]))
               = Ok [("X"%byte, "0"%string); (x00, "1"%string)])
    by (vm_compute; reflexivity).
  assert (H3 : (if truthy [("X"%byte, "0"%string); (x00, "1"%string)]
                then encode (build_codec [("X"%byte, "0"%string); (x00, "1"%string)])
                            (flat_map record_of [mkCodeword 0 0 "X"%byte])
                else Ok EmptyString) = Ok "11110"%string)
    by (vm_compute; reflexivity).
  assert (H4 : (8 - str_len "11110" mod 8) mod 8 < 5) by (vm_compute; reflexivity).
  exists out. split; [reflexivity |]. split; [exact H1 |]. split; [exact H2 |].
  split; [exact H3 |]. split; [exact H4 |].
  exact (roundtrip_with_short_padding (bytes_of "X") out _ _ _ E H1 H2 H3 H4).
Defined.

(* ================================================================== *)
(** * Outcomes of the decompressor *)








(** ** Replaying valid back-references *)

(** A copy from a start inside the output: every byte asked for is
    copied, and each copied byte equals the byte [offset] places before
    it, also when that byte was itself copied by the same token. *)
Lemma copy_loop_valid (before offset : Z) (n : nat) :
  forall i buffer,
  1 <= offset <= before -> 0 <= i ->
  Py.len buffer = before + i ->
  exists copied,
    copy_loop (Py.range i (i + Z.of_nat n)) (before - offset) buffer
    = Ok (buffer ++ copied) /\
    Py.len copied = Z.of_nat n /\
    forall j, i <= j < i + Z.of_nat n ->
              exists b, byte_at (buffer ++ copied) (before + j) = Some b /\
                        byte_at (buffer ++ copied) (before + j - offset) = Some b.
Proof.
  induction n as [| n IH]; intros i buffer Hoff Hi Hlen.
  - exists []. rewrite range_empty by lia. cbn [copy_loop]. rewrite app_nil_r.
    split; [reflexivity |]. split; [reflexivity |]. intros j Hj. lia.
  - replace (Z.of_nat (S n)) with (1 + Z.of_nat n) by lia.
    rewrite range_cons by lia. cbn [copy_loop].
    replace (before - offset + i >=? Py.len buffer) with false
      by (symmetry; destruct (Z.geb_spec (before - offset + i) (Py.len buffer));
          [lia | reflexivity]).
    destruct (getitem_in_range buffer (before - offset + i)) as [b [Gb Nb]]; [lia |].
    rewrite Gb. cbn [bind].
    replace (i + (1 + Z.of_nat n)) with (i + 1 + Z.of_nat n) by lia.
    destruct (IH (i + 1) (buffer ++ [b]) Hoff ltac:(lia)) as [copied [Hcopy [Hclen Hper]]].
    { rewrite len_app. unfold Py.len at 2. simpl List.length. lia. }
    exists (b :: copied). rewrite <- app_assoc in Hcopy. cbn [app] in Hcopy.
    split; [exact Hcopy |].
    split; [unfold Py.len in *; cbn [List.length]; lia |].
    intros j Hj. destruct (Z.eq_dec j i) as [-> | Hne].
    + exists b. unfold byte_at. split.
      * rewrite nth_error_app2 by (unfold Py.len in Hlen; lia).
        replace (Z.to_nat (before + i) - List.length buffer)%nat with 0%nat
          by (unfold Py.len in Hlen; lia).
        reflexivity.
      * rewrite nth_error_app1 by (unfold Py.len in Hlen; lia).
        replace (before + i - offset) with (before - offset + i) by lia. exact Nb.
    + destruct (Hper j ltac:(lia)) as [b' [H1 H2]].
      rewrite <- app_assoc in H1, H2. cbn [app] in H1, H2.
      exists b'. split; assumption.
Qed.

Lemma decompress_codeword_valid (buffer : list byte) (cw : Codeword) :
  1 <= prefix_start_offset cw <= Py.len buffer ->
  0 <= prefix_len cw ->
  exists copied,
    decompress_codeword buffer cw = Ok (buffer ++ copied ++ [character cw]) /\
    Py.len copied = prefix_len cw /\
    forall j, 0 <= j < prefix_len cw ->
              exists b,
                byte_at (buffer ++ copied) (Py.len buffer + j) = Some b /\
                byte_at (buffer ++ copied)
                        (Py.len buffer + j - prefix_start_offset cw) = Some b.
Proof.
  intros Hoff Hlen. unfold decompress_codeword. cbv zeta.
  replace (prefix_start_offset cw >? 0) with true by (symmetry; apply Z.gtb_lt; lia).
  destruct (copy_loop_valid (Py.len buffer) (prefix_start_offset cw)
              (Z.to_nat (prefix_len cw)) 0 buffer Hoff ltac:(lia) ltac:(lia))
    as [copied [Hcopy [Hclen Hper]]].
  rewrite Z2Nat.id, Z.add_0_l in * by lia.
  exists copied. rewrite Hcopy. cbn [bind]. rewrite <- app_assoc.
  split; [reflexivity |]. split; [exact Hclen |]. exact Hper.
Qed.

(** The length of what [replay] returns. *)
Lemma replay_from_length (codewords : list Codeword) :
  forall buffer out,
  foldM decompress_codeword codewords buffer = Ok out ->
  Py.len out = Py.len buffer + fold_right Z.add 0 (map replayed_bytes codewords).
Proof.
  induction codewords as [| cw cws IH]; intros buffer out H; cbn [foldM] in H.
  - injection H as <-. simpl. lia.
  - inv_bind H. rewrite (IH _ _ H). cbn [map fold_right].
    assert (Hstep : Py.len v = Py.len buffer + replayed_bytes cw).
    { unfold replayed_bytes.
      destruct (prefix_start_offset cw >? 0) eqn:Hoff.
      - apply Z.gtb_lt in Hoff.
        rewrite (decompress_codeword_never_truncates buffer v cw) by (lia || exact Hv).
        lia.
      - unfold decompress_codeword in Hv. rewrite Hoff in Hv. cbn [bind] in Hv.
        injection Hv as <-. rewrite len_app. unfold Py.len at 2. simpl List.length. lia. }
    lia.
Qed.

(* ================================================================== *)
(** * Edge cases of the matcher *)

Section MatcherEdges.

Variable W : Z.
Variable buffer : list byte.

Lemma longest_match_none (p : Z) :
  (forall o, 1 <= o <= Z.min p W ->
             Py.len buffer <= p \/ byte_at buffer (p - o) <> byte_at buffer p) ->
  longest_match W buffer p = Ok (0, 0).
Proof.
  intros Hno.
  destruct (longest_match_spec W buffer p) as [L [o [Hm [H0 [_ [Hpos Hzero]]]]]].
  destruct (Z.eq_dec L 0) as [-> | Hne].
  - rewrite (Hzero eq_refl) in Hm. exact Hm.
  - exfalso. destruct (Hpos ltac:(lia)) as [Ho [Hrun _]].
    destruct (run_length_bounds buffer p o L ltac:(lia) Hrun) as [_ [_ Heq]].
    destruct (Heq 0 ltac:(lia)) as [Hin Hsame].
    rewrite !Z.add_0_r in *.
    destruct (Hno o Ho) as [Hend | Hdiff]; [lia | exact (Hdiff Hsame)].
Qed.

Lemma codeword_literal_when_no_match (p : Z) :
  (forall o, 1 <= o <= Z.min p W ->
             Py.len buffer <= p \/ byte_at buffer (p - o) <> byte_at buffer p) ->
  codeword_for_position W buffer p = (c <- Py.getitem buffer p ;; Ok (literal c)).
Proof.
  intros Hno. unfold codeword_for_position.
  rewrite (longest_match_none p Hno). reflexivity.
Qed.

Lemma codeword_outside_buffer (p : Z) :
  (Py.len buffer <= p -> codeword_for_position W buffer p = Raise IndexError) /\
  (p < - Py.len buffer -> codeword_for_position W buffer p = Raise IndexError) /\
  (- Py.len buffer <= p < 0 ->
   exists c, byte_at buffer (p + Py.len buffer) = Some c /\
             codeword_for_position W buffer p = Ok (literal c)).
Proof.
  pose proof (len_nonneg buffer) as Hlen.
  split; [| split]; intros Hp.
  - rewrite codeword_literal_when_no_match by (intros o Ho; left; exact Hp).
    unfold Py.getitem. cbv zeta.
    replace (p <? 0) with false by (symmetry; apply Z.ltb_ge; lia).
    replace (Py.len buffer <=? p) with true by (symmetry; apply Z.leb_le; lia).
    rewrite orb_true_r. reflexivity.
  - rewrite codeword_literal_when_no_match by (intros o Ho; lia).
    unfold Py.getitem. cbv zeta.
    replace (p <? 0) with true by (symmetry; apply Z.ltb_lt; lia).
    replace (p + Py.len buffer <? 0) with true by (symmetry; apply Z.ltb_lt; lia).
    reflexivity.
  - rewrite codeword_literal_when_no_match by (intros o Ho; lia).
    unfold Py.getitem. cbv zeta.
    replace (p <? 0) with true by (symmetry; apply Z.ltb_lt; lia).
    replace (p + Py.len buffer <? 0) with false by (symmetry; apply Z.ltb_ge; lia).
    replace (Py.len buffer <=? p + Py.len buffer) with false
      by (symmetry; apply Z.leb_gt; lia).
    cbn [orb].
    destruct (nth_error buffer (Z.to_nat (p + Py.len buffer))) as [c |] eqn:E.
    + exists c. split; [exact E | reflexivity].
    + apply nth_error_None in E. unfold Py.len in *. lia.
Qed.

Lemma codeword_first_occurrence (p : Z) :
  0 <= p < Py.len buffer ->
  (forall o, 1 <= o <= Z.min p W -> byte_at buffer (p - o) <> byte_at buffer p) ->
  exists c, byte_at buffer p = Some c /\
            codeword_for_position W buffer p = Ok (literal c).
Proof.
  intros Hp Hno.
  rewrite codeword_literal_when_no_match by (intros o Ho; right; apply Hno; exact Ho).
  destruct (getitem_in_range buffer p Hp) as [c [Gc Nc]].
  exists c. rewrite Gc. split; [exact Nc | reflexivity].
Qed.

End MatcherEdges.

Lemma skipn_nth_cons (data : list byte) (n : nat) (b : byte) :
  nth_error data n = Some b -> skipn n data = b :: skipn (S n) data.
Proof.
  revert data. induction n as [| n IH]; intros [| x data] H; simpl in H;
    try discriminate H.
  - injection H as ->. reflexivity.
  - cbn [skipn]. apply IH. exact H.
Qed.

Lemma Lz77_run_literals (W : Z) (data : list byte) (fuel : nat) :
  (forall p o, 0 <= p < Py.len data -> 1 <= o <= Z.min p W ->
               byte_at data (p - o) <> byte_at data p) ->
  forall p,
  0 <= p <= Py.len data ->
  (Z.to_nat (Py.len data - p) <= fuel)%nat ->
  Lz77_run fuel W data p = Ok (map literal (skipn (Z.to_nat p) data)).
Proof.
  intros Hno. induction fuel as [| fuel IH]; intros p Hp Hfuel.
  - assert (p = Py.len data) by lia. subst p.
    cbn [Lz77_run]. unfold Lz77_next. rewrite Z.ltb_irrefl. cbn [bind].
    unfold Py.len. rewrite Nat2Z.id, skipn_all. reflexivity.
  - cbn [Lz77_run]. unfold Lz77_next.
    destruct (p <? Py.len data) eqn:Hlt.
    + apply Z.ltb_lt in Hlt.
      assert (Hin : 0 <= p < Py.len data) by lia.
      destruct (codeword_first_occurrence W data p Hin (fun o => Hno p o Hin)) as [c [Nc Hcw]].
      rewrite Hcw. cbn [bind literal prefix_len].
      rewrite Z.add_0_r, IH by lia. cbn [bind].
      unfold byte_at in Nc. rewrite (skipn_nth_cons data _ c Nc).
      replace (S (Z.to_nat p)) with (Z.to_nat (p + 1)) by lia. reflexivity.
    + apply Z.ltb_ge in Hlt. assert (p = Py.len data) by lia. subst p.
      cbn [bind]. unfold Py.len. rewrite Nat2Z.id, skipn_all. reflexivity.
Qed.

Lemma NoDup_bytes_differ (data : list byte) (i j : Z) :
  NoDup data -> 0 <= i < j -> j < Py.len data ->
  byte_at data i <> byte_at data j.
Proof.
  intros Hnd Hij Hj E. unfold byte_at in E.
  assert (Hlt : (Z.to_nat i < List.length data)%nat) by (unfold Py.len in Hj; lia).
  pose proof (proj1 (NoDup_nth_error data) Hnd (Z.to_nat i) (Z.to_nat j) Hlt E). lia.
Qed.

Lemma Lz77_compress_literals (W : Z) (data : list byte) :
  W <= 0 \/ NoDup data ->
  Lz77_compress W data = Ok (map literal data).
Proof.
  intros Hcase. unfold Lz77_compress.
  rewrite (Lz77_run_literals W data (List.length data)).
  - reflexivity.
  - intros p o Hp Ho. destruct Hcase as [HW | Hnd]; [lia |].
    apply NoDup_bytes_differ; [exact Hnd | lia | lia].
  - pose proof (len_nonneg data). lia.
  - unfold Py.len. lia.
Qed.

Lemma replay_from_literals (bytes : list byte) :
  forall buffer, foldM decompress_codeword (map literal bytes) buffer = Ok (buffer ++ bytes).
Proof.
  induction bytes as [| b bytes IH]; intros buffer; cbn [map foldM].
  - rewrite app_nil_r. reflexivity.
  - unfold decompress_codeword at 1. cbn [literal prefix_start_offset character bind].
    change (0 >? 0) with false. cbn [bind]. rewrite IH, <- app_assoc. reflexivity.
Qed.

Lemma covers_total_span (data : list byte) (p : Z) (codewords : list Codeword) :
  covers data p codewords ->
  p + fold_right Z.add 0 (map (fun cw => prefix_len cw + 1) codewords) = Py.len data.
Proof.
  induction 1 as [| p cw rest H0 Hc Hcov IH]; cbn [map fold_right]; lia.
Qed.

Lemma Lz77_compress_bounds (W : Z) (data : list byte) :
  exists codewords,
    Lz77_compress W data = Ok codewords /\
    (List.length codewords <= List.length data)%nat /\
    fold_right Z.add 0 (map (fun cw => prefix_len cw + 1) codewords) = Py.len data /\
    Forall (fun cw => 0 <= prefix_start_offset cw <= Z.max 0 W /\
                      0 <= prefix_len cw <= 258 /\
                      (prefix_start_offset cw = 0 -> prefix_len cw = 0))
           codewords.
Proof.
  destruct (Lz77_compress_spec W data) as [cws [Hc [Hcov [_ Hall]]]].
  exists cws. split; [exact Hc |]. split; [| split].
  - pose proof (covers_count data 0 cws Hcov) as H. unfold Py.len in H. lia.
  - pose proof (covers_total_span data 0 cws Hcov) as H. lia.
  - apply Forall_forall. intros cw Hin.
    rewrite Forall_forall in Hall. destruct (Hall cw Hin) as [q Hq].
    destruct (codeword_for_position_shape W data q cw Hq)
      as [[Ho [Hl _]] | [Ho [Hl [Hcap _]]]]; lia.
Qed.

(* ================================================================== *)
(** * The shape of Huffman codes *)

(** The codes after one merge. *)
Lemma merge_codes (symbols : list byte) (f1 f2 : Z) (g1 g2 : list byte)
      (rest : list item) (table : list (byte * string)) :
  heap_inv symbols ((f1, g1) :: (f2, g2) :: rest) table ->
  let merged := fold_left (prepend "1") g2 (fold_left (prepend "0") g1 table) in
  (forall s, In s g1 -> code_of merged s = String "0" (code_of table s)) /\
  (forall s, In s g2 -> code_of merged s = String "1" (code_of table s)) /\
  (forall s, In s (heap_symbols rest) -> code_of merged s = code_of table s).
Proof.
  intros [Hnd _ _ _ _] merged.
  unfold heap_symbols in Hnd. simpl in Hnd. fold (heap_symbols rest) in Hnd.
  assert (Hnd1 : NoDup g1) by (apply NoDup_app_remove_r in Hnd; exact Hnd).
  assert (Hnd23 : NoDup (g2 ++ heap_symbols rest))
    by (apply NoDup_app_remove_l in Hnd; exact Hnd).
  assert (Hnd2 : NoDup g2) by (apply NoDup_app_remove_r in Hnd23; exact Hnd23).
  assert (H12 : forall s, In s g1 -> ~ In s g2).
  { intros s H1 H2. apply (NoDup_app_disjoint _ _ Hnd s H1).
    apply in_or_app. left; exact H2. }
  assert (H1r : forall s, In s g1 -> ~ In s (heap_symbols rest)).
  { intros s H1 H2. apply (NoDup_app_disjoint _ _ Hnd s H1).
    apply in_or_app. right; exact H2. }
  assert (H2r : forall s, In s g2 -> ~ In s (heap_symbols rest)).
  { intros s H1 H2. exact (NoDup_app_disjoint _ _ Hnd23 s H1 H2). }
  unfold merged, code_of, dict_get_default.
  split; [| split]; intros s Hs.
  - rewrite fold_prepend_notin by (apply H12; exact Hs).
    rewrite fold_prepend_in by assumption. reflexivity.
  - rewrite fold_prepend_in by assumption.
    unfold code_of, dict_get_default.
    rewrite fold_prepend_notin; [reflexivity |]. intros H1. exact (H12 s H1 Hs).
  - rewrite !fold_prepend_notin; [reflexivity | |].
    + intros H1. exact (H1r s H1 Hs).
    + intros H2. exact (H2r s H2 Hs).
Qed.

(** Induction over the merge loop for an invariant kept by one merge. *)
Lemma huffman_while_invariant (symbols : list byte)
      (Q : list item -> list (byte * string) -> Prop) :
  (forall f1 g1 f2 g2 rest table,
      heap_inv symbols ((f1, g1) :: (f2, g2) :: rest) table ->
      Q ((f1, g1) :: (f2, g2) :: rest) table ->
      Q (heappush rest (f1 + f2, g1 ++ g2))
        (fold_left (prepend "1") g2 (fold_left (prepend "0") g1 table))) ->
  forall fuel heap table table',
  huffman_while fuel heap table = Ok table' ->
  heap_inv symbols heap table -> Q heap table ->
  exists heap',
    heap_inv symbols heap' table' /\ Q heap' table' /\
    (List.length heap' <= 1)%nat /\ (heap <> [] -> heap' <> []).
Proof.
  intros Hstep. induction fuel as [| fuel IH]; intros heap table table' Hrun Hinv HQ.
  - destruct heap as [| a [| b rest]]; simpl in Hrun.
    + injection Hrun as <-. exists []. simpl. auto.
    + injection Hrun as <-. exists [a]. simpl. auto.
    + rewrite len_two_or_more in Hrun. discriminate Hrun.
  - destruct heap as [| [f1 g1] [| [f2 g2] rest]].
    + injection Hrun as <-. exists []. simpl. auto.
    + injection Hrun as <-. exists [(f1, g1)]. simpl. auto.
    + cbn [huffman_while] in Hrun. rewrite len_two_or_more in Hrun.
      cbn [heappop bind] in Hrun.
      destruct (IH _ _ _ Hrun (merge_step_inv _ _ _ _ _ _ _ Hinv)
                  (Hstep _ _ _ _ _ _ Hinv HQ))
        as [heap' [Hinv' [HQ' [Hlen' Hne']]]].
      exists heap'. split; [exact Hinv' |]. split; [exact HQ' |].
      split; [exact Hlen' |].
      intros _. apply Hne'. intros E.
      pose proof (heappush_length rest (f1 + f2, g1 ++ g2)) as Hl.
      rewrite E in Hl. discriminate Hl.
Qed.

Lemma kraft_sum_app (table : list (byte * string)) (depth : Z) (g1 g2 : list byte) :
  kraft_sum table depth (g1 ++ g2)
  = kraft_sum table depth g1 + kraft_sum table depth g2.
Proof.
  unfold kraft_sum. induction g1 as [| s g1 IH]; cbn [app fold_right]; [lia |].
  rewrite IH. lia.
Qed.

Lemma kraft_sum_ext (t1 t2 : list (byte * string)) (d1 d2 : Z) (g : list byte) :
  (forall s, In s g ->
             d1 - Z.of_nat (String.length (code_of t1 s))
             = d2 - Z.of_nat (String.length (code_of t2 s))) ->
  kraft_sum t1 d1 g = kraft_sum t2 d2 g.
Proof.
  unfold kraft_sum. induction g as [| s g IH]; intros Hext; cbn [fold_right];
    [reflexivity |].
  rewrite (Hext s (or_introl eq_refl)), IH; [reflexivity |].
  intros s' Hs'. apply Hext. right; exact Hs'.
Qed.

Lemma merge_keeps_groups_complete (symbols : list byte) (f1 f2 : Z) (g1 g2 : list byte)
      (rest : list item) (table : list (byte * string)) :
  heap_inv symbols ((f1, g1) :: (f2, g2) :: rest) table ->
  groups_complete ((f1, g1) :: (f2, g2) :: rest) table ->
  groups_complete (heappush rest (f1 + f2, g1 ++ g2))
                  (fold_left (prepend "1") g2 (fold_left (prepend "0") g1 table)).
Proof.
  intros Hinv HQ.
  destruct (merge_codes symbols f1 f2 g1 g2 rest table Hinv) as [C1 [C2 C3]].
  cbv zeta in C1, C2, C3.
  set (merged := fold_left (prepend "1") g2 (fold_left (prepend "0") g1 table)) in *.
  destruct (HQ (f1, g1) (or_introl eq_refl)) as [Hne1 [Hlen1 Hk1]].
  destruct (HQ (f2, g2) (or_intror (or_introl eq_refl))) as [Hne2 [Hlen2 Hk2]].
  cbn [snd] in *.
  assert (Hpos1 : (0 < List.length g1)%nat) by (destruct g1; [contradiction | simpl; lia]).
  assert (Hpos2 : (0 < List.length g2)%nat) by (destruct g2; [contradiction | simpl; lia]).
  intros it Hit. apply heappush_In in Hit. destruct Hit as [-> | Hit]; cbn [snd].
  - split; [| split].
    + destruct g1; [contradiction | discriminate].
    + intros s Hs. rewrite length_app. apply in_app_or in Hs. destruct Hs as [Hs | Hs].
      * rewrite (C1 s Hs). cbn [String.length]. pose proof (Hlen1 s Hs). lia.
      * rewrite (C2 s Hs). cbn [String.length]. pose proof (Hlen2 s Hs). lia.
    + intros depth Hdepth. rewrite kraft_sum_app.
      assert (Hd1 : forall s, In s g1 ->
                 Z.of_nat (String.length (code_of table s)) <= depth - 1).
      { intros s Hs. specialize (Hdepth s (in_or_app _ _ _ (or_introl Hs))).
        rewrite (C1 s Hs) in Hdepth. cbn [String.length] in Hdepth. lia. }
      assert (Hd2 : forall s, In s g2 ->
                 Z.of_nat (String.length (code_of table s)) <= depth - 1).
      { intros s Hs. specialize (Hdepth s (in_or_app _ _ _ (or_intror Hs))).
        rewrite (C2 s Hs) in Hdepth. cbn [String.length] in Hdepth. lia. }
      rewrite (kraft_sum_ext merged table depth (depth - 1) g1),
              (kraft_sum_ext merged table depth (depth - 1) g2).
      * rewrite (Hk1 (depth - 1) Hd1), (Hk2 (depth - 1) Hd2).
        assert (Hge : 0 <= depth - 1).
        { destruct g1 as [| s g1']; [contradiction |].
          pose proof (Hd1 s (or_introl eq_refl)). lia. }
        replace depth with (Z.succ (depth - 1)) at 3 by lia.
        rewrite Z.pow_succ_r by exact Hge. lia.
      * intros s Hs. rewrite (C2 s Hs). cbn [String.length]. lia.
      * intros s Hs. rewrite (C1 s Hs). cbn [String.length]. lia.
  - destruct (HQ it (or_intror (or_intror Hit))) as [Hne [Hlen Hk]].
    assert (Hsame : forall s, In s (snd it) -> code_of merged s = code_of table s).
    { intros s Hs. apply C3. apply (In_heap_symbols rest it s Hit Hs). }
    split; [exact Hne |]. split.
    + intros s Hs. rewrite (Hsame s Hs). apply Hlen. exact Hs.
    + intros depth Hdepth.
      rewrite (kraft_sum_ext merged table depth depth (snd it)).
      * apply Hk. intros s Hs. rewrite <- (Hsame s Hs). apply Hdepth. exact Hs.
      * intros s Hs. rewrite (Hsame s Hs). reflexivity.
Qed.

Lemma initial_groups_complete (frequencies : list (byte * Z)) :
  groups_complete (fold_left push_symbol frequencies []) [].
Proof.
  pose proof (initial_heap_spec frequencies []) as Hperm. cbv zeta in Hperm.
  rewrite app_nil_r in Hperm.
  intros it Hit. apply (Permutation_in it Hperm) in Hit.
  apply in_map_iff in Hit. destruct Hit as [[s f] [<- _]]. cbn [snd fst].
  split; [discriminate |]. split.
  - intros s' [<- | []]. simpl. lia.
  - intros depth _. unfold kraft_sum, code_of, dict_get_default.
    cbn [fold_right dict_get String.length]. change (Z.of_nat 0) with 0.
    rewrite Z.sub_0_r. lia.
Qed.

Lemma all_bytes_complete (k : byte) : In k all_bytes.
Proof.
  assert (Hnth : nth_error all_bytes (Z.to_nat (byte_to_Z k)) = Some k).
  { unfold all_bytes. rewrite nth_error_map, nth_error_range
      by (pose proof (byte_to_Z_range k); lia).
    cbn [option_map]. rewrite Z.add_0_l, Z2Nat.id by (pose proof (byte_to_Z_range k); lia).
    rewrite byte_of_to_Z. reflexivity. }
  apply nth_error_In in Hnth. exact Hnth.
Qed.

Lemma NoDup_bytes_length (l : list byte) : NoDup l -> (List.length l <= 256)%nat.
Proof.
  intros Hnd.
  assert (Hincl : incl l all_bytes) by (intros k _; apply all_bytes_complete).
  pose proof (NoDup_incl_length Hnd Hincl) as H.
  replace (List.length all_bytes) with 256%nat in H by (vm_compute; reflexivity).
  exact H.
Qed.

(** The codes of two symbols or more. *)
Lemma huffman_shape (frequencies : list (byte * Z)) (table : list (byte * string)) :
  (2 <= List.length frequencies)%nat ->
  NoDup (map fst frequencies) ->
  huffman frequencies = Ok table ->
  (forall s c, dict_get Byte.eqb table s = Some c ->
               (String.length c < List.length frequencies)%nat) /\
  (forall depth,
      (forall s c, dict_get Byte.eqb table s = Some c ->
                   Z.of_nat (String.length c) <= depth) ->
      kraft_sum table depth (map fst frequencies) = 2 ^ depth).
Proof.
  intros Hsize Hnd Ht.
  rewrite huffman_unfold in Ht. inv_bind Ht.
  assert (Ht' : table = v).
  { destruct frequencies as [| [s1 n1] [| kv2 rest]]; simpl in Hsize; try lia.
    injection Ht as <-. reflexivity. }
  subst v. clear Ht.
  destruct (huffman_while_invariant (map fst frequencies) groups_complete
              (fun f1 g1 f2 g2 =>
                 merge_keeps_groups_complete (map fst frequencies) f1 f2 g1 g2)
              _ _ _ _ Hv (initial_heap_inv frequencies Hnd)
              (initial_groups_complete frequencies))
    as [heap' [[Hnd' Hcover Hprefix Hcoded Hkeys] [HQ [Hlen Hnonempty]]]].
  assert (Hstart : fold_left push_symbol frequencies [] <> []).
  { intros E. pose proof (initial_heap_spec frequencies []) as Hp. cbv zeta in Hp.
    rewrite E in Hp. apply Permutation_nil in Hp.
    destruct frequencies; [simpl in Hsize; lia | discriminate Hp]. }
  specialize (Hnonempty Hstart).
  destruct heap' as [| it [| it2 heap'']];
    [contradiction Hnonempty; reflexivity | | simpl in Hlen; lia].
  unfold heap_symbols in Hcover, Hnd'. simpl in Hcover, Hnd'.
  rewrite app_nil_r in Hcover, Hnd'.
  destruct (HQ it (or_introl eq_refl)) as [_ [Hshort Hkraft]].
  assert (Hperm : Permutation (snd it) (map fst frequencies)).
  { apply NoDup_Permutation; [exact Hnd' | exact Hnd | exact Hcover]. }
  assert (Hcode : forall s c, dict_get Byte.eqb table s = Some c -> code_of table s = c).
  { intros s c H. unfold code_of, dict_get_default. rewrite H. reflexivity. }
  split.
  - intros s c Hc. rewrite <- (Hcode s c Hc).
    rewrite <- (length_map fst frequencies), <- (Permutation_length Hperm).
    apply Hshort. apply Hcover. exact (Hkeys s c Hc).
  - intros depth Hdepth.
    assert (Hsum : forall l1 l2, Permutation l1 l2 ->
                     kraft_sum table depth l1 = kraft_sum table depth l2).
    { intros l1 l2 Hp. unfold kraft_sum.
      induction Hp as [| x l l' _ IH | x y l | l l' l'' _ IH1 _ IH2]; cbn [fold_right]; lia. }
    rewrite <- (Hsum _ _ Hperm). apply Hkraft.
    intros s Hs.
    assert (Hsize' : (2 <= List.length (snd it))%nat).
    { rewrite (Permutation_length Hperm), length_map. exact Hsize. }
    destruct (Hcoded it (or_introl eq_refl) Hsize' s Hs) as [c [Hc _]].
    rewrite (Hcode s c Hc). exact (Hdepth s c Hc).
Qed.

(** The header of a frequency table reads back to the table. *)
Lemma header_round_trip_items (freq : list (byte * Z)) :
  NoDup (map fst freq) ->
  (forall k c, dict_get Byte.eqb freq k = Some c -> 0 < c < 4294967296) ->
  exists header,
    write_header freq = Ok header /\
    List.length header = 1024%nat /\
    Permutation (read_header header) freq.
Proof.
  intros Hnd Hrange.
  destruct (write_header_dichotomy freq) as [[header [Hw _]] | [_ [k Hbad]]].
  2:{ exfalso. apply Hbad. unfold dict_get_default.
      destruct (dict_get Byte.eqb freq k) as [c |] eqn:E; [| lia].
      pose proof (Hrange k c E). lia. }
  exists header. split; [exact Hw |].
  assert (H1024 : List.length header = 1024%nat).
  { destruct (header_count_written freq header [] 0 Hw ltac:(lia)) as [_ H]. exact H. }
  split; [exact H1024 |].
  apply dict_ext_Permutation; [apply read_header_NoDup | exact Hnd |].
  intros k. rewrite read_header_get.
  destruct (header_count_written freq header [] (byte_to_Z k) Hw (byte_to_Z_range k))
    as [Hcount _].
  rewrite app_nil_r, firstn_all2 in Hcount by lia.
  rewrite Hcount, byte_of_to_Z. unfold dict_get_default.
  destruct (dict_get Byte.eqb freq k) as [c |] eqn:E.
  - replace (c >? 0) with true; [reflexivity |].
    symmetry. apply Z.gtb_lt. pose proof (Hrange k c E). lia.
  - reflexivity.
Qed.

(** A file whose header is all zero: the payload is not looked at. *)
Lemma zero_header_ignores_payload (payload : list byte) :
  decompress_file_calls (repeat x00 1024 ++ payload) = ([], Ok []).
Proof.
  unfold decompress_file_calls.
  replace (firstn 1024 (repeat x00 1024 ++ payload)) with (repeat x00 1024).
  - replace (read_header (repeat x00 1024)) with (@nil (byte * Z))
      by (vm_compute; reflexivity).
    reflexivity.
  - rewrite firstn_app, repeat_length, Nat.sub_diag, firstn_0, app_nil_r.
    symmetry. apply firstn_all2. rewrite repeat_length. lia.
Qed.

(* ================================================================== *)
(** * Further properties (X7-X21) *)

Lemma prefix_code_abc :
  prefix_code [("A"%byte, "0"%string); ("B"%byte, "10"%string); ("C"%byte, "11"%string)].
Proof.
  split; [| split].
  - simpl. repeat constructor; simpl; intuition discriminate.
  - intros s c Hin. simpl in Hin.
    destruct Hin as [E | [E | [E | []]]]; injection E as <- <-; discriminate.
  - intros s1 c1 s2 c2 H1 H2 Hne [rest Hp]. simpl in H1, H2.
    destruct H1 as [E1 | [E1 | [E1 | []]]]; injection E1 as <- <-;
      destruct H2 as [E2 | [E2 | [E2 | []]]]; injection E2 as <- <-;
      try (apply Hne; reflexivity); simpl in Hp; discriminate Hp.
Defined.

Lemma decode_inverts_encode_witness :
  let table := [("A"%byte, "0"%string); ("B"%byte, "10"%string); ("C"%byte, "11"%string)] in
  prefix_code table /\
  encode (build_codec table) (bytes_of "ABCAA") = Ok "0101100"%string /\
  decode (build_codec table) ("0101100" ++ "1")
  = bytes_of "ABCAA" ++ decode (build_codec table) "1".
Proof.
  assert (Henc : encode (build_codec [("A"%byte, "0"%string); ("B"%byte, "10"%string);
                                      ("C"%byte, "11"%string)])
                        (bytes_of "ABCAA") = Ok "0101100"%string)
    by (vm_compute; reflexivity).
  split; [exact prefix_code_abc |]. split; [exact Henc |].
  exact (decode_inverts_encode _ (bytes_of "ABCAA") "0101100" "1" prefix_code_abc Henc).
Defined.

(** X7.  Records round trip.  Codewords whose offset and length fit
    sixteen bits serialize to five bytes each, and the record loop of
    [decompress_file] reads them back in order; up to four stray bytes
    after the last record are dropped. *)
Theorem records_round_trip (codewords : list Codeword) (tail : list byte) :
  Forall fits_HHB codewords ->
  (List.length tail < 5)%nat ->
  exists serialized,
    serialize codewords = Ok serialized /\
    List.length serialized = (5 * List.length codewords)%nat /\
    parse_codewords (range_step (Py.len (serialized ++ tail)) 5) (serialized ++ tail) []
    = Ok codewords.
Proof.
  intros Hfit Htail. exists (flat_map record_of codewords).
  split; [| split].
  - destruct (serialize_dichotomy codewords) as [[Hs _] | [_ Hex]]; [exact Hs |].
    exfalso. apply Exists_exists in Hex. destruct Hex as [cw [Hin Hno]].
    rewrite Forall_forall in Hfit. exact (Hno (Hfit cw Hin)).
  - apply (length_flat_map_const record_of 5). reflexivity.
  - exact (parse_serialized codewords tail Hfit Htail).
Qed.

Lemma records_round_trip_witness :
  let codewords := [mkCodeword 123 45 "C"%byte; mkCodeword 0 0 "A"%byte] in
  Forall fits_HHB codewords /\
  (List.length [x00; x00] < 5)%nat /\
  exists serialized,
    serialize codewords = Ok serialized /\
    List.length serialized = (5 * List.length codewords)%nat /\
    parse_codewords (range_step (Py.len (serialized ++ [x00; x00])) 5)
                    (serialized ++ [x00; x00]) []
    = Ok codewords.
Proof.
  assert (Hfit : Forall fits_HHB [mkCodeword 123 45 "C"%byte; mkCodeword 0 0 "A"%byte]).
  { repeat constructor; simpl; lia. }
  assert (Htail : (List.length [x00; x00] < 5)%nat) by (simpl; lia).
  split; [exact Hfit |]. split; [exact Htail |].
  exact (records_round_trip _ [x00; x00] Hfit Htail).
Defined.

(** X8.  Serializing succeeds exactly when every codeword fits its
    record: otherwise, as soon as an offset or a length is negative or
    above 65535, [struct.pack] raises and so does the loop. *)
Theorem serialize_raises_StructError_on_unfit_codeword (codewords : list Codeword) :
  (serialize codewords = Ok (flat_map record_of codewords) /\
   Forall fits_HHB codewords) \/
  (serialize codewords = Raise StructError /\
   Exists (fun cw => ~ fits_HHB cw) codewords).
Proof.
  exact (serialize_dichotomy codewords).
Qed.

(** X9.  The code table built from the byte counts of a stream always
    encodes that stream, and the codec filled from it decodes the bits
    back to the stream, going on afresh with whatever bits follow.  (For
    the empty stream there is no table and no bits.) *)
Theorem huffman_codec_round_trip (symbols : list byte) :
  exists table bits,
    build_codes (Counter symbols) = Ok table /\
    (if truthy table then encode (build_codec table) symbols else Ok EmptyString)
    = Ok bits /\
    is_bits bits = true /\
    forall rest,
      (if truthy table then decode (build_codec table) (bits ++ rest) else [])
      = symbols ++ (if truthy table then decode (build_codec table) rest else []).
Proof.
  destruct (build_codes_encode symbols) as [table [bits [H1 [H2 [H3 [_ H4]]]]]].
  exists table, bits. auto.
Qed.


(** X11.  A back-reference into the output never fails, also when it
    overlaps what it writes: with [1 <= offset <= len(buffer)] and
    [length >= 0], [decompress_codeword] appends exactly [length] copied
    bytes and the literal, and every copied byte equals the byte
    [offset] places before it in the grown output (so [offset < length]
    repeats the last [offset] bytes). *)
Theorem valid_backreference_replay (buffer : list byte) (cw : Codeword) :
  1 <= prefix_start_offset cw <= Py.len buffer ->
  0 <= prefix_len cw ->
  exists copied,
    decompress_codeword buffer cw = Ok (buffer ++ copied ++ [character cw]) /\
    Py.len copied = prefix_len cw /\
    forall j, 0 <= j < prefix_len cw ->
              exists b,
                byte_at (buffer ++ copied) (Py.len buffer + j) = Some b /\
                byte_at (buffer ++ copied)
                        (Py.len buffer + j - prefix_start_offset cw) = Some b.
Proof.
  exact (decompress_codeword_valid buffer cw).
Qed.

Lemma valid_backreference_replay_witness :
  let buffer := bytes_of "A" in
  let cw := mkCodeword 1 3 "B"%byte in
  1 <= prefix_start_offset cw <= Py.len buffer /\
  0 <= prefix_len cw /\
  exists copied,
    decompress_codeword buffer cw = Ok (buffer ++ copied ++ [character cw]) /\
    Py.len copied = prefix_len cw /\
    forall j, 0 <= j < prefix_len cw ->
              exists b,
                byte_at (buffer ++ copied) (Py.len buffer + j) = Some b /\
                byte_at (buffer ++ copied)
                        (Py.len buffer + j - prefix_start_offset cw) = Some b.
Proof.
  assert (H1 : 1 <= prefix_start_offset (mkCodeword 1 3 "B"%byte) <= Py.len (bytes_of "A"))
    by (vm_compute; split; discriminate).
  assert (H2 : 0 <= prefix_len (mkCodeword 1 3 "B"%byte)) by (simpl; lia).
  split; [exact H1 |]. split; [exact H2 |].
  exact (valid_backreference_replay (bytes_of "A") (mkCodeword 1 3 "B"%byte) H1 H2).
Defined.

(** X12.  The size of a replay.  Whenever [replay] returns, its output
    has one byte per codeword for the literal, plus [prefix_len] bytes
    for each codeword with [offset > 0] (and a non-negative length): a
    codeword with [offset = 0] adds its literal only, whatever its
    length field says. *)
Theorem replay_output_length (codewords : list Codeword) (out : list byte) :
  replay codewords = Ok out ->
  Py.len out = fold_right Z.add 0 (map replayed_bytes codewords).
Proof.
  intros H. unfold replay in H. rewrite (replay_from_length codewords [] out H).
  reflexivity.
Qed.

Lemma replay_output_length_witness :
  let codewords := [mkCodeword 0 0 "A"%byte; mkCodeword 1 3 "B"%byte;
                    mkCodeword 0 7 "C"%byte] in
  replay codewords = Ok (bytes_of "AAAABC") /\
  Py.len (bytes_of "AAAABC") = fold_right Z.add 0 (map replayed_bytes codewords).
Proof.
  assert (H : replay [mkCodeword 0 0 "A"%byte; mkCodeword 1 3 "B"%byte;
                      mkCodeword 0 7 "C"%byte] = Ok (bytes_of "AAAABC"))
    by (vm_compute; reflexivity).
  split; [exact H |].
  exact (replay_output_length _ _ H).
Defined.

(** X13.  [codeword_for_position] outside the buffer.  At a position at
    or past the end of the buffer it raises [IndexError]; at a negative
    position no offset is tried and [buffer[position]] is read with
    Python's negative indexing: the literal codeword of the byte counted
    from the end, or [IndexError] below [-len(buffer)]. *)
Theorem codeword_for_position_outside_buffer (W : Z) (buffer : list byte) (p : Z) :
  (Py.len buffer <= p -> codeword_for_position W buffer p = Raise IndexError) /\
  (p < - Py.len buffer -> codeword_for_position W buffer p = Raise IndexError) /\
  (- Py.len buffer <= p < 0 ->
   exists c, byte_at buffer (p + Py.len buffer) = Some c /\
             codeword_for_position W buffer p = Ok (literal c)).
Proof.
  exact (codeword_outside_buffer W buffer p).
Qed.

(** X14.  A byte that does not occur among the [min(p, W)] bytes before
    position [p] gets the literal-only codeword [(0, 0, buffer[p])]. *)
Theorem first_occurrence_is_literal (W : Z) (buffer : list byte) (p : Z) :
  0 <= p < Py.len buffer ->
  (forall o, 1 <= o <= Z.min p W -> byte_at buffer (p - o) <> byte_at buffer p) ->
  exists c, byte_at buffer p = Some c /\
            codeword_for_position W buffer p = Ok (literal c).
Proof.
  exact (codeword_first_occurrence W buffer p).
Qed.

Lemma first_occurrence_is_literal_witness :
  let buffer := bytes_of "ABABABACABABABAB" in
  0 <= 7 < Py.len buffer /\
  (forall o, 1 <= o <= Z.min 7 2 -> byte_at buffer (7 - o) <> byte_at buffer 7) /\
  exists c, byte_at buffer 7 = Some c /\
            codeword_for_position 2 buffer 7 = Ok (literal c).
Proof.
  assert (H1 : 0 <= 7 < Py.len (bytes_of "ABABABACABABABAB"))
    by (vm_compute; split; [discriminate | reflexivity]).
  assert (H2 : forall o, 1 <= o <= Z.min 7 2 ->
                 byte_at (bytes_of "ABABABACABABABAB") (7 - o)
                 <> byte_at (bytes_of "ABABABACABABABAB") 7).
  { intros o Ho. assert (Hcase : o = 1 \/ o = 2) by lia.
    destruct Hcase as [-> | ->]; vm_compute; discriminate. }
  split; [exact H1 |]. split; [exact H2 |].
  exact (first_occurrence_is_literal 2 (bytes_of "ABABABACABABABAB") 7 H1 H2).
Defined.

(** X15.  Input without repetition is not compressed at all: with a
    window of size zero (or less), or on a buffer whose bytes are
    pairwise distinct, [Lz77.compress] yields one literal codeword per
    byte, in order (five bytes of record for every byte of input). *)
Theorem unrepeated_input_yields_literals (W : Z) (data : list byte) :
  W <= 0 \/ NoDup data ->
  Lz77_compress W data = Ok (map literal data) /\
  replay (map literal data) = Ok data.
Proof.
  intros Hcase. split; [exact (Lz77_compress_literals W data Hcase) |].
  unfold replay. rewrite replay_from_literals. reflexivity.
Qed.

Lemma unrepeated_input_yields_literals_witness :
  (0 <= 0 \/ NoDup (bytes_of "ABAB")) /\
  Lz77_compress 0 (bytes_of "ABAB") = Ok (map literal (bytes_of "ABAB")) /\
  replay (map literal (bytes_of "ABAB")) = Ok (bytes_of "ABAB").
Proof.
  assert (H : 0 <= 0 \/ NoDup (bytes_of "ABAB")) by (left; lia).
  split; [exact H |].
  exact (unrepeated_input_yields_literals 0 (bytes_of "ABAB") H).
Defined.

(** X16.  Bounds on what the matcher emits, for every buffer and window:
    there are at most as many codewords as bytes, their spans
    [prefix_len + 1] add up to the buffer length, every offset lies
    between 0 and the window size, every length between 0 and 258, and a
    codeword without offset has length 0. *)
Theorem matcher_codeword_bounds (W : Z) (data : list byte) :
  exists codewords,
    Lz77_compress W data = Ok codewords /\
    (List.length codewords <= List.length data)%nat /\
    fold_right Z.add 0 (map (fun cw => prefix_len cw + 1) codewords) = Py.len data /\
    Forall (fun cw => 0 <= prefix_start_offset cw <= Z.max 0 W /\
                      0 <= prefix_len cw <= 258 /\
                      (prefix_start_offset cw = 0 -> prefix_len cw = 0))
           codewords.
Proof.
  exact (Lz77_compress_bounds W data).
Qed.

(** X17.  Code lengths.  For a table of [n >= 2] distinct symbols every
    code [huffman] returns is shorter than [n] bits; a byte alphabet
    therefore never gets a code longer than 255 bits. *)
Theorem huffman_code_length_bound (frequencies : list (byte * Z))
        (table : list (byte * string)) :
  (2 <= List.length frequencies)%nat ->
  NoDup (map fst frequencies) ->
  huffman frequencies = Ok table ->
  forall s c, dict_get Byte.eqb table s = Some c ->
              (String.length c < List.length frequencies)%nat /\
              (String.length c <= 255)%nat.
Proof.
  intros Hsize Hnd Ht s c Hc.
  destruct (huffman_shape frequencies table Hsize Hnd Ht) as [Hlen _].
  pose proof (Hlen s c Hc) as Hl. split; [exact Hl |].
  pose proof (NoDup_bytes_length _ Hnd) as Hb. rewrite length_map in Hb. lia.
Qed.

Lemma huffman_code_length_bound_witness :
  let frequencies := [("A"%byte, 5); ("B"%byte, 2); ("C"%byte, 1)] in
  let table := [("C"%byte, "00"%string); ("B"%byte, "01"%string); ("A"%byte, "1"%string)] in
  (2 <= List.length frequencies)%nat /\
  NoDup (map fst frequencies) /\
  huffman frequencies = Ok table /\
  forall s c, dict_get Byte.eqb table s = Some c ->
              (String.length c < List.length frequencies)%nat /\
              (String.length c <= 255)%nat.
Proof.
  assert (H1 : (2 <= List.length [("A"%byte, 5%Z); ("B"%byte, 2%Z); ("C"%byte, 1%Z)])%nat)
    by (simpl; lia).
  assert (H2 : NoDup (map fst [("A"%byte, 5); ("B"%byte, 2); ("C"%byte, 1)])).
  { simpl. repeat constructor; simpl; intuition discriminate. }
  assert (H3 : huffman [("A"%byte, 5); ("B"%byte, 2); ("C"%byte, 1)]
               = Ok [("C"%byte, "00"%string); ("B"%byte, "01"%string);
                     ("A"%byte, "1"%string)])
    by (vm_compute; reflexivity).
  split; [exact H1 |]. split; [exact H2 |]. split; [exact H3 |].
  exact (huffman_code_length_bound _ _ H1 H2 H3).
Defined.

(** X18.  Kraft equality.  For a table of two or more distinct symbols
    the codes [huffman] returns fill the code space exactly: the sum of
    [2^(-length)] over the codes is 1, stated here scaled by [2^255]
    (no code is longer than 255 bits). *)
Theorem huffman_codes_fill_the_code_space (frequencies : list (byte * Z))
        (table : list (byte * string)) :
  (2 <= List.length frequencies)%nat ->
  NoDup (map fst frequencies) ->
  huffman frequencies = Ok table ->
  kraft_sum table 255 (map fst frequencies) = 2 ^ 255.
Proof.
  intros Hsize Hnd Ht.
  destruct (huffman_shape frequencies table Hsize Hnd Ht) as [Hlen Hkraft].
  apply Hkraft. intros s c Hc.
  pose proof (Hlen s c Hc) as Hl.
  pose proof (NoDup_bytes_length _ Hnd) as Hb. rewrite length_map in Hb. lia.
Qed.

Lemma huffman_codes_fill_the_code_space_witness :
  let frequencies := [("A"%byte, 5); ("B"%byte, 2); ("C"%byte, 1)] in
  let table := [("C"%byte, "00"%string); ("B"%byte, "01"%string); ("A"%byte, "1"%string)] in
  (2 <= List.length frequencies)%nat /\
  NoDup (map fst frequencies) /\
  huffman frequencies = Ok table /\
  kraft_sum table 255 (map fst frequencies) = 2 ^ 255.
Proof.
  assert (H1 : (2 <= List.length [("A"%byte, 5%Z); ("B"%byte, 2%Z); ("C"%byte, 1%Z)])%nat)
    by (simpl; lia).
  assert (H2 : NoDup (map fst [("A"%byte, 5); ("B"%byte, 2); ("C"%byte, 1)])).
  { simpl. repeat constructor; simpl; intuition discriminate. }
  assert (H3 : huffman [("A"%byte, 5); ("B"%byte, 2); ("C"%byte, 1)]
               = Ok [("C"%byte, "00"%string); ("B"%byte, "01"%string);
                     ("A"%byte, "1"%string)])
    by (vm_compute; reflexivity).
  split; [exact H1 |]. split; [exact H2 |]. split; [exact H3 |].
  exact (huffman_codes_fill_the_code_space _ _ H1 H2 H3).
Defined.

(** X19.  The header round trip.  A frequency table with distinct
    symbols and counts between 1 and 2^32 - 1 is written as exactly 1024
    bytes, and reading those bytes back gives a table with the same
    items (in ascending symbol order instead of the order of the
    dict). *)
Theorem header_round_trip (freq : list (byte * Z)) :
  NoDup (map fst freq) ->
  (forall k c, dict_get Byte.eqb freq k = Some c -> 0 < c < 4294967296) ->
  exists header,
    write_header freq = Ok header /\
    List.length header = 1024%nat /\
    Permutation (read_header header) freq.
Proof.
  exact (header_round_trip_items freq).
Qed.

Lemma header_round_trip_witness :
  let freq := [("B"%byte, 2); ("A"%byte, 5)] in
  NoDup (map fst freq) /\
  (forall k c, dict_get Byte.eqb freq k = Some c -> 0 < c < 4294967296) /\
  exists header,
    write_header freq = Ok header /\
    List.length header = 1024%nat /\
    Permutation (read_header header) freq.
Proof.
  assert (H1 : NoDup (map fst [("B"%byte, 2); ("A"%byte, 5)])).
  { simpl. repeat constructor; simpl; intuition discriminate. }
  assert (H2 : forall k c, dict_get Byte.eqb [("B"%byte, 2); ("A"%byte, 5)] k = Some c ->
                           0 < c < 4294967296).
  { intros k c H. apply (dict_get_In Byte.eqb byte_eqb_true) in H.
    destruct H as [E | [E | []]]; injection E as _ <-; lia. }
  split; [exact H1 |]. split; [exact H2 |].
  exact (header_round_trip _ H1 H2).
Defined.

(** X20.  Bits to bytes and back.  A string of binary digits, padded
    with zeros as [compress_file] pads it, always packs into bytes (no
    [ValueError]), eight digits per byte, and the bit stream
    [decompress_file] rebuilds from those bytes is the padded string. *)
Theorem padded_bits_round_trip (bits : string) :
  is_bits bits = true ->
  let padded := (bits ++ zeros ((8 - str_len bits mod 8) mod 8))%string in
  exists bytes,
    pack_bits padded = Ok bytes /\
    bitstream_of bytes = padded /\
    8 * Py.len bytes = str_len padded.
Proof.
  exact (pack_bits_padded bits).
Qed.

Lemma padded_bits_round_trip_witness :
  is_bits "11110" = true /\
  let padded := ("11110" ++ zeros ((8 - str_len "11110" mod 8) mod 8))%string in
  exists bytes,
    pack_bits padded = Ok bytes /\
    bitstream_of bytes = padded /\
    8 * Py.len bytes = str_len padded.
Proof.
  assert (H : is_bits "11110" = true) by reflexivity.
  split; [exact H |].
  exact (padded_bits_round_trip "11110" H).
Defined.

(** X21.  A file whose 1024 header bytes are all zero decompresses to
    the empty buffer whatever follows the header: the payload is never
    decoded, and neither [huffman] nor [Codec.decode] is called. *)
Theorem zero_header_decompresses_to_empty (payload : list byte) :
  decompress_file_calls (repeat x00 1024 ++ payload) = ([], Ok []) /\
  decompress_file (repeat x00 1024 ++ payload) = Ok [].
Proof.
  split; [exact (zero_header_ignores_payload payload) |].
  unfold decompress_file. rewrite zero_header_ignores_payload. reflexivity.
Qed.
